(** * Hiking route recommendation: TOPSIS engine, cost estimator, geo distance

    A shallow embedding of the decision engine of the hiking application:

    - [src/server/services/distance.util.ts]  (module [Geo])
    - [src/server/services/cost.service.ts]   (module [Cost])
    - the TOPSIS service (second half of [src/lib/forms/rhf.ts], module [Topsis])

    JavaScript numbers are IEEE 754 binary64 values; they are modelled by
    Rocq's primitive [float]s, which are the same format with the same
    round-to-nearest-even arithmetic, so that every definition below can be
    evaluated on concrete inputs.  [Math.sin], [Math.cos] and [Math.atan2]
    are implementation-approximated in ECMAScript; they are kept abstract
    (record [MathLib]).  Prisma [Decimal] columns are read by the code through
    [parseFloat(x.toString())]; the model carries the resulting number.
    Object literals used as tables are lists of their own properties; a
    lookup by a name that comes from outside also sees the properties that
    every object inherits from [Object.prototype].  A string is the list of
    its code units, all below 256.  A call that can throw has a [Completion]
    as result.

    The second part of the development embeds what surrounds the engine:

    - the explanations, the report and [saveTopsisResults] of the TOPSIS
      service (module [Report])
    - [src/server/security/rateLimit.ts]      (module [RateLimit])
    - [src/server/services/gear.service.ts]   (module [Gear])
    - the size check of [safeJson] in [src/server/security/validation.ts]
      (module [Validation]) *)

From Stdlib Require Import Floats ZArith List String Ascii Bool Lia Permutation Sorted.
From Stdlib Require Import DecimalString.
Import ListNotations.

Set Warnings "-inexact-float".

(* ================================================================== *)
(** ** JavaScript numbers and the [Math] object *)
(* ================================================================== *)

Module JS.

Local Open Scope string_scope.
Local Open Scope float_scope.

(** [ToBoolean] on a number: [0], [-0] and [NaN] are falsy. *)
Definition truthy (x : float) : bool := negb (is_nan x || is_zero x).

(** [x || d] on numbers. *)
Definition or_num (x d : float) : float := if truthy x then x else d.

(** [x || d] where [x] may be [undefined]. *)
Definition or_undef (x : option float) (d : float) : float :=
  match x with
  | Some v => or_num v d
  | None => d
  end.

(** [s || d] on strings: the empty string is falsy. *)
Definition or_str (s d : string) : string :=
  if String.eqb s EmptyString then d else s.

(** One step of the loop of [Math.max]: NaN is absorbing and [+0] is larger
    than [-0]. *)
Definition max_step (highest x : float) : float :=
  if is_nan highest || is_nan x then nan
  else if highest <? x then x
  else if is_zero x && is_zero highest && get_sign highest && negb (get_sign x)
       then x
       else highest.

Definition min_step (lowest x : float) : float :=
  if is_nan lowest || is_nan x then nan
  else if x <? lowest then x
  else if is_zero x && is_zero lowest && get_sign x && negb (get_sign lowest)
       then x
       else lowest.

(** [Math.max(...l)] and [Math.min(...l)]. *)
Definition Math_max (l : list float) : float := fold_left max_step l neg_infinity.
Definition Math_min (l : list float) : float := fold_left min_step l infinity.

Definition Math_sqrt (x : float) : float := PrimFloat.sqrt x.

(** The float that represents the integer [z] (exact below 2^53). *)
Definition float_of_Z (z : Z) : float :=
  SF2Prim (binary_normalize prec emax z 0 false).

Definition signed (s : bool) (m : positive) : Z := if s then Zneg m else Zpos m.

(** [Math.round]: the closest integer, ties towards +infinity; the sign of a
    zero result is the sign of the argument. *)
Definition Math_round (x : float) : float :=
  match Prim2SF x with
  | S754_finite s m e =>
      if (0 <=? e)%Z then x
      else
        let d := (2 ^ (- e))%Z in
        let n := ((2 * signed s m + d) / (2 * d))%Z in
        if (n =? 0)%Z then (if s then PrimFloat.neg_zero else PrimFloat.zero)
        else float_of_Z n
  | _ => x
  end.

(** [Math.ceil]. *)
Definition Math_ceil (x : float) : float :=
  match Prim2SF x with
  | S754_finite s m e =>
      if (0 <=? e)%Z then x
      else
        let d := (2 ^ (- e))%Z in
        let n := (- ((- signed s m) / d))%Z in
        if (n =? 0)%Z then PrimFloat.neg_zero else float_of_Z n
  | _ => x
  end.

(** [s.toLowerCase()].  Among the code units below 256 the capital letters
    are A to Z and U+00C0 to U+00DE without the multiplication sign U+00D7;
    the lower-case form of each is 32 places further. *)
Definition lower_ascii (c : ascii) : ascii :=
  let n := nat_of_ascii c in
  if ((65 <=? n)%nat && (n <=? 90)%nat)
     || ((192 <=? n)%nat && (n <=? 222)%nat && negb (n =? 215)%nat)
  then ascii_of_nat (n + 32) else c.

Fixpoint toLowerCase (s : string) : string :=
  match s with
  | EmptyString => EmptyString
  | String c r => String (lower_ascii c) (toLowerCase r)
  end.

(** [s.split(',')[0]]: the part of [s] before its first comma. *)
Fixpoint split_comma_first (s : string) : string :=
  match s with
  | EmptyString => EmptyString
  | String c r => if Ascii.eqb c "," then EmptyString else String c (split_comma_first r)
  end.

(** White space and line terminators below 256: the tab, the line feed, the
    vertical tab, the form feed, the carriage return, the space and the
    no-break space. *)
Definition is_space (c : ascii) : bool :=
  let n := nat_of_ascii c in
  ((9 <=? n)%nat && (n <=? 13)%nat) || (n =? 32)%nat || (n =? 160)%nat.

Fixpoint trimStart (s : string) : string :=
  match s with
  | EmptyString => EmptyString
  | String c r => if is_space c then trimStart r else s
  end.

Fixpoint trimEnd (s : string) : string :=
  match s with
  | EmptyString => EmptyString
  | String c r =>
      let r' := trimEnd r in
      if is_space c && String.eqb r' EmptyString then EmptyString else String c r'
  end.

(** [s.trim()]. *)
Definition trim (s : string) : string := trimEnd (trimStart s).

(** Property lookup [obj[k]] on an object literal, kept as the list of its
    own properties in insertion order; [None] is [undefined]. *)
Fixpoint lookup {A : Type} (k : string) (o : list (string * A)) : option A :=
  match o with
  | [] => None
  | (k', v) :: o' => if String.eqb k' k then Some v else lookup k o'
  end.

(** [l.includes(x)] on an array of strings. *)
Definition includes (x : string) (l : list string) : bool :=
  existsb (String.eqb x) l.

(** The property names every object literal inherits from
    [Object.prototype].  Each of them holds a function (for [__proto__] the
    prototype object itself), which is truthy and is NaN wherever it is used
    as a number. *)
Definition objectPrototypeKeys : list string :=
  [ "constructor"; "__defineGetter__"; "__defineSetter__"; "hasOwnProperty";
    "__lookupGetter__"; "__lookupSetter__"; "isPrototypeOf"; "propertyIsEnumerable";
    "toString"; "valueOf"; "__proto__"; "toLocaleString" ].

(** [table[k] || d], where the result is used as a number. *)
Definition number_or (table : list (string * float)) (k : string) (d : float) : float :=
  match lookup k table with
  | Some v => or_num v d
  | None => if includes k objectPrototypeKeys then nan else d
  end.

(** [o[k] = v] on an object literal creates or updates the own property [k],
    except for [__proto__]: that name is the accessor of the prototype, which
    ignores a number, so that the object gets no such property. *)
Definition assignable (k : string) : bool := negb (String.eqb k "__proto__").

(** How a call ends: it returns a value or it throws.  The one error of the
    code below is the [ReferenceError] of an identifier that has no binding
    when the code runs. *)
Inductive Error := ReferenceError (name : string).

Inductive Completion (A : Type) :=
| Returns (value : A)
| Throws (error : Error).
Arguments Returns {A}.
Arguments Throws {A}.

Definition bind {A B : Type} (c : Completion A) (f : A -> Completion B) : Completion B :=
  match c with
  | Returns a => f a
  | Throws e => Throws e
  end.

(** [l.map(f)] for a callback that can throw: the elements are visited from
    the first to the last, and the first throw ends the call. *)
Fixpoint Array_map {A B : Type} (f : A -> Completion B) (l : list A) : Completion (list B) :=
  match l with
  | [] => Returns []
  | x :: rest =>
      bind (f x) (fun y => bind (Array_map f rest) (fun ys => Returns (y :: ys)))
  end.

End JS.

(* ================================================================== *)
(** ** distance.util.ts *)
(* ================================================================== *)

Module Geo.

Import JS.
Local Open Scope string_scope.
Local Open Scope float_scope.

Record Coordinates := { latitude : float; longitude : float }.

(** The three functions of [Math] whose results ECMAScript leaves to the
    implementation. *)
Record MathLib := {
  Math_sin : float -> float;
  Math_cos : float -> float;
  Math_atan2 : float -> float -> float
}.

Definition Math_PI : float := 3.141592653589793.

(** A concrete [MathLib]: the Taylor polynomials of sine, cosine and
    arctangent around 0, in Horner form.  They are accurate to the last digit
    or so for the small angles that occur between the locations of the
    table below, and are used where a claim is evaluated on table
    locations. *)
Definition taylorSin (x : float) : float :=
  let x2 := x * x in
  x * (1 - x2 / 6 * (1 - x2 / 20 * (1 - x2 / 42 * (1 - x2 / 72 *
      (1 - x2 / 110 * (1 - x2 / 156)))))).

Definition taylorCos (x : float) : float :=
  let x2 := x * x in
  1 - x2 / 2 * (1 - x2 / 12 * (1 - x2 / 30 * (1 - x2 / 56 * (1 - x2 / 90 *
      (1 - x2 / 132 * (1 - x2 / 182)))))).

Definition taylorAtan (z : float) : float :=
  let z2 := z * z in
  z * (1 - z2 * (1 / 3 - z2 * (1 / 5 - z2 * (1 / 7 - z2 * (1 / 9 - z2 * (1 / 11 -
      z2 * (1 / 13 - z2 * (1 / 15 - z2 * (1 / 17 - z2 / 19))))))))).

Definition approxMath : MathLib :=
  {| Math_sin := taylorSin;
     Math_cos := taylorCos;
     Math_atan2 := fun y x => taylorAtan (y / x) |}.

Definition toRadians (degrees : float) : float := degrees * (Math_PI / 180).

Definition haversineDistance (M : MathLib) (coord1 coord2 : Coordinates) : float :=
  let R := 6371 in
  let lat1Rad := toRadians (latitude coord1) in
  let lat2Rad := toRadians (latitude coord2) in
  let deltaLatRad := toRadians (latitude coord2 - latitude coord1) in
  let deltaLonRad := toRadians (longitude coord2 - longitude coord1) in
  let a := Math_sin M (deltaLatRad / 2) * Math_sin M (deltaLatRad / 2) +
           Math_cos M lat1Rad * Math_cos M lat2Rad *
           Math_sin M (deltaLonRad / 2) * Math_sin M (deltaLonRad / 2) in
  let c := 2 * Math_atan2 M (Math_sqrt a) (Math_sqrt (1 - a)) in
  R * c.

Definition LOCATION_COORDINATES : list (string * Coordinates) :=
  [ ("jakarta",    {| latitude := -6.2088; longitude := 106.8456 |});
    ("bandung",    {| latitude := -6.9175; longitude := 107.6191 |});
    ("yogyakarta", {| latitude := -7.7956; longitude := 110.3695 |});
    ("surabaya",   {| latitude := -7.2575; longitude := 112.7521 |});
    ("bali",       {| latitude := -8.4095; longitude := 115.1889 |});
    ("lombok",     {| latitude := -8.5069; longitude := 116.1944 |});
    ("malang",     {| latitude := -7.9666; longitude := 112.6326 |});
    ("magelang",   {| latitude := -7.4698; longitude := 110.2182 |}) ].

(** [LOCATION_COORDINATES[k]]: an entry of the table; for a name that the
    table inherits, a function or the prototype object, which passes the test
    [!coords] and whose [latitude] and [longitude] are [undefined], NaN in the
    arithmetic of [haversineDistance]; [None] is [undefined]. *)
Definition coordinatesOf (k : string) : option Coordinates :=
  match lookup k LOCATION_COORDINATES with
  | Some c => Some c
  | None =>
      if includes k objectPrototypeKeys then Some {| latitude := nan; longitude := nan |}
      else None
  end.

Definition calculateTransportDistance (M : MathLib)
    (userLocation mountainLocation : string) : float :=
  let userCoords := coordinatesOf (toLowerCase userLocation) in
  let mountainCoords := coordinatesOf (toLowerCase mountainLocation) in
  match userCoords, mountainCoords with
  | Some u, Some m => haversineDistance M u m
  | _, _ => 300
  end.

End Geo.

(* ================================================================== *)
(** ** cost.service.ts *)
(* ================================================================== *)

Module Cost.

Import JS Geo.
Local Open Scope string_scope.
Local Open Scope float_scope.

Record CostBreakdown := {
  transportation : float;
  permits : float;
  guide : float;
  accommodation : float;
  meals : float;
  equipment : float;
  miscellaneous : float;
  total : float
}.

Inductive BudgetLevel := budget | standard | premium.

Record CostCalculationInput := {
  userLocation : string;
  mountainLocation : string;
  routeDifficulty : string;
  duration : float;  (* days *)
  groupSize : float;
  needsGuide : bool;
  needsEquipment : bool;
  budgetLevel : BudgetLevel
}.

Section WithMath.
Variable M : MathLib.

Definition calculateTransportationCost
    (userLocation mountainLocation : string) (groupSize : float) : float :=
  let distance := calculateTransportDistance M userLocation mountainLocation in
  let motorCostPerPerson := (distance / 30) * 10000 in
  let publicTransportBase := 50000 in
  let publicTransportPerKm := 500 in
  let publicTransportCost := publicTransportBase + (publicTransportPerKm * distance) in
  let costPerPerson := Math_min [motorCostPerPerson; publicTransportCost] in
  if 4 <? groupSize then
    let carRentalCost := distance * 2000 + 300000 in
    Math_min [costPerPerson * groupSize; carRentalCost]
  else
    costPerPerson * groupSize.

Definition permitRates : list (string * float) :=
  [ ("lombok", 150000); ("malang", 200000); ("magelang", 100000); ("default", 120000) ].

Definition difficultyMultipliers : list (string * float) :=
  [ ("Easy", 1.0); ("Moderate", 1.2); ("Hard", 1.5); ("Expert", 2.0) ].

Definition calculatePermitCost
    (mountainLocation routeDifficulty : string) (groupSize : float) : float :=
  let basePermit :=
    number_or permitRates mountainLocation (or_undef (lookup "default" permitRates) nan) in
  let difficultyMultiplier := number_or difficultyMultipliers routeDifficulty 1.0 in
  basePermit * groupSize * difficultyMultiplier.

Definition guideDailyRates : list (string * float) :=
  [ ("Easy", 200000); ("Moderate", 300000); ("Hard", 400000); ("Expert", 500000) ].

Definition calculateGuideCost
    (routeDifficulty : string) (duration groupSize : float) (needsGuide : bool) : float :=
  if negb needsGuide then 0
  else
    let baseDailyRate := number_or guideDailyRates routeDifficulty 300000 in
    let guidesNeeded := Math_ceil (groupSize / 4) in
    baseDailyRate * duration * guidesNeeded.

Definition ratesPerPersonPerNight (b : BudgetLevel) : float :=
  match b with budget => 75000 | standard => 150000 | premium => 300000 end.

Definition calculateAccommodationCost
    (duration groupSize : float) (budgetLevel : BudgetLevel) : float :=
  let nightsNeeded := Math_max [0; duration - 1] in
  ratesPerPersonPerNight budgetLevel * groupSize * nightsNeeded.

Definition mealRatesPerPersonPerDay (b : BudgetLevel) : float :=
  match b with budget => 50000 | standard => 75000 | premium => 125000 end.

Definition calculateMealCost
    (duration groupSize : float) (budgetLevel : BudgetLevel) : float :=
  mealRatesPerPersonPerDay budgetLevel * groupSize * duration.

Definition equipmentRates : list (string * float) :=
  [ ("Easy", 100000); ("Moderate", 150000); ("Hard", 200000); ("Expert", 300000) ].

Definition calculateEquipmentCost
    (needsEquipment : bool) (duration groupSize : float) (routeDifficulty : string) : float :=
  if negb needsEquipment then 0
  else
    let baseEquipmentCostPerPerson := number_or equipmentRates routeDifficulty 150000 in
    baseEquipmentCostPerPerson * groupSize * duration.

Definition calculateTripCost (input : CostCalculationInput) : CostBreakdown :=
  let transportation :=
    calculateTransportationCost (userLocation input) (mountainLocation input) (groupSize input) in
  let permits :=
    calculatePermitCost (mountainLocation input) (routeDifficulty input) (groupSize input) in
  let guide :=
    calculateGuideCost (routeDifficulty input) (duration input) (groupSize input)
                       (needsGuide input) in
  let accommodation :=
    calculateAccommodationCost (duration input) (groupSize input) (budgetLevel input) in
  let meals := calculateMealCost (duration input) (groupSize input) (budgetLevel input) in
  let equipment :=
    calculateEquipmentCost (needsEquipment input) (duration input) (groupSize input)
                           (routeDifficulty input) in
  let miscellaneous :=
    (transportation + permits + guide + accommodation + meals + equipment) * 0.1 in
  let total :=
    transportation + permits + guide + accommodation + meals + equipment + miscellaneous in
  {| transportation := Math_round transportation;
     permits := Math_round permits;
     guide := Math_round guide;
     accommodation := Math_round accommodation;
     meals := Math_round meals;
     equipment := Math_round equipment;
     miscellaneous := Math_round miscellaneous;
     total := Math_round total |}.

(** [parseBudgetRange(budgetRange)]: the pair of [min] and [max] as numbers.
    For an inherited name the table yields a function, whose [min] and [max]
    are [undefined]. *)
Definition budgetMap : list (string * (float * float)) :=
  [ ("under_500k", (0, 500000)); ("500k_1m", (500000, 1000000));
    ("1m_2m", (1000000, 2000000)); ("2m_5m", (2000000, 5000000));
    ("above_5m", (5000000, 10000000)) ].

Definition parseBudgetRange (budgetRange : string) : float * float :=
  match lookup budgetRange budgetMap with
  | Some r => r
  | None => if includes budgetRange objectPrototypeKeys then (nan, nan) else (0, 2000000)
  end.

End WithMath.

End Cost.

(* ================================================================== *)
(** ** The TOPSIS service *)
(* ================================================================== *)

Module Topsis.

Import JS Geo.
Local Open Scope string_scope.
Local Open Scope float_scope.

Record UserPreferences := {
  experience_level : string;
  fitness_level : float;
  budget_range : string;
  time_commitment : string;
  location : string;
  group_size : float;
  interests : list string;
  concerns : option (list string)
}.

(** *** calculateUserWeights

    The [weights] object is a record literal with three string keys; it is
    kept as the list of its properties in insertion order, which is the order
    [Object.values] and [Object.keys] enumerate. *)

Definition Weights := list (string * float).

(** [w[k]] read in an arithmetic expression: [undefined], and likewise the
    function or object found under an inherited name, becomes NaN. *)
Definition get (w : Weights) (k : string) : float :=
  match lookup k w with
  | Some v => v
  | None => nan
  end.

(** [w[k] = v]. *)
Fixpoint set (w : Weights) (k : string) (v : float) : Weights :=
  match w with
  | [] => [(k, v)]
  | (k', v') :: w' => if String.eqb k' k then (k', v) :: w' else (k', v') :: set w' k v
  end.

Definition PhysicalDemand := "Physical Demand".
Definition LogisticsCost := "Logistics & Cost".
Definition ExperienceQuality := "Experience Quality".

Definition initialWeights : Weights :=
  [ (PhysicalDemand, 0.33); (LogisticsCost, 0.33); (ExperienceQuality, 0.34) ].

(** The assignment statements of the function body, as state transformers. *)
Definition assign (k : string) (v : float) : Weights -> Weights :=
  fun w => set w k v.
Definition add_assign (k : string) (d : float) : Weights -> Weights :=
  fun w => set w k (get w k + d).
Definition sub_assign (k : string) (d : float) : Weights -> Weights :=
  fun w => set w k (get w k - d).

(** The statements executed for given preferences, in program order. *)
Definition adjustments (preferences : UserPreferences) : list (Weights -> Weights) :=
  (if experience_level preferences =? "beginner" then
     [ assign PhysicalDemand 0.2; assign LogisticsCost 0.5; assign ExperienceQuality 0.3 ]
   else if experience_level preferences =? "expert" then
     [ assign PhysicalDemand 0.5; assign LogisticsCost 0.2; assign ExperienceQuality 0.3 ]
   else [])%string
  ++
  (if (budget_range preferences =? "under_500k")%string
      || (budget_range preferences =? "500k_1m")%string then
     [ add_assign LogisticsCost 0.1; sub_assign PhysicalDemand 0.05;
       sub_assign ExperienceQuality 0.05 ]
   else [])
  ++
  (if includes "physical_challenge" (interests preferences) then
     [ add_assign PhysicalDemand 0.1; sub_assign ExperienceQuality 0.1 ]
   else [])
  ++
  (if includes "scenic_views" (interests preferences) then
     [ add_assign ExperienceQuality 0.1; sub_assign PhysicalDemand 0.1 ]
   else []).

Definition run (stmts : list (Weights -> Weights)) (w : Weights) : Weights :=
  fold_left (fun w s => s w) stmts w.

(** [Object.values(weights).reduce((sum, w) => sum + w, 0)]. *)
Definition sumWeights (w : Weights) : float :=
  fold_left (fun sum x => sum + x) (map snd w) 0.

(** The final loop: every weight divided by the total. *)
Definition renormalize (w : Weights) : Weights :=
  let total := sumWeights w in
  map (fun kv => (fst kv, snd kv / total)) w.

Definition adjustedWeights (preferences : UserPreferences) : Weights :=
  run (adjustments preferences) initialWeights.

Definition calculateUserWeights (preferences : UserPreferences) : Weights :=
  renormalize (adjustedWeights preferences).

(** Every state the [weights] object goes through before the final loop:
    the initial literal and the state after each assignment. *)
Fixpoint states (stmts : list (Weights -> Weights)) (w : Weights) : list Weights :=
  match stmts with
  | [] => [w]
  | s :: rest => w :: states rest (s w)
  end.

Definition weightStates (preferences : UserPreferences) : list Weights :=
  states (adjustments preferences) initialWeights.

(** *** The decision matrix *)

Record Criterion := {
  c_name : string;
  isBenefit : bool;
  c_factor : string;       (* criterion.factor.name *)
  weightInFactor : float
}.

(** [criterionId] is the empty string where the object has none. *)
Record CriterionValue := {
  criterionId : string;
  criterion : Criterion;
  valueDecimal : float
}.

(** [{ ...cv, normalizedValue }] *)
Record NormalizedValue := {
  nv_base : CriterionValue;
  normalizedValue : float
}.

(** [{ ...cv, weight, weightedValue }] *)
Record WeightedValue := {
  wv_base : NormalizedValue;
  weight : float;
  weightedValue : float
}.

Record Mountain := { mountain_name : string; mountain_location : string }.

Record Route (V : Type) := {
  route_id : string;
  route_name : string;
  mountain : Mountain;
  difficulty : string;
  distance : float;
  duration : float;          (* hours *)
  criterionValues : list V
}.
Arguments route_id {V}.
Arguments route_name {V}.
Arguments mountain {V}.
Arguments difficulty {V}.
Arguments distance {V}.
Arguments duration {V}.
Arguments criterionValues {V}.

(** [{ ...route, criterionValues: vs }] *)
Definition with_values {V W : Type} (r : Route V) (vs : list W) : Route W :=
  {| route_id := route_id r; route_name := route_name r; mountain := mountain r;
     difficulty := difficulty r; distance := distance r; duration := duration r;
     criterionValues := vs |}.

Record FactorWeight := { fw_factor : string; fw_weight : float }.

(** [cv.criterionId || cv.criterion.name] at the three stages. *)
Definition cv_key (cv : CriterionValue) : string :=
  or_str (criterionId cv) (c_name (criterion cv)).
Definition nv_key (cv : NormalizedValue) : string := cv_key (nv_base cv).
Definition wv_key (cv : WeightedValue) : string := nv_key (wv_base cv).

(** [Set.add] on a set of strings, in insertion order. *)
Definition add_key (s : list string) (k : string) : list string :=
  if includes k s then s else (s ++ [k])%list.

Definition allCriteria {V : Type} (key : V -> string) (routes : list (Route V))
  : list string :=
  fold_left (fun s r => fold_left (fun s cv => add_key s (key cv)) (criterionValues r) s)
            routes [].

(** [route.criterionValues.find(cv => key(cv) === k)] *)
Definition find_cv {V : Type} (key : V -> string) (k : string) (r : Route V) : option V :=
  find (fun cv => String.eqb (key cv) k) (criterionValues r).

(** *** addDynamicCriteria *)

Section WithMath.
Variable M : MathLib.

Definition mountainKey {V : Type} (route : Route V) : string :=
  trim (split_comma_first (toLowerCase (mountain_location (mountain route)))).

Definition costInput {V : Type} (route : Route V) (preferences : UserPreferences)
  : Cost.CostCalculationInput :=
  {| Cost.userLocation := or_str (location preferences) "jakarta";
     Cost.mountainLocation := mountainKey route;
     Cost.routeDifficulty := difficulty route;
     Cost.duration := or_num (Math_ceil (duration route / 24)) 1;
     Cost.groupSize := or_num (group_size preferences) 2;
     Cost.needsGuide := (experience_level preferences =? "beginner")%string;
     Cost.needsEquipment :=
       match concerns preferences with
       | Some l => includes "equipment" l || false
       | None => false
       end;
     Cost.budgetLevel :=
       if (budget_range preferences =? "under_500k")%string then Cost.budget
       else if (budget_range preferences =? "above_5m")%string then Cost.premium
       else Cost.standard |}.

(** [new Decimal(x)].  The module imports [Decimal] with [import type]; such
    an import is erased when the file is compiled, so that the identifier has
    no binding when the code runs and the expression throws.  (Where a value
    is read from a stored [Decimal], the model carries the number.) *)
Definition new_Decimal (x : float) : Completion float :=
  Throws (ReferenceError "Decimal").

(** The callback of the [map] of [addDynamicCriteria], statement by
    statement. *)
Definition withDynamicCriteria (preferences : UserPreferences)
    (route : Route CriterionValue) : Completion (Route CriterionValue) :=
  let dynamicValues := criterionValues route in
  let costBreakdown := Cost.calculateTripCost M (costInput route preferences) in
  bind (new_Decimal 0.6) (fun costWeight =>
  bind (new_Decimal (Cost.total costBreakdown)) (fun costValue =>
  let dynamicValues :=
    (dynamicValues ++
       [ {| criterionId := "calculated_cost";
            criterion := {| c_name := "Total Trip Cost"; isBenefit := false;
                            c_factor := "Logistics & Cost"; weightInFactor := costWeight |};
            valueDecimal := costValue |} ])%list in
  let distance :=
    calculateTransportDistance M (or_str (location preferences) "jakarta")
                               (mountainKey route) in
  let accessibilityScore := Math_max [1; 6 - (distance / 100)] in
  bind (new_Decimal 0.4) (fun accessibilityWeight =>
  bind (new_Decimal accessibilityScore) (fun accessibilityValue =>
  let dynamicValues :=
    (dynamicValues ++
       [ {| criterionId := "accessibility_score";
            criterion := {| c_name := "Accessibility Score"; isBenefit := true;
                            c_factor := "Logistics & Cost";
                            weightInFactor := accessibilityWeight |};
            valueDecimal := accessibilityValue |} ])%list in
  Returns (with_values route dynamicValues))))).

Definition addDynamicCriteria (routes : list (Route CriterionValue))
    (preferences : UserPreferences) : Completion (list (Route CriterionValue)) :=
  Array_map (withDynamicCriteria preferences) routes.

End WithMath.

(** *** normalizeMatrix *)

Definition columnValues (criterionKey : string) (routes : list (Route CriterionValue))
  : list float :=
  map (fun route =>
         match find_cv cv_key criterionKey route with
         | Some criterionValue => valueDecimal criterionValue
         | None => 0
         end)
      routes.

Definition sumOfSquares (values : list float) : float :=
  fold_left (fun sum value => sum + (value * value)) values 0.

(** The object [normalizationFactors] after the loop over the criteria:
    one own property per criterion key that can be assigned. *)
Definition normalizationFactors (routes : list (Route CriterionValue))
  : list (string * float) :=
  map (fun criterionKey =>
         (criterionKey, Math_sqrt (sumOfSquares (columnValues criterionKey routes))))
      (filter assignable (allCriteria cv_key routes)).

Definition normalizeValue (factors : list (string * float)) (cv : CriterionValue)
  : NormalizedValue :=
  let criterionKey := cv_key cv in
  let originalValue := valueDecimal cv in
  let normalizedValue :=
    match lookup criterionKey factors with
    | Some f => if 0 <? f then originalValue / f else 0
    | None => 0     (* [undefined > 0] and [inherited > 0] are false *)
    end in
  {| nv_base := cv; normalizedValue := normalizedValue |}.

Definition normalizeMatrix (routes : list (Route CriterionValue))
  : list (Route NormalizedValue) :=
  let factors := normalizationFactors routes in
  map (fun route => with_values route (map (normalizeValue factors) (criterionValues route)))
      routes.

(** *** applyWeights *)

Definition applyWeight (factorWeights : list FactorWeight) (userWeights : Weights)
    (cv : NormalizedValue) : WeightedValue :=
  let factorName := c_factor (criterion (nv_base cv)) in
  let factorWeight :=
    match find (fun fw => String.eqb (fw_factor fw) factorName) factorWeights with
    | Some fw => fw_weight fw       (* a Decimal object, always truthy *)
    | None => 0.33
    end in
  let userWeight := number_or userWeights factorName 0.33 in
  let criterionWeight := weightInFactor (criterion (nv_base cv)) in
  let totalWeight := factorWeight * userWeight * criterionWeight in
  {| wv_base := cv; weight := totalWeight;
     weightedValue := normalizedValue cv * totalWeight |}.

Definition applyWeights (routes : list (Route NormalizedValue))
    (factorWeights : list FactorWeight) (userWeights : Weights)
  : list (Route WeightedValue) :=
  map (fun route =>
         with_values route (map (applyWeight factorWeights userWeights)
                                (criterionValues route)))
      routes.

(** *** findIdealSolutions *)

(** The object built for one route of a criterion column:
    [{ weightedValue: cv?.weightedValue || 0,
       isBenefit: cv?.criterion.isBenefit || true }]. *)
Definition idealEntry (criterionKey : string) (route : Route WeightedValue)
  : float * bool :=
  match find_cv wv_key criterionKey route with
  | Some cv => (or_num (weightedValue cv) 0,
                isBenefit (criterion (nv_base (wv_base cv))) || true)
  | None => (0, true)
  end.

(** [criterionValues[0]?.isBenefit || true] *)
Definition columnIsBenefit (criterionValues : list (float * bool)) : bool :=
  match criterionValues with
  | e :: _ => snd e || true
  | [] => true
  end.

(** The pair (positive ideal, negative ideal) of one criterion column. *)
Definition idealsOfColumn (criterionKey : string) (routes : list (Route WeightedValue))
  : float * float :=
  let criterionValues := map (idealEntry criterionKey) routes in
  let weightedValues := map fst criterionValues in
  let isBenefit := columnIsBenefit criterionValues in
  if isBenefit then (Math_max weightedValues, Math_min weightedValues)
  else (Math_min weightedValues, Math_max weightedValues).

Record Ideals := {
  positiveIdeal : list (string * float);
  negativeIdeal : list (string * float)
}.

(** The two objects after the loop over the criteria: one own property per
    criterion key that can be assigned. *)
Definition findIdealSolutions (routes : list (Route WeightedValue)) : Ideals :=
  let keys := filter assignable (allCriteria wv_key routes) in
  {| positiveIdeal := map (fun k => (k, fst (idealsOfColumn k routes))) keys;
     negativeIdeal := map (fun k => (k, snd (idealsOfColumn k routes))) keys |}.

(** *** calculateDistances *)

(** [{ ...route, distanceToPositive, distanceToNegative, topsisScore }] *)
Record ScoredRoute := {
  sr_route : Route WeightedValue;
  distanceToPositive : float;
  distanceToNegative : float;
  topsisScore : float
}.

(** One iteration of the [forEach] over a route's criterion values; the state
    is the pair of accumulators. *)
Definition distanceStep (positiveIdeal negativeIdeal : list (string * float))
    (acc : float * float) (cv : WeightedValue) : float * float :=
  let criterionKey := wv_key cv in
  let weightedValue := weightedValue cv in
  let diffPositive := weightedValue - get positiveIdeal criterionKey in
  let diffNegative := weightedValue - get negativeIdeal criterionKey in
  (fst acc + diffPositive * diffPositive, snd acc + diffNegative * diffNegative).

Definition scoreRoute (positiveIdeal negativeIdeal : list (string * float))
    (route : Route WeightedValue) : ScoredRoute :=
  let acc := fold_left (distanceStep positiveIdeal negativeIdeal)
                       (criterionValues route) (0, 0) in
  let distanceToPositive := Math_sqrt (fst acc) in
  let distanceToNegative := Math_sqrt (snd acc) in
  let topsisScore := distanceToNegative / (distanceToPositive + distanceToNegative) in
  {| sr_route := route;
     distanceToPositive := distanceToPositive;
     distanceToNegative := distanceToNegative;
     topsisScore := topsisScore |}.

Definition calculateDistances (routes : list (Route WeightedValue))
    (positiveIdeal negativeIdeal : list (string * float)) : list ScoredRoute :=
  map (scoreRoute positiveIdeal negativeIdeal) routes.

(** *** Sorting and ranking

    [routesWithScores.sort((a, b) => b.topsisScore - a.topsisScore)].  The
    language fixes the result of [sort] when the comparator is consistent:
    the array is then sorted by the comparator and elements that compare
    equal keep their order.  This comparator is consistent when every
    difference of two scores is a number, that is, when every score is
    finite (NaN minus anything and infinity minus itself are NaN); an element
    [a] is then moved behind [b] when [b.topsisScore - a.topsisScore] is
    positive, and the result is the one of the stable insertion sort below.
    For an array that holds a score that is not finite the order is the
    parameter [engine]: the language leaves it to the implementation as soon
    as the comparator is not consistent. *)

Definition compareFn (a b : ScoredRoute) : float := topsisScore b - topsisScore a.

Fixpoint insert (x : ScoredRoute) (l : list ScoredRoute) : list ScoredRoute :=
  match l with
  | [] => [x]
  | y :: l' => if 0 <? compareFn x y then y :: insert x l' else x :: l
  end.

Definition sortByScore (l : list ScoredRoute) : list ScoredRoute :=
  fold_right insert [] l.

Definition finiteScores (l : list ScoredRoute) : bool :=
  forallb (fun r => is_finite (topsisScore r)) l.

Definition Array_sort (engine : list ScoredRoute -> list ScoredRoute)
    (l : list ScoredRoute) : list ScoredRoute :=
  if finiteScores l then sortByScore l else engine l.

(** [{ ...route, rank: index + 1 }] *)
Record RankedRoute := {
  rr_route : ScoredRoute;
  rank : nat
}.

Fixpoint assignRanks (index : nat) (l : list ScoredRoute) : list RankedRoute :=
  match l with
  | [] => []
  | route :: rest => {| rr_route := route; rank := index + 1 |} :: assignRanks (S index) rest
  end.

(** Step 8 of [runTopsisAnalysis]: [rankedRoutes]. *)
Definition rankRoutes (engine : list ScoredRoute -> list ScoredRoute)
    (routesWithScores : list ScoredRoute) : list RankedRoute :=
  assignRanks 0 (Array_sort engine routesWithScores).

(** *** runTopsisAnalysis

    Steps 2 to 8 of the function, on the routes and factor weights that
    [buildDecisionMatrix] read from the database; the result is
    [rankedRoutes], whose [topsisScore] and [rank] are copied unchanged into
    the returned route evaluations. *)

(** Steps 4 to 7: from the augmented routes to the scored routes. *)
Definition scoredRoutes (routesWithDynamicCriteria : list (Route CriterionValue))
    (factorWeights : list FactorWeight) (userWeights : Weights) : list ScoredRoute :=
  let normalizedRoutes := normalizeMatrix routesWithDynamicCriteria in
  let weightedRoutes := applyWeights normalizedRoutes factorWeights userWeights in
  let ideals := findIdealSolutions weightedRoutes in
  calculateDistances weightedRoutes (positiveIdeal ideals) (negativeIdeal ideals).

Section WithMath.
Variable M : MathLib.
Variable engine : list ScoredRoute -> list ScoredRoute.

Definition runTopsisAnalysis (routes : list (Route CriterionValue))
    (factorWeights : list FactorWeight) (preferences : UserPreferences)
  : Completion (list RankedRoute) :=
  bind (addDynamicCriteria M routes preferences) (fun routesWithDynamicCriteria =>
  let userWeights := calculateUserWeights preferences in
  let routesWithScores :=
    scoredRoutes routesWithDynamicCriteria factorWeights userWeights in
  Returns (rankRoutes engine routesWithScores)).

End WithMath.

End Topsis.

(* ================================================================== *)
(** ** The TOPSIS service: explanations, report and persistence *)
(* ================================================================== *)

(** The rest of [runTopsisAnalysis] (step 9 and the summary),
    [generateExplanations] and [saveTopsisResults].

    Where an object literal is indexed by a string that comes from the
    outside, a key that the literal does not own may still be a property of
    [Object.prototype]; such a property is a function (for [__proto__] the
    prototype object), which is truthy and is NaN wherever it is used as a
    number. *)

Module Report.

Import JS Geo Topsis.
Local Open Scope string_scope.
Local Open Scope float_scope.

(** [s.includes(t)] on strings. *)
Fixpoint str_includes (t s : string) : bool :=
  String.prefix t s ||
  match s with
  | EmptyString => false
  | String _ r => str_includes t r
  end.

(** [s.replace(c, d)] for one-character strings: the first occurrence only. *)
Fixpoint replace_first (c d : ascii) (s : string) : string :=
  match s with
  | EmptyString => EmptyString
  | String a r => if Ascii.eqb a c then String d r else String a (replace_first c d r)
  end.

(** The two number-to-text conversions the templates use: [`${n}`] and
    [n.toLocaleString('id-ID')]. *)
Record NumberFormat := {
  Number_toString : float -> string;
  toLocaleString_id : float -> string
}.

(** *** generateExplanations *)

Definition difficultyMap : list (string * float) :=
  [ ("Easy", 1); ("Moderate", 2); ("Hard", 3); ("Expert", 4) ].

Definition experienceMap : list (string * float) :=
  [ ("beginner", 1); ("intermediate", 2); ("advanced", 3); ("expert", 4) ].

Definition timeMap : list (string * float) :=
  [ ("half_day", 0.5); ("full_day", 1); ("2_days", 2); ("3_days", 3); ("4_plus_days", 4) ].

(** [route.criterionValues.find(cv => cv.criterion.name.includes(word))] *)
Definition findByName (word : string) (route : Route WeightedValue) : option WeightedValue :=
  find (fun cv => str_includes word (c_name (criterion (nv_base (wv_base cv)))))
       (criterionValues route).

(** [parseFloat(cv.valueDecimal.toString())] *)
Definition rawValue (cv : WeightedValue) : float := valueDecimal (nv_base (wv_base cv)).

Definition routeDifficultyOf (route : Route WeightedValue) : float :=
  number_or difficultyMap (difficulty route) 2.

Definition userExperienceOf (preferences : UserPreferences) : float :=
  number_or experienceMap (experience_level preferences) 2.

(** The upper bound [parseBudgetRange(budget_range).max] as the comparison
    reads it; for an inherited key the table yields a function, whose [max]
    is [undefined]. *)
Definition budgetMax (preferences : UserPreferences) : float :=
  if includes (budget_range preferences) objectPrototypeKeys then nan
  else snd (Cost.parseBudgetRange (budget_range preferences)).

Section WithFormat.
Variable F : NumberFormat.

(** The sentence about the experience level: the first [push]. *)
Definition experienceSentence (route : Route WeightedValue) (preferences : UserPreferences)
  : string :=
  let routeDifficulty := routeDifficultyOf route in
  let userExperience := userExperienceOf preferences in
  if abs (routeDifficulty - userExperience) <=? 1 then
    "Perfect match for your " ++ experience_level preferences ++ " experience level"
  else if userExperience <? routeDifficulty then
    "Challenging route to advance your " ++ experience_level preferences ++ " skills"
  else
    "Comfortable difficulty level for your experience".

Definition fitnessSentence (route : Route WeightedValue) (preferences : UserPreferences)
  : list string :=
  let fitnessScore := or_num (fitness_level preferences) 5 in
  let routePhysicalDemand := routeDifficultyOf route * 2.5 in
  if abs (routePhysicalDemand - fitnessScore) <=? 2 then
    [ "Good match for your fitness level (" ++ Number_toString F fitnessScore ++ "/10)" ]
  else [].

Definition scenicSentence (route : Route WeightedValue) (preferences : UserPreferences)
  : list string :=
  if includes "scenic_views" (interests preferences) then
    match findByName "Scenic" route with
    | Some scenicCriterion =>
        if 4 <=? rawValue scenicCriterion then
          [ "Excellent scenic views for photography and sightseeing" ]
        else []
    | None => []
    end
  else [].

Definition challengeSentence (route : Route WeightedValue) (preferences : UserPreferences)
  : list string :=
  if includes "physical_challenge" (interests preferences)
     && (3 <=? routeDifficultyOf route) then
    [ "Provides the physical challenge you're seeking" ]
  else [].

Definition solitudeSentence (route : Route WeightedValue) (preferences : UserPreferences)
  : list string :=
  if includes "solitude" (interests preferences) then
    match findByName "Crowding" route with
    | Some crowdingCriterion =>
        if rawValue crowdingCriterion <=? 2 then
          [ "Less crowded trail for peaceful hiking experience" ]
        else []
    | None => []
    end
  else [].

Definition timeSentence (route : Route WeightedValue) (preferences : UserPreferences)
  : list string :=
  let routeDays := or_num (Math_ceil (duration route / 24)) 1 in
  let preferredDays := number_or timeMap (time_commitment preferences) 2 in
  if abs (routeDays - preferredDays) <=? 1 then
    [ "Fits well within your "
        ++ replace_first "_" " " (time_commitment preferences) ++ " timeframe" ]
  else [].

Definition budgetSentence (route : Route WeightedValue) (preferences : UserPreferences)
  : list string :=
  match find (fun cv => String.eqb (criterionId (nv_base (wv_base cv))) "calculated_cost")
             (criterionValues route) with
  | Some costCriterion =>
      let estimatedCost := rawValue costCriterion in
      if estimatedCost <=? budgetMax preferences then
        [ "Within your budget range (estimated Rp "
            ++ toLocaleString_id F estimatedCost ++ ")" ]
      else []
  | None => []
  end.

(** The array [explanations] before the final [slice]: the sentences in the
    order in which they are pushed. *)
Definition pushedExplanations (route : Route WeightedValue) (preferences : UserPreferences)
  : list string :=
  ([ experienceSentence route preferences ]
   ++ fitnessSentence route preferences
   ++ scenicSentence route preferences
   ++ challengeSentence route preferences
   ++ solitudeSentence route preferences
   ++ timeSentence route preferences
   ++ budgetSentence route preferences)%list.

Definition generateExplanations (route : Route WeightedValue) (preferences : UserPreferences)
  : list string :=
  firstn 4 (pushedExplanations route preferences).

(** *** The route evaluations and the summary of [runTopsisAnalysis] *)

Record CriterionReport := {
  cr_criterionId : string;
  cr_criterionName : string;
  cr_factorName : string;
  cr_value : float;
  cr_weight : float;
  cr_isBenefit : bool;
  cr_normalizedValue : float;
  cr_weightedValue : float
}.

Record RouteEvaluation := {
  routeId : string;
  routeName : string;
  mountainName : string;
  re_difficulty : string;
  re_distance : float;
  re_duration : float;
  criteria : list CriterionReport;
  re_distanceToPositive : float;
  re_distanceToNegative : float;
  re_topsisScore : float;
  re_rank : nat;
  explanations : list string
}.

Definition criterionReport (cv : WeightedValue) : CriterionReport :=
  let c := criterion (nv_base (wv_base cv)) in
  {| cr_criterionId := wv_key cv;
     cr_criterionName := c_name c;
     cr_factorName := c_factor c;
     cr_value := rawValue cv;
     cr_weight := or_num (weight cv) 0;
     cr_isBenefit := isBenefit c;
     cr_normalizedValue := or_num (normalizedValue (wv_base cv)) 0;
     cr_weightedValue := or_num (weightedValue cv) 0 |}.

Definition routeEvaluation (preferences : UserPreferences) (ranked : RankedRoute)
  : RouteEvaluation :=
  let scored := rr_route ranked in
  let route := sr_route scored in
  {| routeId := route_id route;
     routeName := route_name route;
     mountainName := mountain_name (mountain route);
     re_difficulty := difficulty route;
     re_distance := distance route;
     re_duration := or_num (duration route) 0;
     criteria := map criterionReport (criterionValues route);
     re_distanceToPositive := distanceToPositive scored;
     re_distanceToNegative := distanceToNegative scored;
     re_topsisScore := topsisScore scored;
     re_rank := rank ranked;
     explanations := generateExplanations route preferences |}.

Record Summary := {
  totalRoutes : nat;
  averageScore : float;
  topRecommendation : string;
  analysisDate : string
}.

(** [routeEvaluations.reduce((sum, route) => sum + route.topsisScore, 0)
     / routeEvaluations.length] *)
Definition meanScore (routeEvaluations : list RouteEvaluation) : float :=
  fold_left (fun sum route => sum + re_topsisScore route) routeEvaluations 0
  / float_of_Z (Z.of_nat (List.length routeEvaluations)).

Definition summaryOf (routeEvaluations : list RouteEvaluation) (now : string) : Summary :=
  {| totalRoutes := List.length routeEvaluations;
     averageScore := Math_round (meanScore routeEvaluations * 1000) / 1000;
     topRecommendation :=
       match routeEvaluations with
       | first :: _ => or_str (routeName first) "No routes found"
       | [] => "No routes found"
       end;
     analysisDate := now |}.

(** The part of [TopsisResult] that is computed from the routes: the
    evaluations, the user's factor weights and the summary.  ([methodology]
    also carries fixed texts and the factor descriptions read from the
    database.) *)
Record TopsisResult := {
  routes : list RouteEvaluation;
  userPreferenceWeights : Weights;
  summary : Summary
}.

(** Step 9 and the returned object, from [rankedRoutes]. *)
Definition reportOf (rankedRoutes : list RankedRoute) (preferences : UserPreferences)
    (now : string) : TopsisResult :=
  let routeEvaluations := map (routeEvaluation preferences) rankedRoutes in
  {| routes := routeEvaluations;
     userPreferenceWeights := calculateUserWeights preferences;
     summary := summaryOf routeEvaluations now |}.

Section WithMath.
Variable M : MathLib.
Variable engine : list ScoredRoute -> list ScoredRoute.

(** [runTopsisAnalysis], from the rows read by [buildDecisionMatrix] and the
    clock reading [now] to the returned object. *)
Definition topsisResult (catalog : list (Route CriterionValue))
    (factorWeights : list FactorWeight) (preferences : UserPreferences) (now : string)
  : Completion TopsisResult :=
  bind (runTopsisAnalysis M engine catalog factorWeights preferences) (fun rankedRoutes =>
  Returns (reportOf rankedRoutes preferences now)).

End WithMath.
End WithFormat.

(** *** saveTopsisResults

    The two tables the function writes.  A row of [recommendation] stores
    the whole result as JSON and gets its id from the database ([newId]). *)

Record Recommendation := {
  rec_id : string;
  rec_intakeId : string;
  rec_userId : option string;
  topsisScoreJson : TopsisResult
}.

Record RecommendationItem := {
  item_recommendationId : string;
  item_routeId : string;
  item_rank : nat;
  item_score : float
}.

Record Db := {
  recommendation : list Recommendation;
  recommendationItem : list RecommendationItem
}.

(** [db.recommendation.create({ data })] *)
Definition createRecommendation (newId : Db -> string) (db : Db)
    (intakeId : string) (userId : option string) (json : TopsisResult)
  : Recommendation * Db :=
  let row := {| rec_id := newId db; rec_intakeId := intakeId; rec_userId := userId;
                topsisScoreJson := json |} in
  (row, {| recommendation := (recommendation db ++ [row])%list;
           recommendationItem := recommendationItem db |}).

(** [db.recommendationItem.createMany({ data })] *)
Definition createManyItems (db : Db) (data : list RecommendationItem) : Db :=
  {| recommendation := recommendation db;
     recommendationItem := (recommendationItem db ++ data)%list |}.

(** The result and the database afterwards.  The row of [recommendation] is
    written before the items are built; [new Decimal] in the callback of
    [topRoutes.map] throws on the first route, before [createMany] is
    called. *)
Definition saveTopsisResults (newId : Db -> string) (db : Db)
    (intakeId : string) (userId : option string) (topsisResult : TopsisResult)
  : Completion string * Db :=
  let '(recommendation, db1) := createRecommendation newId db intakeId userId topsisResult in
  let topRoutes := firstn 5 (routes topsisResult) in
  match Array_map (fun route =>
                     bind (new_Decimal (re_topsisScore route)) (fun score =>
                     Returns {| item_recommendationId := rec_id recommendation;
                                item_routeId := routeId route;
                                item_rank := re_rank route;
                                item_score := score |}))
                  topRoutes with
  | Returns data => (Returns (rec_id recommendation), createManyItems db1 data)
  | Throws error => (Throws error, db1)
  end.

End Report.

(* ================================================================== *)
(** ** rateLimit.ts *)
(* ================================================================== *)

(** The in-memory rate limiter that guards the recommendation endpoints.
    Clock readings ([Date.now()], milliseconds), window lengths and request
    counts are whole numbers far below 2^53, where JavaScript's arithmetic on
    them is exact; they are integers here.  The [Map] of client records is the
    list of its entries in insertion order.  [Date.now()] is an input: every
    call that reads the clock takes the reading as an argument. *)

Module RateLimit.

Import JS.
Local Open Scope string_scope.
Local Open Scope Z_scope.

Record RateLimitConfig := {
  windowMs : Z;
  maxRequests : Z;
  message : option string
}.

Record ClientRecord := {
  count : Z;
  resetTime : Z
}.

Definition Clients := list (string * ClientRecord).

(** [clients.get(k)], [clients.set(k, v)], [clients.delete(k)], [clients.size] *)
Definition Map_get (clients : Clients) (k : string) : option ClientRecord := lookup k clients.

Fixpoint Map_set (clients : Clients) (k : string) (v : ClientRecord) : Clients :=
  match clients with
  | [] => [(k, v)]
  | (k', v') :: rest =>
      if String.eqb k' k then (k', v) :: rest else (k', v') :: Map_set rest k v
  end.

Fixpoint Map_delete (clients : Clients) (k : string) : Clients :=
  match clients with
  | [] => []
  | (k', v') :: rest => if String.eqb k' k then rest else (k', v') :: Map_delete rest k
  end.

Section Limiter.
Variable config : RateLimitConfig.

(** [isRateLimited(clientId)]: the answer and the map afterwards.
    [client.count++] updates the record held by the map. *)
Definition isRateLimited (clients : Clients) (now : Z) (clientId : string)
  : bool * Clients :=
  let fresh := {| count := 1; resetTime := now + windowMs config |} in
  match Map_get clients clientId with
  | None => (false, Map_set clients clientId fresh)
  | Some client =>
      if resetTime client <? now then (false, Map_set clients clientId fresh)
      else
        let client' := {| count := count client + 1; resetTime := resetTime client |} in
        (maxRequests config <? count client', Map_set clients clientId client')
  end.

Record Status := {
  remaining : Z;
  status_resetTime : Z;
  total : Z
}.

Definition getStatus (clients : Clients) (now : Z) (clientId : string) : Status :=
  match Map_get clients clientId with
  | None =>
      {| remaining := maxRequests config - 1;
         status_resetTime := now + windowMs config;
         total := maxRequests config |}
  | Some client =>
      if resetTime client <? now then
        {| remaining := maxRequests config - 1;
           status_resetTime := now + windowMs config;
           total := maxRequests config |}
      else
        {| remaining := Z.max 0 (maxRequests config - count client);
           status_resetTime := resetTime client;
           total := maxRequests config |}
  end.

Definition getErrorMessage : string :=
  match message config with
  | Some m => or_str m "Too many requests. Please try again later."
  | None => "Too many requests. Please try again later."
  end.

(** [cleanup()]: the loop deletes every entry whose window is over. *)
Definition cleanup (clients : Clients) (now : Z) : Clients :=
  fold_left (fun m entry =>
               if resetTime (snd entry) <? now then Map_delete m (fst entry) else m)
            clients clients.

Definition getCacheSize (clients : Clients) : nat := List.length clients.

End Limiter.

(** The three limiters of the module. *)
Definition recommendationsRateLimit : RateLimitConfig :=
  {| windowMs := 15 * 60 * 1000; maxRequests := 10;
     message := Some ("Too many recommendation requests. "
                        ++ "Please wait before creating another recommendation.") |}.

Definition generalApiRateLimit : RateLimitConfig :=
  {| windowMs := 60 * 1000; maxRequests := 100;
     message := Some "Too many API requests. Please slow down." |}.

Definition authRateLimit : RateLimitConfig :=
  {| windowMs := 15 * 60 * 1000; maxRequests := 5;
     message := Some "Too many login attempts. Please try again later." |}.

(** *** getClientId

    A request is what the function reads of it: [request.headers.get].
    Header values are strings of code units below 256, among which
    [String.prototype.trim] strips the tab, the line terminators, the space
    and the no-break space. *)

Record Request := { headers_get : string -> option string }.

Definition is_white (c : ascii) : bool :=
  let n := nat_of_ascii c in
  (((9 <=? n)%nat && (n <=? 13)%nat) || (n =? 32)%nat || (n =? 160)%nat).

Fixpoint trimStart (s : string) : string :=
  match s with
  | EmptyString => EmptyString
  | String c r => if is_white c then trimStart r else s
  end.

Fixpoint trimEnd (s : string) : string :=
  match s with
  | EmptyString => EmptyString
  | String c r =>
      let r' := trimEnd r in
      if is_white c && String.eqb r' EmptyString then EmptyString else String c r'
  end.

Definition trim (s : string) : string := trimEnd (trimStart s).

(** A header value that is present and not empty. *)
Definition present (h : option string) : option string :=
  match h with
  | Some s => if String.eqb s EmptyString then None else Some s
  | None => None
  end.

Definition getClientId (request : Request) : string :=
  let forwardedFor := headers_get request "x-forwarded-for" in
  let realIp := headers_get request "x-real-ip" in
  let remoteAddr := headers_get request "x-remote-addr" in
  match present forwardedFor with
  | Some f => trim (split_comma_first f)
  | None =>
      match present realIp with
      | Some r => trim r
      | None =>
          match present remoteAddr with
          | Some a => trim a
          | None => "unknown"
          end
      end
  end.

(** *** createRateLimitMiddleware *)

(** [n.toString()] for a whole number. *)
Definition toString (n : Z) : string := NilZero.string_of_int (Z.to_int n).

(** [Math.ceil(x / 1000)] for a whole number [x]. *)
Definition ceilSeconds (x : Z) : Z := - ((- x) / 1000).

(** The [Response] of a refused request: its status, the two fields of its
    JSON body and its headers. *)
Record Response := {
  status : Z;
  error : string;
  retryAfter : Z;
  headers : list (string * string)
}.

Inductive MiddlewareResult :=
| Refused (response : Response)
| Passed (headers : list (string * string)).

(** The middleware reads the clock in [isRateLimited] ([now1]), in
    [getStatus] ([now2]) and, when it refuses, once more for the retry delay
    ([now3]). *)
Definition rateLimitMiddleware (rateLimiter : RateLimitConfig) (clients : Clients)
    (now1 now2 now3 : Z) (request : Request) : MiddlewareResult * Clients :=
  let clientId := getClientId request in
  let '(limited, clients') := isRateLimited rateLimiter clients now1 clientId in
  let st := getStatus rateLimiter clients' now2 clientId in
  if limited then
    let resetTimeSeconds := ceilSeconds (status_resetTime st - now3) in
    (Refused {| status := 429;
                error := getErrorMessage rateLimiter;
                retryAfter := resetTimeSeconds;
                headers :=
                  [ ("Content-Type", "application/json");
                    ("X-RateLimit-Limit", toString (total st));
                    ("X-RateLimit-Remaining", toString (remaining st));
                    ("X-RateLimit-Reset", toString (status_resetTime st));
                    ("Retry-After", toString resetTimeSeconds) ] |},
     clients')
  else
    (Passed [ ("X-RateLimit-Limit", toString (total st));
              ("X-RateLimit-Remaining", toString (remaining st));
              ("X-RateLimit-Reset", toString (status_resetTime st)) ],
     clients').

End RateLimit.

(* ================================================================== *)
(** ** gear.service.ts *)
(* ================================================================== *)

(** The gear advisor: fixed rule tables keyed by trip length, technical
    grade, weather, season and experience.  [toString] stands for the
    conversion of a number to text in the one template of the module. *)

Module Gear.

Local Open Scope string_scope.
Local Open Scope float_scope.

Inductive Category := clothing | footwear | equipment | safety | navigation | food_water.
Inductive Priority := essential | recommended | optional.

Record GearItem := {
  id : string;
  name : string;
  category : Category;
  priority : Priority;
  description : string;
  quantity : option string;
  alternatives : option (list string)
}.

Record GearRecommendationInput := {
  days : float;
  technicality : string;
  weather : string;
  season : string;
  groupSize : float;
  hasExperience : bool
}.

(** An item without [quantity] and [alternatives]. *)
Definition item (id name : string) (category : Category) (priority : Priority)
    (description : string) : GearItem :=
  {| id := id; name := name; category := category; priority := priority;
     description := description; quantity := None; alternatives := None |}.

Definition BASE_ESSENTIAL_GEAR : list GearItem :=
  [ {| id := "hiking_boots"; name := "Hiking Boots"; category := footwear;
       priority := essential;
       description := "Sturdy, ankle-supporting boots with good grip";
       quantity := None;
       alternatives := Some ["Trail running shoes (for easy trails)"] |};
    item "daypack" "Daypack/Backpack" equipment essential
         "Comfortable pack with proper capacity";
    {| id := "water_bottles"; name := "Water Bottles/Hydration System";
       category := food_water; priority := essential;
       description := "At least 2L capacity per person";
       quantity := Some "2-3 bottles"; alternatives := None |};
    item "first_aid" "First Aid Kit" safety essential
         "Basic medical supplies for emergencies";
    {| id := "headlamp"; name := "Headlamp"; category := equipment; priority := essential;
       description := "LED headlamp with extra batteries";
       quantity := None; alternatives := Some ["Flashlight (backup)"] |};
    item "sun_protection" "Sun Protection" safety essential
         "Sunscreen, hat, and sunglasses" ].

Section WithFormat.
Variable toString : float -> string.

Definition getDurationBasedGear (days : float) : list GearItem :=
  ((if 2 <=? days then
      [ item "tent" "Tent" equipment essential "Lightweight, weather-appropriate tent";
        item "sleeping_bag" "Sleeping Bag" equipment essential
             "Temperature-rated sleeping bag";
        item "sleeping_pad" "Sleeping Pad" equipment recommended
             "Insulating sleeping pad for comfort";
        item "cooking_gear" "Cooking Equipment" food_water essential
             "Portable stove, fuel, and cookware";
        {| id := "extra_clothing"; name := "Extra Clothing"; category := clothing;
           priority := essential; description := "Complete change of clothes";
           quantity := Some (toString (days - 1) ++ " days worth")%string;
           alternatives := None |} ]
    else [])
   ++
   (if 3 <=? days then
      [ item "water_filter" "Water Filter/Purification" food_water essential
             "Water filter or purification tablets";
        item "camp_shoes" "Camp Shoes" footwear recommended
             "Lightweight shoes for camp comfort" ]
    else []))%list.

Definition getTechnicalGear (technicality : string) : list GearItem :=
  ((if (technicality =? "moderate")%string || (technicality =? "hard")%string
       || (technicality =? "expert")%string then
      [ item "trekking_poles" "Trekking Poles" equipment recommended
             "Adjustable trekking poles for stability";
        item "gps_device" "GPS Device/App" navigation recommended
             "GPS device or smartphone with offline maps" ]
    else [])
   ++
   (if (technicality =? "hard")%string || (technicality =? "expert")%string then
      [ item "helmet" "Climbing Helmet" safety essential
             "Lightweight climbing helmet for rockfall protection";
        item "rope" "Climbing Rope" safety essential
             "Dynamic climbing rope for technical sections";
        item "harness" "Climbing Harness" safety essential
             "Comfortable climbing harness" ]
    else [])
   ++
   (if (technicality =? "expert")%string then
      [ item "technical_gear" "Technical Climbing Gear" safety essential
             "Carabiners, belay devices, anchors as needed" ]
    else []))%list.

Definition getWeatherGear (weather season : string) : list GearItem :=
  ((if (weather =? "wet")%string || (season =? "wet")%string then
      [ item "rain_jacket" "Rain Jacket" clothing essential
             "Waterproof, breathable rain jacket";
        item "rain_pants" "Rain Pants" clothing recommended "Waterproof rain pants";
        item "pack_cover" "Pack Rain Cover" equipment essential
             "Waterproof cover for backpack" ]
    else [])
   ++
   (if (weather =? "cold")%string then
      [ item "insulation_layer" "Insulation Layer" clothing essential
             "Fleece or down jacket for warmth";
        item "warm_hat" "Warm Hat" clothing essential "Insulating hat that covers ears";
        item "gloves" "Gloves" clothing essential "Insulating gloves for cold conditions" ]
    else [])
   ++
   (if (weather =? "variable")%string then
      [ item "layering_system" "Layering System" clothing essential
             "Base layer, insulating layer, and shell layer" ]
    else []))%list.

Definition getBeginnerGear (hasExperience : bool) : list GearItem :=
  if hasExperience then []
  else
    [ item "emergency_whistle" "Emergency Whistle" safety recommended
           "Loud whistle for emergency signaling";
      item "emergency_blanket" "Emergency Blanket" safety recommended
           "Lightweight emergency blanket";
      item "duct_tape" "Duct Tape" equipment optional "Small roll for emergency repairs" ].

(** [self.findIndex(f)]; [None] stands for -1. *)
Fixpoint findIndex {A : Type} (f : A -> bool) (self : list A) : option nat :=
  match self with
  | [] => None
  | x :: rest =>
      if f x then Some O
      else match findIndex f rest with
           | Some i => Some (S i)
           | None => None
           end
  end.

(** [allGear.filter((item, index, self) =>
      index === self.findIndex(i => i.id === item.id))] *)
Definition uniqueById (allGear : list GearItem) : list GearItem :=
  map snd
      (filter (fun entry =>
                 match findIndex (fun i => (id i =? id (snd entry))%string) allGear with
                 | Some index => Nat.eqb (fst entry) index
                 | None => false
                 end)
              (combine (seq 0 (List.length allGear)) allGear)).

Definition hasPriority (p : Priority) (item : GearItem) : bool :=
  match priority item, p with
  | essential, essential | recommended, recommended | optional, optional => true
  | _, _ => false
  end.

Record Recommendation := {
  essentialGear : list GearItem;
  recommendedGear : list GearItem;
  optionalGear : list GearItem;
  totalItems : nat
}.

Definition allGearOf (input : GearRecommendationInput) : list GearItem :=
  (BASE_ESSENTIAL_GEAR
     ++ getDurationBasedGear (days input)
     ++ getTechnicalGear (technicality input)
     ++ getWeatherGear (weather input) (season input)
     ++ getBeginnerGear (hasExperience input))%list.

Definition recommendGear (input : GearRecommendationInput) : Recommendation :=
  let allGear := allGearOf input in
  let uniqueGear := uniqueById allGear in
  {| essentialGear := filter (hasPriority essential) uniqueGear;
     recommendedGear := filter (hasPriority recommended) uniqueGear;
     optionalGear := filter (hasPriority optional) uniqueGear;
     totalItems := List.length uniqueGear |}.

End WithFormat.

(** *** getGearSummary

    The summary object has one property per category that occurs; it is the
    list of its properties in insertion order.  Counts are at most the length
    of an array and are kept as integers. *)

Definition sameCategory (c d : Category) : bool :=
  match c, d with
  | clothing, clothing | footwear, footwear | equipment, equipment
  | safety, safety | navigation, navigation | food_water, food_water => true
  | _, _ => false
  end.

Fixpoint summary_get (summary : list (Category * Z)) (c : Category) : option Z :=
  match summary with
  | [] => None
  | (c', n) :: rest => if sameCategory c' c then Some n else summary_get rest c
  end.

Fixpoint summary_set (summary : list (Category * Z)) (c : Category) (n : Z)
  : list (Category * Z) :=
  match summary with
  | [] => [(c, n)]
  | (c', n') :: rest =>
      if sameCategory c' c then (c', n) :: rest else (c', n') :: summary_set rest c n
  end.

(** [summary[c] || 0] *)
Definition countOr0 (summary : list (Category * Z)) (c : Category) : Z :=
  match summary_get summary c with
  | Some n => if (n =? 0)%Z then 0%Z else n
  | None => 0%Z
  end.

Definition getGearSummary (gear : list GearItem) : list (Category * Z) :=
  fold_left (fun summary item =>
               summary_set summary (category item)
                           (countOr0 summary (category item) + 1)%Z)
            gear [].

End Gear.

(* ================================================================== *)
(** ** validation.ts: the size check of safeJson *)
(* ================================================================== *)

(** The predicate that [safeJson(maxKeys, maxDepth)] hands to [refine], on
    the values that a parsed JSON body can hold. *)

Module Validation.

Local Open Scope string_scope.
Local Open Scope Z_scope.

Set Warnings "-register-all".
Inductive Json :=
| JNull
| JBoolean (b : bool)
| JNumber (x : float)
| JString (s : string)
| JArray (items : list Json)
| JObject (properties : list (string * Json)).

Section SafeJson.
Variables maxKeys maxDepth : Z.

(** [checkDepth(obj, depth)]; [Object.values] of an array are its items. *)
Fixpoint checkDepth (obj : Json) (depth : Z) {struct obj} : bool :=
  if maxDepth <? depth then false
  else
    match obj with
    | JArray items => forallb (fun value => checkDepth value (depth + 1)) items
    | JObject properties =>
        forallb (fun property => checkDepth (snd property) (depth + 1)) properties
    | _ => true
    end.

Definition safeJson (val : Json) : bool :=
  match val with
  | JObject properties =>
      let keyCount := Z.of_nat (List.length properties) in
      if maxKeys <? keyCount then false else checkDepth val 0
  | _ => false
  end.

End SafeJson.

End Validation.

(* ================================================================== *)
(** * Properties *)
(* ================================================================== *)

Import JS Geo Topsis.
Local Open Scope string_scope.
Local Open Scope float_scope.

(** ** Facts about binary64 arithmetic *)

Lemma is_zero_inv (x : float) : is_zero x = true -> x = 0 \/ x = (-0).
Proof.
  unfold is_zero. rewrite FloatAxioms.eqb_spec. intros H.
  assert (E : exists s, Prim2SF x = S754_zero s).
  { change (Prim2SF 0) with (S754_zero false) in H.
    destruct (Prim2SF x) as [s|s| |s m e]; try discriminate; try (destruct s; discriminate).
    now exists s. }
  destruct E as [s E]. apply (f_equal SF2Prim) in E. rewrite SF2Prim_Prim2SF in E.
  destruct s; [right|left]; exact E.
Qed.

(** Adding [+0] changes nothing, except that [-0 + 0] is [+0]. *)
Lemma add_zero_r (x : float) : x + 0 = x \/ x = (-0).
Proof.
  destruct (Prim2SF x) as [s|s| |s m e] eqn:E.
  - destruct s.
    + right. apply Prim2SF_inj. rewrite E. reflexivity.
    + left. apply Prim2SF_inj. rewrite add_spec, E. reflexivity.
  - left. apply Prim2SF_inj. rewrite add_spec, E. reflexivity.
  - left. apply Prim2SF_inj. rewrite add_spec, E. reflexivity.
  - left. apply Prim2SF_inj. rewrite add_spec, E. reflexivity.
Qed.

(** *** Rounding does not overflow for small products *)

Definition finite_class (x : spec_float) : bool :=
  match x with
  | S754_zero _ | S754_finite _ _ _ => true
  | _ => false
  end.

Lemma Zdigits2_log2 (p : positive) : Zdigits2 (Zpos p) = (Z.log2 (Zpos p) + 1)%Z.
Proof.
  assert (H : forall q, digits2_pos q = Pos.size q).
  { induction q as [q IH|q IH|]; simpl; now rewrite ?IH. }
  unfold Zdigits2. rewrite H. destruct p; simpl; lia.
Qed.

Lemma Zdigits2_nonneg (m : Z) : (0 <= Zdigits2 m)%Z.
Proof. destruct m; simpl; lia. Qed.

Lemma Zdigits2_le (a b : Z) : (0 <= a <= b)%Z -> (Zdigits2 a <= Zdigits2 b)%Z.
Proof.
  intros [Ha Hab]. destruct a as [|a|a]; [apply Zdigits2_nonneg| |lia].
  destruct b as [|b|b]; try lia.
  rewrite !Zdigits2_log2. apply Z.add_le_mono_r. now apply Z.log2_le_mono.
Qed.

Lemma Zdigits2_succ (a : Z) : (0 <= a)%Z -> (Zdigits2 (a + 1) <= Zdigits2 a + 1)%Z.
Proof.
  intros Ha. destruct a as [|a|a]; [simpl; lia| |lia].
  change (Zpos a + 1)%Z with (Zpos (a + 1)). rewrite !Zdigits2_log2.
  pose proof (Z.log2_succ_le (Zpos a)). change (Z.succ (Zpos a)) with (Zpos (a + 1)) in H.
  lia.
Qed.

Lemma Zdigits2_mul (a b : positive) :
  (Zdigits2 (Zpos (a * b)) <= Zdigits2 (Zpos a) + Zdigits2 (Zpos b))%Z.
Proof.
  rewrite !Zdigits2_log2. change (Zpos (a * b)) with (Zpos a * Zpos b)%Z.
  pose proof (Z.log2_mul_above (Zpos a) (Zpos b)). lia.
Qed.

(** The shifts of the rounding procedure keep a mantissa between 0 and its
    former value. *)
Lemma shr_1_range (r : shr_record) :
  (0 <= shr_m r)%Z -> (0 <= shr_m (shr_1 r) <= shr_m r)%Z.
Proof.
  destruct r as [m r s]. simpl. intros Hm.
  destruct m as [|[p|p|]|p]; simpl; lia.
Qed.

Lemma iter_shr_1_range (n : positive) (r : shr_record) :
  (0 <= shr_m r)%Z -> (0 <= shr_m (SpecFloat.iter_pos shr_1 n r) <= shr_m r)%Z.
Proof.
  revert r. induction n as [n IH|n IH|]; intros r Hr; simpl.
  - pose proof (shr_1_range r Hr) as H1.
    pose proof (IH (shr_1 r) (proj1 H1)) as H2.
    pose proof (IH _ (proj1 H2)) as H3. lia.
  - pose proof (IH r Hr) as H2.
    pose proof (IH _ (proj1 H2)) as H3. lia.
  - now apply shr_1_range.
Qed.

Lemma shr_fexp_range (m e : Z) (l : SpecFloat.location) :
  (0 <= m)%Z ->
  let '(mrs, e') := shr_fexp prec emax m e l in
  (0 <= shr_m mrs <= m)%Z /\ (e' <= Z.max e (fexp prec emax (Zdigits2 m + e)))%Z.
Proof.
  intros Hm. unfold shr_fexp, shr.
  assert (H0 : shr_m (shr_record_of_loc m l) = m) by (destruct l as [|[]]; reflexivity).
  destruct (fexp prec emax (Zdigits2 m + e) - e)%Z as [|n|n] eqn:E.
  - rewrite H0. lia.
  - pose proof (iter_shr_1_range n (shr_record_of_loc m l)) as H. rewrite H0 in H.
    specialize (H Hm). lia.
  - rewrite H0. lia.
Qed.

Lemma round_nearest_even_range (m : Z) (l : SpecFloat.location) :
  (m <= round_nearest_even m l <= m + 1)%Z.
Proof. destruct l as [|[]]; simpl; try lia. destruct (Z.even m); lia. Qed.

(** If the mantissa and exponent are far from the overflow threshold, rounding
    yields a zero or a finite number. *)
Lemma binary_round_aux_finite (s : bool) (m : positive) (e : Z) (l : SpecFloat.location) :
  (e <= 0)%Z -> (Zdigits2 (Zpos m) <= 200)%Z ->
  finite_class (binary_round_aux prec emax s (Zpos m) e l) = true.
Proof.
  intros He Hd. unfold binary_round_aux.
  pose proof (shr_fexp_range (Zpos m) e l ltac:(lia)) as H1.
  destruct (shr_fexp prec emax (Zpos m) e l) as [mrs' e'].
  destruct H1 as [Hm' He'].
  pose proof (round_nearest_even_range (shr_m mrs') (loc_of_shr_record mrs')) as Hr.
  set (m1 := round_nearest_even (shr_m mrs') (loc_of_shr_record mrs')) in *.
  pose proof (shr_fexp_range m1 e' loc_Exact ltac:(lia)) as H2.
  destruct (shr_fexp prec emax m1 e' loc_Exact) as [mrs'' e''].
  destruct H2 as [Hm'' He''].
  assert (Hd1 : (Zdigits2 m1 <= Zdigits2 (Zpos m) + 1)%Z).
  { transitivity (Zdigits2 (Zpos m + 1)).
    - apply Zdigits2_le. lia.
    - apply Zdigits2_succ. lia. }
  unfold fexp, SpecFloat.emin, prec, emax in *.
  destruct (shr_m mrs'') as [|p|p] eqn:Em; [reflexivity| |exfalso; clear - Hm''; lia].
  replace (e'' <=? 1024 - 53)%Z with true; [reflexivity|].
  symmetry. apply Z.leb_le.
  change IntDef.Z.max with Z.max in *. lia.
Qed.

(** What [|x| <= 1] says about the representation of [x]. *)
Lemma abs_le_1_inv (x : float) :
  (abs x <=? 1) = true ->
  match Prim2SF x with
  | S754_zero _ => True
  | S754_finite _ m e => (e <= -52)%Z /\ (Zdigits2 (Zpos m) <= 53)%Z
  | _ => False
  end.
Proof.
  rewrite leb_spec, abs_spec. pose proof (Prim2SF_valid x) as V.
  change (Prim2SF 1) with (S754_finite false 4503599627370496 (-52)).
  destruct (Prim2SF x) as [s|s| |s m e]; try exact (fun _ => I); try discriminate.
  unfold SFleb, SFabs, SFcompare. intros H. split.
  - destruct (e ?= -52)%Z eqn:E; try discriminate.
    + apply Z.compare_eq in E. lia.
    + rewrite Z.compare_lt_iff in E. lia.
  - simpl in V. apply andb_prop in V. destruct V as [V _].
    unfold canonical_mantissa in V. apply Z.eqb_eq in V.
    unfold fexp, SpecFloat.emin, prec, emax in V. change IntDef.Z.max with Z.max in V.
    unfold Zdigits2. lia.
Qed.

(** The product of two numbers of absolute value at most 1 is a zero or a
    finite number: it is neither NaN nor infinite. *)
Lemma mul_unit_finite (x y : float) :
  (abs x <=? 1) = true -> (abs y <=? 1) = true ->
  finite_class (Prim2SF (x * y)) = true.
Proof.
  intros Hx Hy. apply abs_le_1_inv in Hx. apply abs_le_1_inv in Hy.
  rewrite mul_spec. unfold SF64mul.
  destruct (Prim2SF x) as [sx|sx| |sx mx ex]; try contradiction;
    destruct (Prim2SF y) as [sy|sy| |sy my ey]; try contradiction; try reflexivity.
  unfold SFmul. apply binary_round_aux_finite; [lia|].
  pose proof (Zdigits2_mul mx my). lia.
Qed.

(** Multiplying a zero or finite number by [+0] gives a zero. *)
Lemma mul_zero_r (x : float) :
  finite_class (Prim2SF x) = true -> x * 0 = 0 \/ x * 0 = (-0).
Proof.
  intros H.
  assert (E : exists s, Prim2SF (x * 0) = S754_zero s).
  { rewrite mul_spec. change (Prim2SF 0) with (S754_zero false).
    destruct (Prim2SF x) as [s|s| |s m e]; try discriminate; simpl; eauto. }
  destruct E as [s E]. apply (f_equal SF2Prim) in E. rewrite SF2Prim_Prim2SF in E.
  destruct s; [right|left]; exact E.
Qed.

(** *** Rounding a non-zero number does not give zero *)

Lemma shr_1_div2 (r : shr_record) :
  (0 <= shr_m r)%Z -> shr_m (shr_1 r) = Z.div2 (shr_m r).
Proof.
  destruct r as [m r s]. simpl. intros Hm.
  destruct m as [|[p|p|]|p]; try reflexivity; lia.
Qed.

Lemma iter_shr_1_div (n : positive) (r : shr_record) :
  (0 <= shr_m r)%Z -> shr_m (SpecFloat.iter_pos shr_1 n r) = (shr_m r / 2 ^ Zpos n)%Z.
Proof.
  revert r. induction n as [n IH|n IH|]; intros r Hr; simpl SpecFloat.iter_pos.
  - pose proof (shr_1_range r Hr) as H1.
    pose proof (iter_shr_1_range n (shr_1 r) (proj1 H1)) as H2.
    rewrite IH by lia. rewrite IH by lia. rewrite shr_1_div2 by lia.
    rewrite Z.div2_div, !Z.div_div by lia.
    f_equal. replace (Zpos n~1) with (1 + Zpos n + Zpos n)%Z by lia.
    rewrite !Z.pow_add_r by lia. ring.
  - pose proof (iter_shr_1_range n r Hr) as H2.
    rewrite IH by lia. rewrite IH by lia.
    rewrite Z.div_div by lia. f_equal.
    replace (Zpos n~0) with (Zpos n + Zpos n)%Z by lia.
    rewrite Z.pow_add_r by lia. ring.
  - rewrite shr_1_div2 by lia. now rewrite Z.div2_div.
Qed.

(** A mantissa has at least [2 ^ (digits - 1)]. *)
Lemma Zdigits2_lower (p : positive) : (2 ^ (Zdigits2 (Zpos p) - 1) <= Zpos p)%Z.
Proof.
  rewrite Zdigits2_log2. replace (Z.log2 (Zpos p) + 1 - 1)%Z with (Z.log2 (Zpos p)) by lia.
  apply Z.log2_spec. lia.
Qed.

Lemma shr_fexp_pos (m : positive) (e : Z) (l : SpecFloat.location) :
  (emin <= e)%Z ->
  let '(mrs, e') := shr_fexp prec emax (Zpos m) e l in
  (0 < shr_m mrs)%Z /\ (emin <= e')%Z.
Proof.
  intros He. unfold shr_fexp, shr.
  assert (H0 : shr_m (shr_record_of_loc (Zpos m) l) = Zpos m)
    by (destruct l as [|[]]; reflexivity).
  destruct (fexp prec emax (Zdigits2 (Zpos m) + e) - e)%Z as [|n|n] eqn:E.
  - rewrite H0. lia.
  - rewrite iter_shr_1_div by (rewrite H0; lia). rewrite H0.
    pose proof (Zdigits2_lower m) as Hl.
    assert (Hd : (1 <= Zdigits2 (Zpos m))%Z) by (simpl; lia).
    unfold fexp, SpecFloat.emin, prec, emax in *. change IntDef.Z.max with Z.max in *.
    split; [|lia].
    apply Z.div_str_pos. split; [apply Z.pow_pos_nonneg; lia|].
    apply Z.le_trans with (2 := Hl). apply Z.pow_le_mono_r; lia.
  - rewrite H0. lia.
Qed.

Definition nonzero_class (x : spec_float) : bool :=
  match x with
  | S754_finite _ _ _ | S754_infinity _ => true
  | _ => false
  end.

Definition sign_of (x : spec_float) : bool :=
  match x with
  | S754_finite s _ _ | S754_infinity s | S754_zero s => s
  | S754_nan => false
  end.

Lemma binary_round_aux_nonzero (s : bool) (m : positive) (e : Z) (l : SpecFloat.location) :
  (emin <= e)%Z ->
  nonzero_class (binary_round_aux prec emax s (Zpos m) e l) = true /\
  sign_of (binary_round_aux prec emax s (Zpos m) e l) = s.
Proof.
  intros He. unfold binary_round_aux.
  pose proof (shr_fexp_pos m e l He) as H1.
  destruct (shr_fexp prec emax (Zpos m) e l) as [mrs' e'].
  destruct H1 as [Hm' He'].
  pose proof (round_nearest_even_range (shr_m mrs') (loc_of_shr_record mrs')) as Hr.
  destruct (round_nearest_even (shr_m mrs') (loc_of_shr_record mrs')) as [|m1|m1] eqn:Em1;
    try lia.
  pose proof (shr_fexp_pos m1 e' loc_Exact He') as H2.
  destruct (shr_fexp prec emax (Zpos m1) e' loc_Exact) as [mrs'' e''].
  destruct H2 as [Hm'' He''].
  destruct (shr_m mrs'') as [|p|p]; try lia.
  destruct (e'' <=? emax - prec)%Z; split; reflexivity.
Qed.

Lemma shl_align_emin (m : positive) (e e2 : Z) :
  (emin <= e)%Z -> (emin <= e2)%Z -> (emin <= snd (shl_align m e e2))%Z.
Proof.
  intros He He2. unfold shl_align. destruct (e2 - e)%Z; simpl; lia.
Qed.

Lemma binary_round_nonzero (s : bool) (m : positive) (e : Z) :
  (emin <= e)%Z ->
  nonzero_class (binary_round prec emax s m e) = true /\
  sign_of (binary_round prec emax s m e) = s.
Proof.
  intros He. unfold binary_round.
  pose proof (shl_align_emin m e (fexp prec emax (Zpos (digits2_pos m) + e)) He) as H.
  destruct (shl_align m e (fexp prec emax (Zpos (digits2_pos m) + e))) as [mz ez].
  apply binary_round_aux_nonzero. apply H.
  unfold fexp, SpecFloat.emin, prec, emax. change IntDef.Z.max with Z.max. lia.
Qed.

(** A valid finite number has an exponent of at least [emin]. *)
Lemma valid_exponent (x : float) (s : bool) (m : positive) (e : Z) :
  Prim2SF x = S754_finite s m e -> (emin <= e)%Z.
Proof.
  intros E. pose proof (Prim2SF_valid x) as V. rewrite E in V. simpl in V.
  apply andb_prop in V. destruct V as [V _]. unfold canonical_mantissa in V.
  apply Z.eqb_eq in V. unfold fexp, SpecFloat.emin, prec, emax in *.
  change IntDef.Z.max with Z.max in V. lia.
Qed.

(** A sum is [-0] only if both terms are [-0]. *)
Lemma add_neg_zero (x y : float) : x + y = (-0) -> x = (-0) /\ y = (-0).
Proof.
  intros H. apply (f_equal Prim2SF) in H. rewrite add_spec in H.
  change (Prim2SF (-0)) with (S754_zero true) in H.
  assert (E : Prim2SF x = S754_zero true /\ Prim2SF y = S754_zero true).
  { destruct (Prim2SF x) as [sx|sx| |sx mx ex] eqn:Ex;
      destruct (Prim2SF y) as [sy|sy| |sy my ey] eqn:Ey;
      try discriminate; try (destruct sx, sy; discriminate).
    - destruct sx, sy; try discriminate. now split.
    - exfalso. unfold SF64add, SFadd in H.
      pose proof (valid_exponent x _ _ _ Ex) as Hx.
      pose proof (valid_exponent y _ _ _ Ey) as Hy.
      assert (Hz : (emin <= Z.min ex ey)%Z) by lia.
      unfold binary_normalize in H.
      destruct (_ + _)%Z as [|p|p]; [discriminate| |].
      + destruct (binary_round_nonzero false p _ Hz) as [Hn _].
        rewrite H in Hn. discriminate.
      + destruct (binary_round_nonzero true p _ Hz) as [Hn _].
        rewrite H in Hn. discriminate. }
  destruct E as [E1 E2]. split; apply Prim2SF_inj; assumption.
Qed.

(** *** The sign of a difference is the order of its terms *)

Lemma iter_xO_pow (m d : positive) : Zpos (Pos.iter xO m d) = (Zpos m * 2 ^ Zpos d)%Z.
Proof.
  induction d as [|d IH] using Pos.peano_ind.
  - simpl. lia.
  - rewrite Pos.iter_succ, Pos2Z.inj_xO, IH, Pos2Z.inj_succ, Z.pow_succ_r by lia. ring.
Qed.

Lemma shl_align_value (m : positive) (e ez : Z) :
  (ez <= e)%Z -> Zpos (fst (shl_align m e ez)) = (Zpos m * 2 ^ (e - ez))%Z.
Proof.
  intros H. unfold shl_align. destruct (ez - e)%Z as [|d|d] eqn:E; simpl fst.
  - replace (e - ez)%Z with 0%Z by lia. simpl. lia.
  - lia.
  - rewrite iter_xO_pow. f_equal. f_equal. lia.
Qed.

(** Mantissas of valid numbers: a larger exponent means a larger number. *)
Lemma canonical_digits (x : float) (s : bool) (m : positive) (e : Z) :
  Prim2SF x = S754_finite s m e ->
  (Zdigits2 (Zpos m) <= 53)%Z /\ ((emin < e)%Z -> Zdigits2 (Zpos m) = 53%Z).
Proof.
  intros E. pose proof (Prim2SF_valid x) as V. rewrite E in V. simpl in V.
  apply andb_prop in V. destruct V as [V _]. unfold canonical_mantissa in V.
  apply Z.eqb_eq in V. unfold fexp, SpecFloat.emin, prec, emax in *.
  change IntDef.Z.max with Z.max in V. unfold Zdigits2. lia.
Qed.

Lemma Zdigits2_upper (p : positive) : (Zpos p < 2 ^ Zdigits2 (Zpos p))%Z.
Proof. rewrite Zdigits2_log2. apply Z.log2_spec. lia. Qed.

(** For two valid positive numbers, the comparison of (exponent, mantissa)
    is the comparison of the mantissas aligned on the smaller exponent. *)
Lemma aligned_compare (x y : float) (sx sy : bool) (mx my : positive) (ex ey : Z) :
  Prim2SF x = S754_finite sx mx ex -> Prim2SF y = S754_finite sy my ey ->
  let ez := Z.min ex ey in
  match (ex ?= ey)%Z with
  | Lt => Lt
  | Gt => Gt
  | Eq => Pos.compare_cont Eq mx my
  end = (Zpos (fst (shl_align mx ex ez)) ?= Zpos (fst (shl_align my ey ez)))%Z.
Proof.
  intros Ex Ey ez.
  pose proof (canonical_digits x _ _ _ Ex) as [Dx Dx'].
  pose proof (canonical_digits y _ _ _ Ey) as [Dy Dy'].
  pose proof (valid_exponent x _ _ _ Ex) as Vx.
  pose proof (valid_exponent y _ _ _ Ey) as Vy.
  pose proof (Zdigits2_upper mx) as Ux. pose proof (Zdigits2_lower mx) as Lx.
  pose proof (Zdigits2_upper my) as Uy. pose proof (Zdigits2_lower my) as Ly.
  rewrite !shl_align_value by (unfold ez; lia).
  symmetry. destruct (Z.compare_spec ex ey) as [E | E | E].
  - subst ey. unfold ez. rewrite Z.min_id, Z.sub_diag. simpl (2 ^ 0)%Z.
    rewrite !Z.mul_1_r. reflexivity.
  - apply Z.compare_lt_iff. unfold ez. rewrite Z.min_l by lia.
    rewrite Z.sub_diag. simpl (2 ^ 0)%Z. rewrite Z.mul_1_r.
    rewrite Dy' in Ly by lia.
    assert (Zpos mx < 2 ^ 53)%Z.
    { apply Z.lt_le_trans with (1 := Ux). apply Z.pow_le_mono_r; lia. }
    assert (2 ^ 1 <= 2 ^ (ey - ex))%Z by (apply Z.pow_le_mono_r; lia).
    change (2 ^ (53 - 1))%Z with 4503599627370496%Z in Ly.
    change (2 ^ 53)%Z with 9007199254740992%Z in *. change (2 ^ 1)%Z with 2%Z in *.
    nia.
  - apply Z.compare_gt_iff. unfold ez. rewrite Z.min_r by lia.
    rewrite Z.sub_diag. simpl (2 ^ 0)%Z. rewrite Z.mul_1_r.
    rewrite Dx' in Lx by lia.
    assert (Zpos my < 2 ^ 53)%Z.
    { apply Z.lt_le_trans with (1 := Uy). apply Z.pow_le_mono_r; lia. }
    assert (2 ^ 1 <= 2 ^ (ex - ey))%Z by (apply Z.pow_le_mono_r; lia).
    change (2 ^ (53 - 1))%Z with 4503599627370496%Z in Lx.
    change (2 ^ 53)%Z with 9007199254740992%Z in *. change (2 ^ 1)%Z with 2%Z in *.
    nia.
Qed.

(** Whether a rounded integer is positive. *)
Lemma binary_normalize_positive (d e : Z) :
  (emin <= e)%Z ->
  SFltb (S754_zero false) (binary_normalize prec emax d e false) = (0 <? d)%Z.
Proof.
  intros He. unfold binary_normalize. destruct d as [|p|p]; [reflexivity| |].
  - destruct (binary_round_nonzero false p e He) as [Hn Hs].
    destruct (binary_round prec emax false p e) as [s|s| |s m' e']; try discriminate;
      simpl in Hs; subst s; reflexivity.
  - destruct (binary_round_nonzero true p e He) as [Hn Hs].
    destruct (binary_round prec emax true p e) as [s|s| |s m' e']; try discriminate;
      simpl in Hs; subst s; reflexivity.
Qed.

(** [b - a] is positive exactly when [a < b]. *)
Theorem sub_positive_iff_lt (a b : float) : (0 <? b - a) = (a <? b).
Proof.
  rewrite !ltb_spec, sub_spec. change (Prim2SF 0) with (S754_zero false).
  destruct (Prim2SF b) as [sb|sb| |sb mb eb] eqn:Eb;
    destruct (Prim2SF a) as [sa|sa| |sa ma ea] eqn:Ea;
    try reflexivity; try (destruct sb, sa; reflexivity); try (destruct sb; reflexivity);
    try (destruct sa; reflexivity).
  unfold SF64sub, SFsub. 
  pose proof (valid_exponent a _ _ _ Ea) as Va.
  pose proof (valid_exponent b _ _ _ Eb) as Vb.
  rewrite binary_normalize_positive by lia.
  pose proof (aligned_compare a b _ _ _ _ _ _ Ea Eb) as C. cbv zeta in C.
  rewrite (Z.min_comm eb ea).
  set (Ma := Zpos (fst (shl_align ma ea (Z.min ea eb)))) in *.
  set (Mb := Zpos (fst (shl_align mb eb (Z.min ea eb)))) in *.
  assert (HMa : (0 < Ma)%Z) by (unfold Ma; lia).
  assert (HMb : (0 < Mb)%Z) by (unfold Mb; lia).
  unfold SFltb, SFcompare, cond_Zopp.
  destruct (ea ?= eb)%Z;
    destruct (Z.compare_spec Ma Mb) as [E | E | E]; try discriminate C;
    try rewrite C; destruct sa, sb; cbv beta iota;
    match goal with
    | |- (0 <? ?d)%Z = _ => destruct (Z.ltb_spec 0 d); try reflexivity; lia
    end.
Qed.

(** *** The order of the numbers that are not NaN *)

(** A position on a line: class, then exponent, then mantissa. *)
Definition ord (x : spec_float) : Z * Z * Z :=
  match x with
  | S754_infinity true => (-2, 0, 0)
  | S754_finite true m e => (-1, - e, - Zpos m)
  | S754_zero _ => (0, 0, 0)
  | S754_finite false m e => (1, e, Zpos m)
  | S754_infinity false => (2, 0, 0)
  | S754_nan => (0, 0, 0)
  end%Z.

Definition lex_lt (p q : Z * Z * Z) : Prop :=
  let '(a, b, c) := p in
  let '(a', b', c') := q in
  (a < a' \/ (a = a' /\ (b < b' \/ (b = b' /\ c < c'))))%Z.

Definition lex_le (p q : Z * Z * Z) : Prop :=
  let '(a, b, c) := p in
  let '(a', b', c') := q in
  (a < a' \/ (a = a' /\ (b < b' \/ (b = b' /\ c <= c'))))%Z.

Definition not_nan (x : spec_float) : Prop := x <> S754_nan.

Ltac order_cases :=
  repeat match goal with
         | s : bool |- _ => destruct s
         end;
  cbn [ord lex_lt lex_le SFcompare];
  try match goal with
      | |- context [(?e1 ?= ?e2)%Z] => destruct (Z.compare_spec e1 e2)
      end;
  try match goal with
      | |- context [Pos.compare_cont Eq ?m1 ?m2] =>
          change (Pos.compare_cont Eq m1 m2) with (Pos.compare m1 m2);
          destruct (Pos.compare_spec m1 m2)
      end;
  cbn [CompOpp];
  split; intro; try congruence; try lia.

Lemma SFltb_ord (x y : spec_float) :
  not_nan x -> not_nan y -> (SFltb x y = true <-> lex_lt (ord x) (ord y)).
Proof.
  unfold not_nan, SFltb. intros Hx Hy.
  destruct x as [sx|sx| |sx mx ex]; try congruence;
    destruct y as [sy|sy| |sy my ey]; try congruence; order_cases.
Qed.

Lemma SFleb_ord (x y : spec_float) :
  not_nan x -> not_nan y -> (SFleb x y = true <-> lex_le (ord x) (ord y)).
Proof.
  unfold not_nan, SFleb. intros Hx Hy.
  destruct x as [sx|sx| |sx mx ex]; try congruence;
    destruct y as [sy|sy| |sy my ey]; try congruence; order_cases.
Qed.

Lemma is_nan_false (x : float) : is_nan x = false -> not_nan (Prim2SF x).
Proof.
  unfold is_nan, not_nan. rewrite FloatAxioms.eqb_spec. intros H E.
  rewrite E in H. discriminate.
Qed.

Lemma leb_not_nan (x y : float) :
  (x <=? y) = true -> not_nan (Prim2SF x) /\ not_nan (Prim2SF y).
Proof.
  rewrite leb_spec. unfold not_nan, SFleb.
  destruct (Prim2SF x), (Prim2SF y); simpl; intros H; split; congruence.
Qed.

(** Among numbers that are not NaN, "not less" is "greater or equal". *)
Lemma not_ltb_leb (a b : float) :
  is_nan a = false -> is_nan b = false -> (a <? b) = false -> (b <=? a) = true.
Proof.
  intros Ha Hb H. apply is_nan_false in Ha. apply is_nan_false in Hb.
  rewrite leb_spec. apply SFleb_ord; [assumption..|].
  rewrite ltb_spec in H.
  assert (N : ~ lex_lt (ord (Prim2SF a)) (ord (Prim2SF b))).
  { intros L. apply SFltb_ord in L; [congruence|assumption..]. }
  destruct (ord (Prim2SF a)) as [[a1 a2] a3], (ord (Prim2SF b)) as [[b1 b2] b3].
  unfold lex_lt, lex_le in *. lia.
Qed.

Lemma ltb_leb (a b : float) : (a <? b) = true -> (a <=? b) = true.
Proof.
  rewrite ltb_spec, leb_spec. unfold SFltb, SFleb.
  destruct (SFcompare (Prim2SF a) (Prim2SF b)) as [[]|]; congruence.
Qed.

Lemma leb_trans (a b c : float) :
  (a <=? b) = true -> (b <=? c) = true -> (a <=? c) = true.
Proof.
  intros H1 H2.
  destruct (leb_not_nan _ _ H1) as [Na Nb]. destruct (leb_not_nan _ _ H2) as [_ Nc].
  rewrite leb_spec in *.
  apply SFleb_ord in H1; [|assumption..]. apply SFleb_ord in H2; [|assumption..].
  apply SFleb_ord; [assumption..|].
  destruct (ord (Prim2SF a)) as [[a1 a2] a3], (ord (Prim2SF b)) as [[b1 b2] b3],
    (ord (Prim2SF c)) as [[c1 c2] c3].
  unfold lex_le in *. lia.
Qed.

(** ** More facts about binary64 arithmetic *)

(** *** NaN is absorbing *)
Lemma is_nan_spec (x : float) : is_nan x = true <-> Prim2SF x = S754_nan.
Proof.
  unfold is_nan. rewrite FloatAxioms.eqb_spec. unfold SFeqb, SFcompare.
  destruct (Prim2SF x) as [s|s| |s m e]; try (destruct s); cbn;
    try (split; [discriminate|discriminate]); try (split; reflexivity).
  - rewrite Z.compare_refl, Pos.compare_cont_refl. cbn. split; discriminate.
  - rewrite Z.compare_refl, Pos.compare_cont_refl. cbn. split; discriminate.
Qed.

Lemma add_nan (a b : float) :
  is_nan a = true \/ is_nan b = true -> is_nan (a + b) = true.
Proof.
  rewrite !is_nan_spec, add_spec. intros [H|H]; rewrite H.
  - reflexivity.
  - destruct (Prim2SF a) as [[]|[]| |s m e]; reflexivity.
Qed.

Lemma mul_nan (a b : float) : is_nan a = true -> is_nan (a * b) = true.
Proof. rewrite !is_nan_spec, mul_spec. intros ->. reflexivity. Qed.

Lemma div_nan (a b : float) : is_nan a = true -> is_nan (a / b) = true.
Proof. rewrite !is_nan_spec, div_spec. intros ->. reflexivity. Qed.

Lemma Math_round_nan (a : float) : is_nan a = true -> is_nan (Math_round a) = true.
Proof.
  intros H. unfold Math_round. pose proof H as H'. rewrite is_nan_spec in H'.
  rewrite H'. exact H.
Qed.

Lemma sum_nan {A : Type} (f : A -> float) (l : list A) (acc : float) :
  is_nan acc = true \/ existsb (fun x => is_nan (f x)) l = true ->
  is_nan (fold_left (fun sum x => sum + f x) l acc) = true.
Proof.
  revert acc. induction l as [|x l IH]; intros acc H; simpl in *.
  - destruct H as [H|H]; [exact H|discriminate].
  - apply IH. destruct H as [H|H].
    + left. apply add_nan. now left.
    + apply orb_prop in H. destruct H as [H|H].
      * left. apply add_nan. now right.
      * now right.
Qed.

(** *** Differences and sums that are zero or NaN *)

(** A zero or NaN. *)
Definition zeroOrNaN (x : float) : Prop :=
  match Prim2SF x with
  | S754_zero _ | S754_nan => True
  | _ => False
  end.

Lemma sub_self_zeroOrNaN (w : float) : zeroOrNaN (w - w).
Proof.
  unfold zeroOrNaN. rewrite sub_spec.
  destruct (Prim2SF w) as [[]|[]| |s m e]; try exact I.
  unfold SF64sub, SFsub. rewrite Z.sub_diag. exact I.
Qed.

(** [w - (w || 0)] is a zero or NaN. *)
Lemma sub_or_zero (w : float) : zeroOrNaN (w - or_num w 0).
Proof.
  unfold or_num, truthy. destruct (is_nan w) eqn:N; cbn [orb negb].
  - apply is_nan_spec in N. unfold zeroOrNaN. rewrite sub_spec, N. exact I.
  - destruct (is_zero w) eqn:Z; cbn [negb].
    + destruct (is_zero_inv w Z) as [-> | ->]; vm_compute; exact I.
    + apply sub_self_zeroOrNaN.
Qed.

Lemma square_zeroOrNaN (d : float) : zeroOrNaN d -> zeroOrNaN (d * d).
Proof.
  unfold zeroOrNaN. rewrite mul_spec.
  destruct (Prim2SF d) as [[]|[]| |s m e]; intros H; try contradiction; exact I.
Qed.

Lemma add_zeroOrNaN (a b : float) : zeroOrNaN a -> zeroOrNaN b -> zeroOrNaN (a + b).
Proof.
  unfold zeroOrNaN. rewrite add_spec.
  destruct (Prim2SF a) as [[]|[]| |s m e]; intros Ha; try contradiction;
    destruct (Prim2SF b) as [[]|[]| |s' m' e']; intros Hb; try contradiction; exact I.
Qed.

Lemma sqrt_zeroOrNaN (a : float) : zeroOrNaN a -> zeroOrNaN (Math_sqrt a).
Proof.
  unfold zeroOrNaN, Math_sqrt. rewrite sqrt_spec.
  destruct (Prim2SF a) as [[]|[]| |s m e]; intros Ha; try contradiction; exact I.
Qed.

(** The quotient of the score is NaN when both distances are zero or NaN. *)
Lemma score_nan (dP dN : float) :
  zeroOrNaN dP -> zeroOrNaN dN -> is_nan (dN / (dP + dN)) = true.
Proof.
  intros HP HN. pose proof (add_zeroOrNaN dP dN HP HN) as HS.
  apply is_nan_spec. rewrite div_spec. unfold zeroOrNaN in *.
  destruct (Prim2SF dN) as [[]|[]| |s m e]; try contradiction;
    destruct (Prim2SF (dP + dN)) as [[]|[]| |s' m' e']; try contradiction; reflexivity.
Qed.

(** [Math.max(x)] and [Math.min(x)] of one number that is not NaN. *)
Lemma Math_max_single (x : float) : is_nan x = false -> Math_max [x] = x.
Proof.
  intros N. unfold Math_max. cbn [fold_left]. unfold max_step.
  rewrite N. cbn [is_nan orb].
  change (is_nan neg_infinity) with false. cbn [orb].
  destruct (neg_infinity <? x) eqn:L; [reflexivity|].
  assert (E : x = neg_infinity).
  { apply Prim2SF_inj. apply is_nan_false in N. unfold not_nan in N.
    rewrite ltb_spec in L. change (Prim2SF neg_infinity) with (S754_infinity true) in *.
    destruct (Prim2SF x) as [[]|[]| |[] m e]; try discriminate; try congruence. }
  rewrite E. reflexivity.
Qed.

Lemma Math_min_single (x : float) : is_nan x = false -> Math_min [x] = x.
Proof.
  intros N. unfold Math_min. cbn [fold_left]. unfold min_step.
  rewrite N. change (is_nan infinity) with false. cbn [orb].
  destruct (x <? infinity) eqn:L; [reflexivity|].
  assert (E : x = infinity).
  { apply Prim2SF_inj. apply is_nan_false in N. unfold not_nan in N.
    rewrite ltb_spec in L. change (Prim2SF infinity) with (S754_infinity false) in *.
    destruct (Prim2SF x) as [[]|[]| |[] m e]; try discriminate; try congruence. }
  rewrite E. reflexivity.
Qed.

Lemma or_num_not_nan (x d : float) : is_nan d = false -> is_nan (or_num x d) = false.
Proof.
  intros Hd. unfold or_num, truthy. destruct (is_nan x) eqn:N; [exact Hd|].
  cbn [orb]. destruct (is_zero x); [exact Hd|exact N].
Qed.

(** *** Rounding is symmetric around zero *)

Lemma binary_round_aux_opp (s : bool) (m e : Z) (l : SpecFloat.location) :
  binary_round_aux prec emax (negb s) m e l = SFopp (binary_round_aux prec emax s m e l).
Proof.
  unfold binary_round_aux.
  destruct (shr_fexp prec emax m e l) as [mrs' e'].
  destruct (shr_fexp prec emax _ e' loc_Exact) as [mrs'' e''].
  destruct (shr_m mrs''); [reflexivity| |reflexivity].
  destruct (e'' <=? emax - prec)%Z; reflexivity.
Qed.

Lemma opp_involutive (a : float) : - - a = a.
Proof.
  apply Prim2SF_inj. rewrite !opp_spec.
  destruct (Prim2SF a) as [s|s| |s m e]; cbn; rewrite ?negb_involutive; reflexivity.
Qed.

Lemma mul_opp_l (a b : float) : (- a) * b = - (a * b).
Proof.
  apply Prim2SF_inj. rewrite opp_spec, !mul_spec, opp_spec. unfold SF64mul.
  destruct (Prim2SF a) as [sa|sa| |sa ma ea]; destruct (Prim2SF b) as [sb|sb| |sb mb eb];
    cbn [SFopp SFmul]; try reflexivity;
    try (destruct sa, sb; reflexivity).
  rewrite <- binary_round_aux_opp. destruct sa, sb; reflexivity.
Qed.

Lemma mul_comm (a b : float) : a * b = b * a.
Proof.
  apply Prim2SF_inj. rewrite !mul_spec. unfold SF64mul.
  destruct (Prim2SF a) as [sa|sa| |sa ma ea]; destruct (Prim2SF b) as [sb|sb| |sb mb eb];
    cbn [SFmul]; try reflexivity; try (destruct sa, sb; reflexivity).
  rewrite Pos.mul_comm, Z.add_comm, xorb_comm. reflexivity.
Qed.

Lemma mul_opp_r (a b : float) : a * (- b) = - (a * b).
Proof. rewrite mul_comm, mul_opp_l, mul_comm. reflexivity. Qed.

Lemma mul_opp_opp (a b : float) : (- a) * (- b) = a * b.
Proof. rewrite mul_opp_l, mul_opp_r. apply opp_involutive. Qed.

Lemma div_opp_l (a b : float) : (- a) / b = - (a / b).
Proof.
  apply Prim2SF_inj. rewrite opp_spec, !div_spec, opp_spec. unfold SF64div.
  destruct (Prim2SF a) as [sa|sa| |sa ma ea]; destruct (Prim2SF b) as [sb|sb| |sb mb eb];
    cbn [SFopp SFdiv]; try reflexivity;
    try (destruct sa, sb; reflexivity).
  destruct (SFdiv_core_binary prec emax (Zpos ma) ea (Zpos mb) eb) as [[mz ez] lz].
  rewrite <- binary_round_aux_opp. destruct sa, sb; reflexivity.
Qed.

Lemma binary_normalize_opp (z e : Z) :
  z <> 0%Z ->
  binary_normalize prec emax (- z) e false = SFopp (binary_normalize prec emax z e false).
Proof.
  intros Hz. destruct z as [|p|p]; [congruence| |]; cbn [Z.opp binary_normalize];
    unfold binary_round; destruct (shl_align _ _ _) as [mz ez].
  - apply (binary_round_aux_opp false).
  - rewrite <- (binary_round_aux_opp true). reflexivity.
Qed.

(** Exchanging the operands of a subtraction changes the sign of the result,
    unless the result is [+0] both ways. *)
Lemma sub_antisym (a b : float) :
  b - a = - (a - b) \/ (a - b = 0 /\ b - a = 0).
Proof.
  destruct (Prim2SF a) as [sa|sa| |sa ma ea] eqn:Ea;
    destruct (Prim2SF b) as [sb|sb| |sb mb eb] eqn:Eb.
  all: try (left; apply Prim2SF_inj; rewrite opp_spec, !sub_spec, Ea, Eb;
            cbn [SF64sub SFsub SFopp]; try reflexivity; destruct sa, sb; reflexivity).
  - (* two zeros *)
    destruct sa, sb.
    + right. split; apply Prim2SF_inj; rewrite sub_spec, Ea, Eb; reflexivity.
    + left. apply Prim2SF_inj. rewrite opp_spec, !sub_spec, Ea, Eb. reflexivity.
    + left. apply Prim2SF_inj. rewrite opp_spec, !sub_spec, Ea, Eb. reflexivity.
    + right. split; apply Prim2SF_inj; rewrite sub_spec, Ea, Eb; reflexivity.
  - (* two finite numbers *)
    set (A := cond_Zopp sa (Zpos (fst (shl_align ma ea (Z.min ea eb))))).
    set (B := cond_Zopp sb (Zpos (fst (shl_align mb eb (Z.min ea eb))))).
    assert (Sab : Prim2SF (a - b) = binary_normalize prec emax (A - B) (Z.min ea eb) false).
    { rewrite sub_spec, Ea, Eb. reflexivity. }
    assert (Sba : Prim2SF (b - a) = binary_normalize prec emax (B - A) (Z.min ea eb) false).
    { rewrite sub_spec, Ea, Eb. unfold SF64sub, SFsub. rewrite (Z.min_comm eb ea).
      reflexivity. }
    destruct (Z.eq_dec (A - B) 0) as [Z0|NZ].
    + right. split; apply Prim2SF_inj.
      * rewrite Sab, Z0. reflexivity.
      * rewrite Sba. replace (B - A)%Z with 0%Z by lia. reflexivity.
    + left. apply Prim2SF_inj. rewrite opp_spec, Sab, Sba.
      replace (B - A)%Z with (- (A - B))%Z by lia.
      now apply binary_normalize_opp.
Qed.

(** ** The score is NaN or lies between 0 and 1 *)

Section ScoreBound.
Local Open Scope Z_scope.

(** *** Rounding towards the numbers of the format *)

(** A shift of the rounding procedure: the new exponent and mantissa. *)
Lemma shr_fexp_spec (m e : Z) (l : SpecFloat.location) :
  0 <= m ->
  let '(mrs, e1) := shr_fexp prec emax m e l in
  e1 = Z.max e (fexp prec emax (Zdigits2 m + e)) /\ shr_m mrs = m / 2 ^ (e1 - e).
Proof.
  intros Hm. unfold shr_fexp, shr.
  assert (H0 : shr_m (shr_record_of_loc m l) = m) by (destruct l as [|[]]; reflexivity).
  destruct (fexp prec emax (Zdigits2 m + e) - e) as [|n|n] eqn:E.
  - split; [lia|]. rewrite H0, Z.sub_diag. simpl. now rewrite Z.div_1_r.
  - split; [lia|]. rewrite iter_shr_1_div by (rewrite H0; lia). rewrite H0.
    f_equal. f_equal. lia.
  - split; [lia|]. rewrite H0, Z.sub_diag. simpl. now rewrite Z.div_1_r.
Qed.

Lemma fexp_le (a b : Z) : a <= b -> fexp prec emax a <= fexp prec emax b.
Proof. unfold fexp, SpecFloat.emin, prec, emax. change IntDef.Z.max with Z.max. lia. Qed.

Lemma fexp_value (a : Z) : fexp prec emax a = Z.max (a - 53) (-1074).
Proof. reflexivity. Qed.

(** Digits of a bounded number. *)
Lemma Zdigits2_bound (m k : Z) : 0 <= k -> 0 <= m < 2 ^ k -> Zdigits2 m <= k.
Proof.
  intros Hk [H0 H1]. destruct m as [|p|p]; [simpl; lia| |lia].
  pose proof (Zdigits2_lower p) as L.
  destruct (Z.le_gt_cases (Zdigits2 (Zpos p)) k) as [|G]; [assumption|].
  assert (2 ^ k <= 2 ^ (Zdigits2 (Zpos p) - 1)) by (apply Z.pow_le_mono_r; lia).
  lia.
Qed.

(** The shift of a number below one stays below one. *)
Lemma shr_fexp_below_one (m e : Z) (l : SpecFloat.location) :
  e <= 0 -> 0 <= m < 2 ^ (- e) ->
  let '(mrs, e1) := shr_fexp prec emax m e l in
  e1 <= 0 /\ 0 <= shr_m mrs < 2 ^ (- e1).
Proof.
  intros He Hm. pose proof (shr_fexp_spec m e l (proj1 Hm)) as S.
  destruct (shr_fexp prec emax m e l) as [mrs e1]. destruct S as [E1 E2].
  pose proof (Zdigits2_bound m (- e) ltac:(lia) Hm) as D.
  pose proof (fexp_le (Zdigits2 m + e) 0 ltac:(lia)) as F.
  rewrite (fexp_value 0) in F.
  assert (H1 : e1 <= 0) by lia. assert (H2 : e <= e1) by lia.
  split; [exact H1|]. rewrite E2. split.
  - apply Z.div_pos; [lia|]. apply Z.pow_pos_nonneg; lia.
  - apply Z.div_lt_upper_bound; [apply Z.pow_pos_nonneg; lia|].
    rewrite <- Z.pow_add_r by lia. replace (e1 - e + - e1) with (- e) by lia. lia.
Qed.

Lemma shr_fexp_at_most_one (m e : Z) (l : SpecFloat.location) :
  e <= 0 -> 0 <= m <= 2 ^ (- e) ->
  let '(mrs, e1) := shr_fexp prec emax m e l in
  e1 <= 0 /\ 0 <= shr_m mrs <= 2 ^ (- e1).
Proof.
  intros He Hm. pose proof (shr_fexp_spec m e l (proj1 Hm)) as S.
  destruct (shr_fexp prec emax m e l) as [mrs e1]. destruct S as [E1 E2].
  assert (D : Zdigits2 m <= - e + 1).
  { apply Zdigits2_bound; [lia|]. rewrite Z.pow_add_r by lia. simpl (2 ^ 1).
    assert (0 < 2 ^ (- e)) by (apply Z.pow_pos_nonneg; lia). lia. }
  pose proof (fexp_le (Zdigits2 m + e) 1 ltac:(lia)) as F.
  rewrite (fexp_value 1) in F.
  assert (H1 : e1 <= 0) by lia. assert (H2 : e <= e1) by lia.
  split; [exact H1|]. rewrite E2. split.
  - apply Z.div_pos; [lia|]. apply Z.pow_pos_nonneg; lia.
  - apply Z.div_le_upper_bound; [apply Z.pow_pos_nonneg; lia|].
    rewrite <- Z.pow_add_r by lia. replace (e1 - e + - e1) with (- e) by lia. lia.
Qed.

(** Rounding a positive number below one gives a number that is at most
    one. *)
Lemma binary_round_aux_at_most_one (m e : Z) (l : SpecFloat.location) :
  e <= 0 -> 0 <= m < 2 ^ (- e) ->
  match binary_round_aux prec emax false m e l with
  | S754_zero false => True
  | S754_finite false m2 e2 => e2 <= 0 /\ Zpos m2 <= 2 ^ (- e2)
  | _ => False
  end.
Proof.
  intros He Hm. unfold binary_round_aux.
  pose proof (shr_fexp_below_one m e l He Hm) as H1.
  destruct (shr_fexp prec emax m e l) as [mrs' e'].
  destruct H1 as [He' Hm'].
  pose proof (round_nearest_even_range (shr_m mrs') (loc_of_shr_record mrs')) as Hr.
  set (m1 := round_nearest_even (shr_m mrs') (loc_of_shr_record mrs')) in *.
  pose proof (shr_fexp_at_most_one m1 e' loc_Exact He' ltac:(lia)) as H2.
  destruct (shr_fexp prec emax m1 e' loc_Exact) as [mrs'' e''].
  destruct H2 as [He'' Hm''].
  destruct (shr_m mrs'') as [|p|p]; [exact I| |lia].
  destruct (Z.leb_spec e'' (emax - prec)) as [L|L].
  - split; [exact He''|lia].
  - unfold emax, prec in L. lia.
Qed.

Local Open Scope float_scope.

Lemma one_spec : Prim2SF 1 = S754_finite false 4503599627370496 (-52).
Proof. vm_compute. reflexivity. Qed.
Lemma at_most_one_leb (x : float) (m : positive) (e : Z) :
  Prim2SF x = S754_finite false m e -> (e <= 0)%Z -> (Zpos m <= 2 ^ (- e))%Z ->
  (0 <=? x) = true /\ (x <=? 1) = true.
Proof.
  intros E He Hm. rewrite !leb_spec, E, one_spec.
  change (Prim2SF 0) with (S754_zero false).
  split; [reflexivity|].
  pose proof (canonical_digits x _ _ _ E) as [D D'].
  pose proof (valid_exponent x _ _ _ E) as V.
  pose proof (Zdigits2_lower m) as L.
  apply SFleb_ord; [discriminate|discriminate|].
  cbn [ord lex_le]. right. split; [reflexivity|].
  destruct (Z.compare_spec e (-52)) as [C|C|C].
  - right. split; [exact C|]. subst e.
    change (2 ^ (- -52))%Z with 4503599627370496%Z in Hm. exact Hm.
  - left. exact C.
  - exfalso. unfold SpecFloat.emin, prec, emax in V.
    assert (D2 : Zdigits2 (Zpos m) = 53%Z) by (apply D'; unfold SpecFloat.emin, prec, emax; lia).
    rewrite D2 in L. change (2 ^ (53 - 1))%Z with 4503599627370496%Z in L.
    assert (H : (2 ^ (- e) <= 2 ^ 51)%Z) by (apply Z.pow_le_mono_r; lia).
    change (2 ^ 51)%Z with 2251799813685248%Z in H. lia.
Qed.

(** What a valid positive number says about its mantissa and exponent. *)
Lemma valid_canonical (x : float) (s : bool) (m : positive) (e : Z) :
  Prim2SF x = S754_finite s m e ->
  (e = Z.max (Zdigits2 (Zpos m) + e - 53) (-1074) /\ e <= 971)%Z.
Proof.
  intros E. pose proof (Prim2SF_valid x) as V. rewrite E in V. simpl in V.
  apply andb_prop in V. destruct V as [V B]. unfold canonical_mantissa in V.
  apply Z.eqb_eq in V. apply Z.leb_le in B.
  unfold fexp, SpecFloat.emin, prec, emax in *.
  change IntDef.Z.max with Z.max in V. unfold Zdigits2. lia.
Qed.

(** The value of a mantissa and exponent, as a multiple of the smallest
    number of the format. *)
Definition scaled (m e : Z) : Z := (m * 2 ^ (e + 1074))%Z.

Lemma scaled_digits (a b : positive) (ea eb : Z) :
  (-1074 <= ea)%Z -> (-1074 <= eb)%Z ->
  (scaled (Zpos a) ea <= scaled (Zpos b) eb)%Z ->
  (Zdigits2 (Zpos a) + ea <= Zdigits2 (Zpos b) + eb)%Z.
Proof.
  unfold scaled. intros Ha Hb H.
  pose proof (Zdigits2_lower a) as La. pose proof (Zdigits2_upper b) as Ub.
  assert (Da : (1 <= Zdigits2 (Zpos a))%Z) by (simpl; lia).
  assert (Db : (1 <= Zdigits2 (Zpos b))%Z) by (simpl; lia).
  assert (P1 : (0 < 2 ^ (ea + 1074))%Z) by (apply Z.pow_pos_nonneg; lia).
  assert (P2 : (0 < 2 ^ (eb + 1074))%Z) by (apply Z.pow_pos_nonneg; lia).
  assert (H1 : (2 ^ (Zdigits2 (Zpos a) - 1 + (ea + 1074))
                < 2 ^ (Zdigits2 (Zpos b) + (eb + 1074)))%Z).
  { rewrite (Z.pow_add_r 2 (Zdigits2 (Zpos a) - 1)), (Z.pow_add_r 2 (Zdigits2 (Zpos b)))
      by lia.
    apply Z.le_lt_trans with (Zpos a * 2 ^ (ea + 1074))%Z.
    - apply Z.mul_le_mono_nonneg_r; lia.
    - apply Z.le_lt_trans with (1 := H). apply Z.mul_lt_mono_pos_r; lia. }
  apply Z.pow_lt_mono_r_iff in H1; lia.
Qed.

(** *** A quotient of two positive numbers *)

Lemma div_eucl_spec (a b : Z) : Z.div_eucl a b = (a / b, a mod b)%Z.
Proof. unfold Z.div, Z.modulo. destruct (Z.div_eucl a b); reflexivity. Qed.

Lemma new_location_exact (n : Z) : new_location n 0 = loc_Exact.
Proof.
  unfold new_location, new_location_even, new_location_odd.
  destruct (Z.even n); reflexivity.
Qed.

Lemma shifted_mantissa (m s : Z) :
  (0 <= s)%Z ->
  match s with
  | Zpos _ => Z.shiftl m s
  | Z0 => m
  | Zneg _ => 0%Z
  end = (m * 2 ^ s)%Z.
Proof.
  intros Hs. destruct s as [|p|p]; [simpl; lia| |lia].
  apply Z.shiftl_mul_pow2. lia.
Qed.

(** A number divided by itself is one. *)
Lemma div_self (x : float) (m : positive) (e : Z) :
  Prim2SF x = S754_finite false m e -> x / x = 1.
Proof.
  intros E. apply Prim2SF_inj. rewrite div_spec, E, one_spec.
  unfold SF64div, SFdiv. cbn [xorb]. unfold SFdiv_core_binary. cbv zeta.
  replace (Zdigits2 (Zpos m) + e - (Zdigits2 (Zpos m) + e))%Z with 0%Z by lia.
  replace (e - e)%Z with 0%Z by lia.
  change (Z.min (fexp prec emax 0) 0) with (-53)%Z.
  change (0 - -53)%Z with 53%Z. cbv iota.
  rewrite div_eucl_spec, Z.shiftl_mul_pow2 by lia.
  rewrite (Z.mul_comm (Zpos m)), Z.div_mul, Z.mod_mul by lia.
  rewrite new_location_exact. vm_compute. reflexivity.
Qed.

(** The quotient of a positive number by a larger one is at most one. *)
Lemma div_below (x y : float) (mx my : positive) (ex ey : Z) :
  Prim2SF x = S754_finite false mx ex -> Prim2SF y = S754_finite false my ey ->
  (scaled (Zpos mx) ex < scaled (Zpos my) ey)%Z ->
  match Prim2SF (x / y) with
  | S754_zero false => True
  | S754_finite false m2 e2 => (e2 <= 0 /\ Zpos m2 <= 2 ^ (- e2))%Z
  | _ => False
  end.
Proof.
  intros Ex Ey H.
  pose proof (valid_canonical x _ _ _ Ex) as [Cx Bx].
  pose proof (valid_canonical y _ _ _ Ey) as [Cy By].
  pose proof (scaled_digits mx my ex ey ltac:(lia) ltac:(lia) ltac:(lia)) as D.
  rewrite div_spec, Ex, Ey.
  unfold SF64div, SFdiv. cbn [xorb]. unfold SFdiv_core_binary. cbv zeta.
  rewrite div_eucl_spec. cbv iota beta.
  set (e' := Z.min (fexp prec emax (Zdigits2 (Zpos mx) + ex - (Zdigits2 (Zpos my) + ey)))
                   (ex - ey)).
  assert (Dx : (1 <= Zdigits2 (Zpos mx))%Z) by (simpl; lia).
  assert (He1 : (e' <= -53)%Z).
  { pose proof (fexp_le (Zdigits2 (Zpos mx) + ex - (Zdigits2 (Zpos my) + ey)) 0) as F.
    rewrite (fexp_value 0) in F. unfold e'. 
    (* the values differ, so the magnitudes differ by at most 0 *)
    assert (Zdigits2 (Zpos mx) + ex - (Zdigits2 (Zpos my) + ey) <= 0)%Z by lia. lia. }
  assert (He2 : (e' <= ex - ey)%Z) by (unfold e'; lia).
  rewrite shifted_mantissa by lia.
  apply binary_round_aux_at_most_one; [lia|].
  assert (Pe : (0 < 2 ^ (- e'))%Z) by (apply Z.pow_pos_nonneg; lia).
  split.
  - apply Z.div_pos; [|lia]. apply Z.mul_nonneg_nonneg; [lia|].
    apply Z.pow_nonneg. lia.
  - apply Z.div_lt_upper_bound; [lia|].
    unfold scaled in H.
    destruct (Z.le_gt_cases ey ex) as [L|L].
    + (* mx * 2^(ex - ey) < my *)
      assert (H1 : (Zpos mx * 2 ^ (ex - ey) < Zpos my)%Z).
      { replace (ex + 1074)%Z with ((ex - ey) + (ey + 1074))%Z in H by lia.
        rewrite (Z.pow_add_r 2 (ex - ey) (ey + 1074)), Z.mul_assoc in H by lia.
        apply Z.mul_lt_mono_pos_r in H; [exact H|]. apply Z.pow_pos_nonneg; lia. }
      replace (ex - ey - e')%Z with ((ex - ey) + - e')%Z by lia.
      rewrite (Z.pow_add_r 2 (ex - ey) (- e')), Z.mul_assoc by lia.
      apply Z.mul_lt_mono_pos_r; [exact Pe|exact H1].
    + (* mx < my * 2^(ey - ex) *)
      assert (H1 : (Zpos mx < Zpos my * 2 ^ (ey - ex))%Z).
      { replace (ey + 1074)%Z with ((ey - ex) + (ex + 1074))%Z in H by lia.
        rewrite (Z.pow_add_r 2 (ey - ex) (ex + 1074)), Z.mul_assoc in H by lia.
        apply Z.mul_lt_mono_pos_r in H; [exact H|]. apply Z.pow_pos_nonneg; lia. }
      replace (- e')%Z with ((ey - ex) + (ex - ey - e'))%Z at 1 by lia.
      rewrite (Z.pow_add_r 2 (ey - ex) (ex - ey - e')), Z.mul_assoc by lia.
      apply Z.mul_lt_mono_pos_r; [apply Z.pow_pos_nonneg; lia|exact H1].
Qed.

(** *** A sum of two positive numbers *)

Lemma scaled_le_r (a b e : Z) : (-1074 <= e)%Z -> (a <= b)%Z -> (scaled a e <= scaled b e)%Z.
Proof.
  intros He H. unfold scaled. apply Z.mul_le_mono_nonneg_r; [|exact H].
  apply Z.pow_nonneg. lia.
Qed.

(** A shift of the rounding procedure does not go below a number of the
    format that the shifted number reaches. *)
Lemma shr_fexp_above (mb : positive) (eb m e : Z) (l : SpecFloat.location) :
  (-1074 <= e)%Z -> (eb = Z.max (Zdigits2 (Zpos mb) + eb - 53) (-1074))%Z ->
  (scaled (Zpos mb) eb <= scaled m e)%Z ->
  let '(mrs, e1) := shr_fexp prec emax m e l in
  (-1074 <= e1)%Z /\ (scaled (Zpos mb) eb <= scaled (shr_m mrs) e1)%Z.
Proof.
  intros He Cb H.
  assert (Pb : (0 < scaled (Zpos mb) eb)%Z).
  { unfold scaled. apply Z.mul_pos_pos; [lia|]. apply Z.pow_pos_nonneg; lia. }
  destruct m as [|p|p].
  - unfold scaled in H, Pb. rewrite Z.mul_0_l in H. lia.
  - pose proof (shr_fexp_spec (Zpos p) e l ltac:(lia)) as S.
    destruct (shr_fexp prec emax (Zpos p) e l) as [mrs e1]. destruct S as [E1 E2].
    rewrite fexp_value in E1. split; [lia|]. rewrite E2.
    destruct (Z.eq_dec e1 e) as [Q|Q].
    { rewrite Q, Z.sub_diag. simpl (2 ^ 0)%Z. rewrite Z.div_1_r. exact H. }
    assert (E3 : (e1 = Zdigits2 (Zpos p) + e - 53)%Z) by lia.
    assert (Hn : (0 < e1 - e)%Z) by lia.
    assert (Pn : (0 < 2 ^ (e1 - e))%Z) by (apply Z.pow_pos_nonneg; lia).
    assert (P1 : (0 < 2 ^ (e1 + 1074))%Z) by (apply Z.pow_pos_nonneg; lia).
    assert (P0 : (0 < 2 ^ (e + 1074))%Z) by (apply Z.pow_pos_nonneg; lia).
    destruct (Z.le_gt_cases e1 eb) as [L|L].
    + (* the number of the format is a multiple of the new unit *)
      unfold scaled in *.
      replace (eb + 1074)%Z with ((eb - e1) + (e1 + 1074))%Z by lia.
      rewrite (Z.pow_add_r 2 (eb - e1) (e1 + 1074)), Z.mul_assoc by lia.
      apply Z.mul_le_mono_nonneg_r; [lia|].
      apply Z.div_le_lower_bound; [exact Pn|].
      replace (eb + 1074)%Z with ((eb - e1) + (e1 - e) + (e + 1074))%Z in H by lia.
      rewrite (Z.pow_add_r 2 (eb - e1 + (e1 - e)) (e + 1074)), Z.mul_assoc in H by lia.
      apply Z.mul_le_mono_pos_r in H; [|exact P0].
      rewrite (Z.pow_add_r 2 (eb - e1) (e1 - e)) in H by lia.
      rewrite Z.mul_comm, <- Z.mul_assoc. rewrite Z.mul_assoc in H. lia.
    + (* the new mantissa has all its digits *)
      pose proof (Zdigits2_lower p) as Lp. pose proof (Zdigits2_upper mb) as Ub.
      assert (Db : (Zdigits2 (Zpos mb) <= 53)%Z) by lia.
      assert (U53 : (2 ^ Zdigits2 (Zpos mb) <= 2 ^ 53)%Z)
        by (apply Z.pow_le_mono_r; lia).
      assert (Q52 : (2 ^ 52 <= Zpos p / 2 ^ (e1 - e))%Z).
      { apply Z.div_le_lower_bound; [exact Pn|].
        rewrite <- Z.pow_add_r by lia.
        replace (e1 - e + 52)%Z with (Zdigits2 (Zpos p) - 1)%Z by lia. exact Lp. }
      unfold scaled.
      apply Z.le_trans with (2 ^ 53 * 2 ^ (eb + 1074))%Z.
      { apply Z.mul_le_mono_nonneg_r; [apply Z.pow_nonneg|]; lia. }
      apply Z.le_trans with (2 ^ 52 * 2 ^ (e1 + 1074))%Z.
      { rewrite <- !Z.pow_add_r by lia. apply Z.pow_le_mono_r; lia. }
      apply Z.mul_le_mono_nonneg_r; [lia|exact Q52].
  - unfold scaled in H at 2.
    assert (0 < 2 ^ (e + 1074))%Z by (apply Z.pow_pos_nonneg; lia). nia.
Qed.

(** Rounding does not go below a number of the format that the rounded
    number reaches. *)
Lemma binary_round_aux_above (mb : positive) (eb m e : Z) (l : SpecFloat.location) :
  (-1074 <= e)%Z -> (eb = Z.max (Zdigits2 (Zpos mb) + eb - 53) (-1074))%Z ->
  (scaled (Zpos mb) eb <= scaled m e)%Z ->
  match binary_round_aux prec emax false m e l with
  | S754_infinity false => True
  | S754_finite false m2 e2 => (scaled (Zpos mb) eb <= scaled (Zpos m2) e2)%Z
  | _ => False
  end.
Proof.
  intros He Cb H. unfold binary_round_aux.
  pose proof (shr_fexp_above mb eb m e l He Cb H) as H1.
  destruct (shr_fexp prec emax m e l) as [mrs' e'].
  destruct H1 as [He' Hm'].
  pose proof (round_nearest_even_range (shr_m mrs') (loc_of_shr_record mrs')) as Hr.
  set (m1 := round_nearest_even (shr_m mrs') (loc_of_shr_record mrs')) in *.
  assert (H1 : (scaled (Zpos mb) eb <= scaled m1 e')%Z).
  { apply Z.le_trans with (1 := Hm'). apply scaled_le_r; lia. }
  pose proof (shr_fexp_above mb eb m1 e' loc_Exact He' Cb H1) as H2.
  destruct (shr_fexp prec emax m1 e' loc_Exact) as [mrs'' e''].
  destruct H2 as [He'' Hm''].
  assert (Pb : (0 < scaled (Zpos mb) eb)%Z).
  { unfold scaled. apply Z.mul_pos_pos; [lia|]. apply Z.pow_pos_nonneg; lia. }
  destruct (shr_m mrs'') as [|p|p].
  - unfold scaled in Hm'', Pb. rewrite Z.mul_0_l in Hm''. lia.
  - destruct (e'' <=? emax - prec)%Z; [exact Hm''|exact I].
  - unfold scaled in Hm'' at 2.
    assert (0 < 2 ^ (e'' + 1074))%Z by (apply Z.pow_pos_nonneg; lia). nia.
Qed.

Lemma shl_align_scaled (m : positive) (e e2 : Z) :
  (-1074 <= e)%Z -> (-1074 <= e2)%Z ->
  scaled (Zpos (fst (shl_align m e e2))) (snd (shl_align m e e2)) = scaled (Zpos m) e.
Proof.
  intros He He2. unfold shl_align. destruct (e2 - e)%Z as [|d|d] eqn:E; cbn [fst snd];
    try reflexivity.
  rewrite iter_xO_pow. unfold scaled. rewrite <- Z.mul_assoc, <- Z.pow_add_r by lia.
  f_equal. f_equal. lia.
Qed.

(** The sum of two positive numbers is not below the second one. *)
Lemma add_above (a b : float) (ma mb : positive) (ea eb : Z) :
  Prim2SF a = S754_finite false ma ea -> Prim2SF b = S754_finite false mb eb ->
  match Prim2SF (a + b) with
  | S754_infinity false => True
  | S754_finite false m2 e2 => (scaled (Zpos mb) eb <= scaled (Zpos m2) e2)%Z
  | _ => False
  end.
Proof.
  intros Ea Eb.
  pose proof (valid_canonical a _ _ _ Ea) as [Ca Ba].
  pose proof (valid_canonical b _ _ _ Eb) as [Cb Bb].
  rewrite add_spec, Ea, Eb. unfold SF64add, SFadd. cbn [cond_Zopp].
  set (ez := Z.min ea eb).
  pose proof (shl_align_value mb eb ez ltac:(unfold ez; lia)) as Vb.
  set (A := fst (shl_align ma ea ez)) in *. set (B := fst (shl_align mb eb ez)) in *.
  change (Z.add (Zpos A) (Zpos B)) with (Zpos (A + B)).
  unfold binary_normalize, binary_round.
  set (e2 := fexp prec emax (Zpos (digits2_pos (A + B)) + ez)).
  assert (He2 : (-1074 <= e2)%Z) by (unfold e2; rewrite fexp_value; lia).
  pose proof (shl_align_scaled (A + B) ez e2 ltac:(unfold ez; lia) He2) as Vs.
  pose proof (shl_align_emin (A + B) ez e2) as Vm.
  unfold SpecFloat.emin, emax, prec in Vm.
  specialize (Vm ltac:(unfold ez; lia) ltac:(lia)).
  destruct (shl_align (A + B) ez e2) as [mz ez']. cbn [fst snd] in Vs, Vm.
  apply binary_round_aux_above; [lia|exact Cb|].
  rewrite Vs. unfold scaled.
  replace (eb + 1074)%Z with ((eb - ez) + (ez + 1074))%Z by (unfold ez; lia).
  rewrite (Z.pow_add_r 2 (eb - ez) (ez + 1074)), Z.mul_assoc, <- Vb by (unfold ez; lia).
  apply Z.mul_le_mono_nonneg_r; [apply Z.pow_nonneg|]; lia.
Qed.

(** Two valid positive numbers of the same value are the same number. *)
Lemma scaled_inj (a b : float) (ma mb : positive) (ea eb : Z) :
  Prim2SF a = S754_finite false ma ea -> Prim2SF b = S754_finite false mb eb ->
  scaled (Zpos ma) ea = scaled (Zpos mb) eb -> a = b.
Proof.
  intros Ea Eb H.
  pose proof (valid_canonical a _ _ _ Ea) as [Ca Ba].
  pose proof (valid_canonical b _ _ _ Eb) as [Cb Bb].
  pose proof (scaled_digits ma mb ea eb ltac:(lia) ltac:(lia) ltac:(lia)) as D1.
  pose proof (scaled_digits mb ma eb ea ltac:(lia) ltac:(lia) ltac:(lia)) as D2.
  assert (E : ea = eb) by lia. subst eb.
  unfold scaled in H. apply Z.mul_cancel_r in H.
  - apply Prim2SF_inj. rewrite Ea, Eb. congruence.
  - assert (0 < 2 ^ (ea + 1074))%Z by (apply Z.pow_pos_nonneg; lia). lia.
Qed.

(** *** The score *)

(** A square root is NaN, a zero, a positive number or infinity. *)
Definition notNegative (x : spec_float) : Prop :=
  match x with
  | S754_infinity true | S754_finite true _ _ => False
  | _ => True
  end.

Lemma binary_round_aux_notNegative (m e : Z) (l : SpecFloat.location) :
  notNegative (binary_round_aux prec emax false m e l).
Proof.
  unfold binary_round_aux.
  destruct (shr_fexp prec emax m e l) as [mrs' e'].
  destruct (shr_fexp prec emax _ e' loc_Exact) as [mrs'' e''].
  destruct (shr_m mrs''); try exact I.
  destruct (e'' <=? emax - prec)%Z; exact I.
Qed.

Lemma sqrt_notNegative (x : float) : notNegative (Prim2SF (Math_sqrt x)).
Proof.
  unfold Math_sqrt. rewrite sqrt_spec. unfold SF64sqrt, SFsqrt.
  destruct (Prim2SF x) as [[]|[]| |[] m e]; try exact I.
  destruct (SFsqrt_core_binary prec emax (Zpos m) e) as [[mz ez] lz].
  apply binary_round_aux_notNegative.
Qed.

(** The quotient [dN / (dP + dN)] of two numbers that are not negative is
    NaN or lies between 0 and 1. *)
Lemma score_between (dP dN : float) :
  notNegative (Prim2SF dP) -> notNegative (Prim2SF dN) ->
  let s := dN / (dP + dN) in
  is_nan s = true \/ ((0 <=? s) = true /\ (s <=? 1) = true).
Proof.
  intros HP HN. cbv zeta.
  destruct (Prim2SF dN) as [sn|sn| |sn mn en] eqn:EN.
  - (* dN is a zero *)
    destruct (Prim2SF dP) as [sp|sp| |sp mp ep] eqn:EP.
    + left. apply is_nan_spec. rewrite div_spec, add_spec, EN, EP.
      destruct sp, sn; reflexivity.
    + destruct sp; [contradiction|]. right.
      rewrite !leb_spec, div_spec, add_spec, EN, EP, one_spec.
      change (Prim2SF 0) with (S754_zero false). destruct sn; split; reflexivity.
    + left. apply is_nan_spec. rewrite div_spec, add_spec, EN, EP. reflexivity.
    + destruct sp; [contradiction|]. right.
      rewrite !leb_spec, div_spec, add_spec, EN, EP, one_spec.
      change (Prim2SF 0) with (S754_zero false). destruct sn; split; reflexivity.
  - (* dN is infinite *)
    destruct sn; [contradiction|]. left. apply is_nan_spec.
    rewrite div_spec, add_spec, EN.
    destruct (Prim2SF dP) as [sp|sp| |sp mp ep] eqn:EP; try reflexivity.
    destruct sp; [contradiction|reflexivity].
  - left. apply div_nan, is_nan_spec, EN.
  - (* dN is a positive number *)
    destruct sn; [contradiction|].
    destruct (Prim2SF dP) as [sp|sp| |sp mp ep] eqn:EP.
    + assert (E : dP + dN = dN).
      { apply Prim2SF_inj. rewrite add_spec, EP, EN. reflexivity. }
      rewrite E, (div_self dN _ _ EN). right. split; reflexivity.
    + destruct sp; [contradiction|]. right.
      rewrite !leb_spec, div_spec, add_spec, EN, EP, one_spec.
      change (Prim2SF 0) with (S754_zero false). split; reflexivity.
    + left. apply is_nan_spec. rewrite div_spec, add_spec, EN, EP. reflexivity.
    + destruct sp; [contradiction|].
      pose proof (add_above dP dN _ _ _ _ EP EN) as HS.
      destruct (Prim2SF (dP + dN)) as [ss|ss| |ss ms es] eqn:ES; try contradiction.
      * destruct ss; [contradiction|]. right.
        rewrite !leb_spec, div_spec, EN, ES, one_spec.
        change (Prim2SF 0) with (S754_zero false). split; reflexivity.
      * destruct ss; [contradiction|].
        apply Z.le_lteq in HS. destruct HS as [HS|HS].
        -- pose proof (div_below dN (dP + dN) _ _ _ _ EN ES HS) as HD.
           destruct (Prim2SF (dN / (dP + dN))) as [sd|sd| |sd md ed] eqn:ED;
             try contradiction; destruct sd; try contradiction.
           ++ right. rewrite !leb_spec, ED, one_spec.
              change (Prim2SF 0) with (S754_zero false). split; reflexivity.
           ++ right. destruct HD as [HD1 HD2].
              exact (at_most_one_leb _ _ _ ED HD1 HD2).
        -- rewrite <- (scaled_inj _ _ _ _ _ _ EN ES HS), (div_self dN _ _ EN).
           right. split; reflexivity.
Qed.

End ScoreBound.

(** ** calculateUserWeights: the preferences only matter through four tests *)

(** The three-way test on [experience_level]. *)
Inductive Experience := Beginner | Expert | OtherLevel.

Definition experienceOf (p : UserPreferences) : Experience :=
  if (experience_level p =? "beginner")%string then Beginner
  else if (experience_level p =? "expert")%string then Expert
  else OtherLevel.

Definition lowBudget (p : UserPreferences) : bool :=
  (budget_range p =? "under_500k")%string || (budget_range p =? "500k_1m")%string.

(** The statements selected by the four tests. *)
Definition adjustmentsOf (e : Experience) (low challenge scenic : bool)
  : list (Weights -> Weights) :=
  (match e with
   | Beginner =>
       [ assign PhysicalDemand 0.2; assign LogisticsCost 0.5; assign ExperienceQuality 0.3 ]
   | Expert =>
       [ assign PhysicalDemand 0.5; assign LogisticsCost 0.2; assign ExperienceQuality 0.3 ]
   | OtherLevel => []
   end
   ++ (if low then [ add_assign LogisticsCost 0.1; sub_assign PhysicalDemand 0.05;
                     sub_assign ExperienceQuality 0.05 ] else [])
   ++ (if challenge then [ add_assign PhysicalDemand 0.1; sub_assign ExperienceQuality 0.1 ]
       else [])
   ++ (if scenic then [ add_assign ExperienceQuality 0.1; sub_assign PhysicalDemand 0.1 ]
       else []))%list.

Lemma adjustments_cases (p : UserPreferences) :
  adjustments p =
  adjustmentsOf (experienceOf p) (lowBudget p)
                (includes "physical_challenge" (interests p))
                (includes "scenic_views" (interests p)).
Proof.
  unfold adjustments, adjustmentsOf, experienceOf, lowBudget.
  destruct (experience_level p =? "beginner")%string;
    [reflexivity | destruct (experience_level p =? "expert")%string; reflexivity].
Qed.

(** A property of the statement list that holds in each of the 24 cases holds
    for every preference record. *)
Lemma adjustments_ind (P : list (Weights -> Weights) -> Prop) :
  (forall e low challenge scenic, P (adjustmentsOf e low challenge scenic)) ->
  forall p, P (adjustments p).
Proof. intros H p. rewrite adjustments_cases. apply H. Qed.

Ltac weight_cases :=
  intros e low challenge scenic;
  destruct e, low, challenge, scenic; vm_compute; reflexivity.

(** All three properties of a weights object are strictly positive. *)
Definition allPositive (w : Weights) : bool :=
  forallb (fun kv => 0 <? snd kv) w.

(** No property of [w] is below [bound]. *)
Definition allAtLeast (bound : float) (w : Weights) : bool :=
  forallb (fun kv => bound <=? snd kv) w.

(** The sum of the three factor weights, as a caller adds them up. *)
Definition factorWeightSum (w : Weights) : float :=
  get w PhysicalDemand + get w LogisticsCost + get w ExperienceQuality.

(** The preferences of a budget-minded beginner who is after scenic views. *)
Definition scenicBeginner : UserPreferences :=
  {| experience_level := "beginner"; fitness_level := 5; budget_range := "under_500k";
     time_commitment := "full_day"; location := "jakarta"; group_size := 2;
     interests := ["scenic_views"]; concerns := None |}.

(** C4.  For every preference record (every experience level, budget range
    and list of interests), the three factor weights returned by
    [calculateUserWeights] add up to 1 within 1e-9; the returned object has
    exactly the three factor keys. *)
Theorem C4_user_weights_sum_to_one (p : UserPreferences) :
  let w := calculateUserWeights p in
  map fst w = [PhysicalDemand; LogisticsCost; ExperienceQuality] /\
  (abs (factorWeightSum w - 1) <=? 1e-9) = true /\
  (abs (sumWeights w - 1) <=? 1e-9) = true.
Proof.
  unfold calculateUserWeights, adjustedWeights.
  pattern (adjustments p). apply adjustments_ind. clear p.
  intros e low challenge scenic.
  destruct e, low, challenge, scenic; vm_compute; repeat split; reflexivity.
Qed.

(** C10.  For every preference record, every property of the [weights]
    object is strictly positive in every state the object goes through (after
    each assignment) and in the returned object; no weight is below 0.05
    before the final division, and 0.05 (up to rounding: [0.2 - 0.05 - 0.1])
    is reached by Physical Demand for a beginner on a low budget who wants
    scenic views. *)
Theorem C10_user_weights_stay_positive (p : UserPreferences) :
  forallb allPositive (weightStates p) = true /\
  allPositive (calculateUserWeights p) = true /\
  allAtLeast 0.05 (adjustedWeights p) = true /\
  get (adjustedWeights scenicBeginner) PhysicalDemand = 0.2 - 0.05 - 0.1 /\
  (abs (get (adjustedWeights scenicBeginner) PhysicalDemand - 0.05) <=? 1e-16) = true.
Proof.
  unfold weightStates, calculateUserWeights, adjustedWeights at 1 2.
  pattern (adjustments p). apply adjustments_ind. clear p.
  intros e low challenge scenic.
  destruct e, low, challenge, scenic; vm_compute; repeat split; reflexivity.
Qed.

(** The last state of the trace is the object handed to the final loop. *)
Lemma states_last (stmts : list (Weights -> Weights)) (w d : Weights) :
  last (states stmts w) d = run stmts w.
Proof.
  revert w. induction stmts as [|s rest IH]; intros w; [reflexivity|].
  change (run (s :: rest) w) with (run rest (s w)). rewrite <- IH.
  change (states (s :: rest) w) with (w :: states rest (s w)).
  destruct rest; reflexivity.
Qed.

(** ** The seed catalog

    The factors, criteria, factor weights, routes and criterion values that
    the seed script writes to the database.  Criterion ids are database
    generated; the names below stand for them. *)

Module Seed.

Definition criterionOf (name factor : string) (benefit : bool) (w : float) : Criterion :=
  {| c_name := name; isBenefit := benefit; c_factor := factor; weightInFactor := w |}.

Definition difficultyLevel := criterionOf "Difficulty Level" "Physical Demand" false 0.4.
Definition trekDistance := criterionOf "Trek Distance" "Physical Demand" false 0.3.
Definition elevation := criterionOf "Elevation Gain" "Physical Demand" false 0.3.
Definition estimatedCost := criterionOf "Estimated Cost" "Logistics & Cost" false 0.5.
Definition trekDuration := criterionOf "Trek Duration" "Logistics & Cost" false 0.3.
Definition accessibility := criterionOf "Accessibility" "Logistics & Cost" true 0.2.
Definition scenicValue := criterionOf "Scenic Value" "Experience Quality" true 0.6.
Definition crowding := criterionOf "Crowding Level" "Experience Quality" false 0.4.

Definition factorWeights : list FactorWeight :=
  [ {| fw_factor := "Physical Demand"; fw_weight := 0.4 |};
    {| fw_factor := "Logistics & Cost"; fw_weight := 0.3 |};
    {| fw_factor := "Experience Quality"; fw_weight := 0.3 |} ].

(** The eight criterion values of a route, in the order of the seed script. *)
Definition valuesOf (d km gain cost hours access scenic crowd : float)
  : list CriterionValue :=
  [ {| criterionId := "crit_difficulty"; criterion := difficultyLevel; valueDecimal := d |};
    {| criterionId := "crit_distance"; criterion := trekDistance; valueDecimal := km |};
    {| criterionId := "crit_elevation"; criterion := elevation; valueDecimal := gain |};
    {| criterionId := "crit_cost"; criterion := estimatedCost; valueDecimal := cost |};
    {| criterionId := "crit_duration"; criterion := trekDuration; valueDecimal := hours |};
    {| criterionId := "crit_accessibility"; criterion := accessibility;
       valueDecimal := access |};
    {| criterionId := "crit_scenic"; criterion := scenicValue; valueDecimal := scenic |};
    {| criterionId := "crit_crowding"; criterion := crowding; valueDecimal := crowd |} ].

Definition mountRinjani :=
  {| mountain_name := "Mount Rinjani"; mountain_location := "Lombok, West Nusa Tenggara" |}.
Definition mountSemeru :=
  {| mountain_name := "Mount Semeru"; mountain_location := "East Java" |}.
Definition mountMerapi :=
  {| mountain_name := "Mount Merapi"; mountain_location := "Central Java / Yogyakarta" |}.

Definition rinjaniSummit : Route CriterionValue :=
  {| route_id := "rinjani_summit"; route_name := "Rinjani Summit via Senaru";
     mountain := mountRinjani; difficulty := "Hard"; distance := 24.5; duration := 18;
     criterionValues := valuesOf 4.0 24.5 2200.0 2500.0 18.0 3.0 5.0 4.0 |}.

Definition rinjaniCrater : Route CriterionValue :=
  {| route_id := "rinjani_crater"; route_name := "Rinjani Crater Rim";
     mountain := mountRinjani; difficulty := "Moderate"; distance := 16.8; duration := 12;
     criterionValues := valuesOf 3.0 16.8 1800.0 2000.0 12.0 3.0 4.0 3.0 |}.

Definition semeruSummit : Route CriterionValue :=
  {| route_id := "semeru_summit"; route_name := "Semeru Summit via Ranu Pane";
     mountain := mountSemeru; difficulty := "Expert"; distance := 28.0; duration := 20;
     criterionValues := valuesOf 5.0 28.0 2400.0 3000.0 20.0 2.0 5.0 2.0 |}.

Definition merapiSummit : Route CriterionValue :=
  {| route_id := "merapi_summit"; route_name := "Merapi Summit via Selo";
     mountain := mountMerapi; difficulty := "Moderate"; distance := 8.4; duration := 6;
     criterionValues := valuesOf 3.0 8.4 1400.0 800.0 6.0 4.0 4.0 3.0 |}.

Definition catalog : list (Route CriterionValue) :=
  [ rinjaniSummit; rinjaniCrater; semeruSummit; merapiSummit ].

(** An intermediate hiker who picked "Other Location" in the wizard. *)
Definition preferences : UserPreferences :=
  {| experience_level := "intermediate"; fitness_level := 4; budget_range := "1m_2m";
     time_commitment := "2_days"; location := "other"; group_size := 2;
     interests := ["scenic_views"]; concerns := Some ["weather"; "altitude"] |}.

(** Variants of the Semeru route: a copy under another id with the given
    criterion values. *)
Definition semeruVariant (id : string) (values : list CriterionValue)
  : Route CriterionValue :=
  {| route_id := id; route_name := route_name semeruSummit; mountain := mountSemeru;
     difficulty := "Expert"; distance := 28.0; duration := 20;
     criterionValues := values |}.

End Seed.

(** ** Sample weighted matrices *)

(** Small weighted matrices, given value by value: inputs of
    [findIdealSolutions] and [calculateDistances]. *)

(** A criterion value as [applyWeights] returns it. *)
Definition weightedValueOf (id : string) (c : Criterion)
    (raw normalized weight weighted : float) : WeightedValue :=
  {| wv_base := {| nv_base := {| criterionId := id; criterion := c; valueDecimal := raw |};
                   normalizedValue := normalized |};
     weight := weight;
     weightedValue := weighted |}.

(** Two routes with the one criterion Estimated Cost, a cost-type criterion:
    raw costs 3 and 4, normalized by 5, weight 0.5. *)
Definition cheapRoute : Route WeightedValue :=
  with_values Seed.merapiSummit
    [ weightedValueOf "crit_cost" Seed.estimatedCost 3 0.6 0.5 0.3 ].

Definition dearRoute : Route WeightedValue :=
  with_values Seed.semeruSummit
    [ weightedValueOf "crit_cost" Seed.estimatedCost 4 0.8 0.5 0.4 ].

(** Three routes of which the second has no criterion value recorded; the
    other two carry the weighted Scenic Values 0.25 and 0.5. *)
Definition gapMatrix : list (Route WeightedValue) :=
  [ with_values (Seed.semeruVariant "semeru_a" [])
      [ weightedValueOf "crit_scenic" Seed.scenicValue 4 0.5 0.5 0.25 ];
    with_values (Seed.semeruVariant "semeru_b" []) [];
    with_values (Seed.semeruVariant "semeru_c" [])
      [ weightedValueOf "crit_scenic" Seed.scenicValue 8 1 0.5 0.5 ] ].

(** ** The ideal-solution step *)

(** The local [isBenefit] of [findIdealSolutions] is [x || true]: it is true
    for every column. *)
Lemma columnIsBenefit_true (entries : list (float * bool)) :
  columnIsBenefit entries = true.
Proof. destruct entries as [|e rest]; [reflexivity|]. apply orb_true_r. Qed.

(** Whatever the criterion's [isBenefit], the positive ideal of a column is
    its maximum and the negative ideal its minimum. *)
Lemma idealsOfColumn_max_min (k : string) (routes : list (Route WeightedValue)) :
  idealsOfColumn k routes =
  (Math_max (map fst (map (idealEntry k) routes)),
   Math_min (map fst (map (idealEntry k) routes))).
Proof. unfold idealsOfColumn. rewrite columnIsBenefit_true. reflexivity. Qed.

(** C1 (the code departs from the claim).  For every weighted matrix and
    every criterion, [findIdealSolutions] takes the maximum of the column as
    positive ideal and the minimum as negative ideal, whatever the
    criterion's [isBenefit] is.  On the two routes that differ in the
    cost-type criterion Estimated Cost, with weighted costs 0.3 and 0.4, the
    positive ideal is the larger cost 0.4 and the negative ideal the smaller
    cost 0.3; the claim asks for the opposite. *)
Theorem C1_cost_column_positive_ideal_is_max :
  (forall (routes : list (Route WeightedValue)) (k : string),
     idealsOfColumn k routes =
     (Math_max (map fst (map (idealEntry k) routes)),
      Math_min (map fst (map (idealEntry k) routes)))) /\
  isBenefit Seed.estimatedCost = false /\
  positiveIdeal (findIdealSolutions [cheapRoute; dearRoute]) = [("crit_cost", 0.4)] /\
  negativeIdeal (findIdealSolutions [cheapRoute; dearRoute]) = [("crit_cost", 0.3)].
Proof.
  split; [exact (fun routes k => idealsOfColumn_max_min k routes)|].
  vm_compute. repeat split; reflexivity.
Qed.

(** ** Sorting and ranking *)

(** [x] stands before [y] in [l]. *)
Definition before {A : Type} (x y : A) (l : list A) : Prop :=
  exists l1 l2 l3, l = (l1 ++ x :: l2 ++ y :: l3)%list.

Lemma insert_perm (x : ScoredRoute) (l : list ScoredRoute) :
  Permutation (insert x l) (x :: l).
Proof.
  induction l as [|y l IH]; simpl; [reflexivity|].
  destruct (0 <? compareFn x y); [|reflexivity].
  rewrite IH. apply perm_swap.
Qed.

(** The sorted array holds the same routes. *)
Lemma sortByScore_perm (l : list ScoredRoute) : Permutation (sortByScore l) l.
Proof.
  induction l as [|x l IH]; simpl; [reflexivity|].
  rewrite insert_perm. now constructor.
Qed.

(** Ranks are the 1-based positions in the sorted array. *)
Lemma assignRanks_spec (l : list ScoredRoute) (i : nat) :
  map rr_route (assignRanks i l) = l /\
  map rank (assignRanks i l) = seq (i + 1) (List.length l).
Proof.
  revert i. induction l as [|x l IH]; intros i; simpl; [split; reflexivity|].
  destruct (IH (S i)) as [H1 H2]. rewrite H1, H2.
  split; reflexivity.
Qed.

(** Inserting a route does not exchange two routes that are already there. *)
Lemma insert_keeps_before (z x y : ScoredRoute) (l : list ScoredRoute) :
  before x y l -> before x y (insert z l).
Proof.
  revert x y. induction l as [|h l IH]; intros x y [l1 [l2 [l3 E]]].
  - destruct l1; discriminate.
  - simpl. destruct (0 <? compareFn z h).
    + destruct l1 as [|h1 l1]; simpl in E; injection E as -> E.
      * (* x is the head: find y in the tail after insertion *)
        assert (Hy : In y (insert z l)).
        { apply (Permutation_in y (Permutation_sym (insert_perm z l))).
          right. subst l. apply in_or_app. right. now left. }
        apply in_split in Hy. destruct Hy as [m2 [m3 Hy]].
        exists [], m2, m3. simpl. now rewrite Hy.
      * destruct (IH x y) as [m1 [m2 [m3 Hm]]]; [now exists l1, l2, l3|].
        exists (h1 :: m1), m2, m3. simpl. now rewrite Hm.
    + exists (z :: l1), l2, l3. simpl. now rewrite E.
Qed.

(** A route is inserted in front of every route that the comparator does not
    put first. *)
Lemma insert_before (x y : ScoredRoute) (l : list ScoredRoute) :
  In y l -> (0 <? compareFn x y) = false -> before x y (insert x l).
Proof.
  induction l as [|h l IH]; intros Hy Hc; [contradiction|].
  simpl. destruct (0 <? compareFn x h) eqn:Eh.
  - destruct Hy as [-> | Hy]; [congruence|].
    destruct (IH Hy Hc) as [m1 [m2 [m3 Hm]]].
    exists (h :: m1), m2, m3. simpl. now rewrite Hm.
  - apply in_split in Hy. destruct Hy as [m2 [m3 Hy]].
    exists [], m2, m3. simpl. now rewrite Hy.
Qed.

(** Stability: two routes keep their input order unless the comparator asks
    for the exchange. *)
Lemma sortByScore_stable (x y : ScoredRoute) (l : list ScoredRoute) :
  before x y l -> (0 <? compareFn x y) = false -> before x y (sortByScore l).
Proof.
  intros [l1 [l2 [l3 ->]]] Hc. induction l1 as [|h l1 IH]; simpl.
  - apply insert_before; [|exact Hc].
    apply (Permutation_in y (Permutation_sym (sortByScore_perm _))).
    apply in_or_app. right. now left.
  - now apply insert_keeps_before.
Qed.

(** A number minus itself is never positive (it is [+0] or NaN). *)
Lemma sub_self_not_positive (s : float) : (0 <? s - s) = false.
Proof.
  rewrite ltb_spec, sub_spec. change (Prim2SF 0) with (S754_zero false).
  destruct (Prim2SF s) as [[]|[]| |sx m e]; try reflexivity.
  unfold SF64sub, SFsub. rewrite Z.sub_diag. reflexivity.
Qed.

(** Routes with the same criterion values get the same distances and score. *)
Lemma scoreRoute_same_values (pos neg : list (string * float)) (r1 r2 : Route WeightedValue) :
  criterionValues r1 = criterionValues r2 ->
  distanceToPositive (scoreRoute pos neg r1) = distanceToPositive (scoreRoute pos neg r2) /\
  distanceToNegative (scoreRoute pos neg r1) = distanceToNegative (scoreRoute pos neg r2) /\
  topsisScore (scoreRoute pos neg r1) = topsisScore (scoreRoute pos neg r2).
Proof. intros E. unfold scoreRoute. cbn. rewrite E. auto. Qed.

(** Routes with equal scores are never exchanged. *)
Lemma sortByScore_ties (x y : ScoredRoute) (l : list ScoredRoute) :
  before x y l -> topsisScore x = topsisScore y -> before x y (sortByScore l).
Proof.
  intros Hb E. apply sortByScore_stable; [exact Hb|].
  unfold compareFn. rewrite E. apply sub_self_not_positive.
Qed.

(** *** With finite scores the ranking is in descending order *)

(** Every later route has a score at most that of every earlier route. *)
Definition descending (l : list ScoredRoute) : Prop :=
  StronglySorted (fun a b => (topsisScore b <=? topsisScore a) = true) l.

Definition noNaNScore (l : list ScoredRoute) : bool :=
  forallb (fun r => negb (is_nan (topsisScore r))) l.

(** The comparator asks for an exchange exactly when the first route has the
    smaller score. *)
Lemma compareFn_positive (a b : ScoredRoute) :
  (0 <? compareFn a b) = (topsisScore a <? topsisScore b).
Proof. apply sub_positive_iff_lt. Qed.

Lemma insert_descending (x : ScoredRoute) (l : list ScoredRoute) :
  is_nan (topsisScore x) = false -> noNaNScore l = true ->
  descending l -> descending (insert x l).
Proof.
  intros Hx Hl Hs. induction l as [|y l IH].
  - repeat constructor.
  - simpl. apply StronglySorted_inv in Hs. destruct Hs as [Hs Hy].
    unfold noNaNScore in Hl. simpl in Hl. apply andb_prop in Hl.
    destruct Hl as [Hny Hl]. apply negb_true_iff in Hny.
    rewrite compareFn_positive. destruct (topsisScore x <? topsisScore y) eqn:E.
    + constructor; [now apply IH|].
      apply (Permutation_Forall (Permutation_sym (insert_perm x l))).
      constructor; [now apply ltb_leb|exact Hy].
    + constructor; [now constructor|].
      assert (Hyx : (topsisScore y <=? topsisScore x) = true) by now apply not_ltb_leb.
      constructor; [exact Hyx|].
      apply Forall_impl with (2 := Hy). intros b Hb. now apply leb_trans with (2 := Hyx).
Qed.

Lemma sortByScore_descending (l : list ScoredRoute) :
  noNaNScore l = true -> descending (sortByScore l).
Proof.
  induction l as [|x l IH]; intros H; [constructor|].
  unfold noNaNScore in H. simpl in H. apply andb_prop in H. destruct H as [Hx Hl].
  apply negb_true_iff in Hx. simpl. apply insert_descending; [exact Hx| |now apply IH].
  unfold noNaNScore. rewrite forallb_forall in *. intros r Hr.
  apply Hl. exact (Permutation_in r (sortByScore_perm l) Hr).
Qed.

Lemma finiteScores_noNaN (l : list ScoredRoute) :
  finiteScores l = true -> noNaNScore l = true.
Proof.
  unfold finiteScores, noNaNScore. rewrite !forallb_forall. intros H r Hr.
  specialize (H r Hr). unfold is_finite in H.
  destruct (is_nan (topsisScore r)); [discriminate|reflexivity].
Qed.

(** X4.  When every score is a finite number, step 8 of [runTopsisAnalysis]
    (the sort and the ranks) returns the scored routes in descending order of
    score with the ranks 1, 2, ..., n, and routes of equal score keep their
    input order: the comparator [b.topsisScore - a.topsisScore] is positive
    exactly when [a] has the smaller score. *)
Theorem ranking_is_in_descending_order (engine : list ScoredRoute -> list ScoredRoute)
    (scored : list ScoredRoute) :
  finiteScores scored = true ->
  let out := rankRoutes engine scored in
  Permutation (map rr_route out) scored /\
  map rank out = seq 1 (List.length scored) /\
  descending (map rr_route out) /\
  (forall x y, before x y scored -> topsisScore x = topsisScore y ->
               before x y (map rr_route out)).
Proof.
  intros Hf. cbv zeta. unfold rankRoutes, Array_sort. rewrite Hf.
  destruct (assignRanks_spec (sortByScore scored) 0) as [E1 E2].
  rewrite E1, E2. repeat split.
  - apply sortByScore_perm.
  - f_equal. apply Permutation_length, sortByScore_perm.
  - apply sortByScore_descending, finiteScores_noNaN, Hf.
  - intros x y. apply sortByScore_ties.
Qed.

(** The two routes that differ in cost: the dearer one, which stands second,
    has score 1 and comes out first. *)
Lemma ranking_is_in_descending_order_witness :
  let ideals := findIdealSolutions [cheapRoute; dearRoute] in
  let scored :=
    calculateDistances [cheapRoute; dearRoute] (positiveIdeal ideals) (negativeIdeal ideals) in
  let out := rankRoutes (fun l => l) scored in
  map topsisScore scored = [0; 1] /\
  map (fun r => (route_id (sr_route (rr_route r)), rank r)) out
    = [("semeru_summit", 1%nat); ("merapi_summit", 2%nat)] /\
  descending (map rr_route out).
Proof.
  cbv zeta. split; [vm_compute; reflexivity|]. split; [vm_compute; reflexivity|].
  apply (ranking_is_in_descending_order (fun l => l)
           (calculateDistances [cheapRoute; dearRoute]
              (positiveIdeal (findIdealSolutions [cheapRoute; dearRoute]))
              (negativeIdeal (findIdealSolutions [cheapRoute; dearRoute])))).
  vm_compute. reflexivity.
Defined.

(** *** A NaN score admits no descending order *)

(** A comparison with NaN is false: an array of two or more routes that
    holds a NaN score is not in descending order, however it is arranged. *)
Lemma nan_score_is_never_in_order (l : list ScoredRoute) (r : ScoredRoute) :
  In r l -> is_nan (topsisScore r) = true -> (2 <= List.length l)%nat -> ~ descending l.
Proof.
  intros Hin Hn Hlen Hd. apply is_nan_spec in Hn.
  destruct l as [|x [|y l]]; simpl in Hlen; try lia.
  apply StronglySorted_inv in Hd. destruct Hd as [_ Hd].
  rewrite Forall_forall in Hd.
  destruct Hin as [-> | Hin].
  - specialize (Hd y (or_introl eq_refl)). apply leb_not_nan in Hd.
    destruct Hd as [_ Hd]. now apply Hd.
  - specialize (Hd r Hin). apply leb_not_nan in Hd.
    destruct Hd as [Hd _]. now apply Hd.
Qed.

(** C3 (the code departs from the claim).  For the three routes of which the
    second has no criterion value, [calculateDistances] with the ideals of
    [findIdealSolutions] gives the scores 0.5, NaN and 1: same defect as C2.
    No arrangement of these scored routes is in descending order, and step 8
    does not return one, whatever order the implementation's [sort] leaves
    the array in: the comparator answers NaN for every pair that involves
    the second route. *)
Theorem C3_nan_score_breaks_descending_order :
  let ideals := findIdealSolutions gapMatrix in
  let scored := calculateDistances gapMatrix (positiveIdeal ideals) (negativeIdeal ideals) in
  map topsisScore scored = [0.5; nan; 1] /\
  finiteScores scored = false /\
  (forall out, Permutation out scored -> ~ descending out) /\
  (forall engine, Permutation (engine scored) scored ->
                  ~ descending (map rr_route (rankRoutes engine scored))).
Proof.
  cbv zeta.
  set (scored := calculateDistances gapMatrix _ _).
  assert (Es : map topsisScore scored = [0.5; nan; 1]) by (vm_compute; reflexivity).
  assert (Ef : finiteScores scored = false) by (vm_compute; reflexivity).
  assert (Hall : forall out, Permutation out scored -> ~ descending out).
  { intros out Hp.
    assert (Hr : exists r, In r scored /\ is_nan (topsisScore r) = true).
    { exists (nth 1 scored (scoreRoute [] [] cheapRoute)). split.
      - vm_compute. right. left. reflexivity.
      - vm_compute. reflexivity. }
    destruct Hr as [r [Hin Hn]].
    apply (nan_score_is_never_in_order out r).
    - exact (Permutation_in r (Permutation_sym Hp) Hin).
    - exact Hn.
    - rewrite (Permutation_length Hp). vm_compute. lia. }
  split; [exact Es|]. split; [exact Ef|]. split; [exact Hall|].
  intros engine Hp. unfold rankRoutes, Array_sort. rewrite Ef.
  destruct (assignRanks_spec (engine scored) 0) as [E1 _]. rewrite E1.
  now apply Hall.
Qed.

(** ** addDynamicCriteria *)

(** C6 (the code departs from the claim).  [addDynamicCriteria] builds no
    criterion: for every list of at least one route, whatever the routes and
    the preferences, the callback throws the ReferenceError of [Decimal]
    where it evaluates [new Decimal(0.6)], after the call of
    [calculateTripCost] and before the accessibility score is computed.
    Only the empty list is mapped. *)
Theorem C6_addDynamicCriteria_throws (M : MathLib) (route : Route CriterionValue)
    (routes : list (Route CriterionValue)) (p : UserPreferences) :
  withDynamicCriteria M p route = Throws (ReferenceError "Decimal") /\
  addDynamicCriteria M (route :: routes) p = Throws (ReferenceError "Decimal") /\
  addDynamicCriteria M [] p = Returns [].
Proof. repeat split. Qed.

(** The key of a mountain whose location is written in capitals, with an
    accented letter (U+00C9) and after a no-break space (U+00A0): both are
    code units above 127. *)
Definition ecrins : Mountain :=
  {| mountain_name := "Barre des Ecrins";
     mountain_location :=
       String (ascii_of_nat 160) (String (ascii_of_nat 201) "CRINS , France") |}.

Example mountainKey_above_ascii :
  mountainKey {| route_id := "ecrins"; route_name := "Barre des Ecrins"; mountain := ecrins;
                 difficulty := "Expert"; distance := 20; duration := 30;
                 criterionValues := @nil CriterionValue |}
  = String (ascii_of_nat 233) "crins".
Proof. reflexivity. Qed.

(** ** normalizeMatrix *)

(** A criterion recorded under the id [__proto__] gets no normalization
    factor: the assignment is ignored, the factor read back is the prototype
    object, the test [> 0] fails and the normalized value is 0. *)
Example proto_key_is_never_assigned :
  let routes :=
    [ with_values Seed.merapiSummit
        [ {| criterionId := "__proto__"; criterion := Seed.scenicValue;
             valueDecimal := 3 |};
          {| criterionId := "crit_cost"; criterion := Seed.estimatedCost;
             valueDecimal := 4 |} ] ] in
  normalizationFactors routes = [("crit_cost", 4)] /\
  map (fun r => map normalizedValue (criterionValues r)) (normalizeMatrix routes) = [[0; 1]].
Proof. vm_compute. split; reflexivity. Qed.

(** Every value stored under [k] in the catalog is a zero ([0] or [-0]). *)
Definition zeroColumn (k : string) (routes : list (Route CriterionValue)) : bool :=
  forallb (fun r =>
             forallb (fun cv => implb (cv_key cv =? k)%string (is_zero (valueDecimal cv)))
                     (criterionValues r))
          routes.

Lemma sumOfSquares_zeros (values : list float) :
  (forall v, In v values -> is_zero v = true) -> sumOfSquares values = 0.
Proof.
  unfold sumOfSquares. generalize (eq_refl 0). generalize 0 at 1 3 as acc.
  induction values as [|v rest IH]; intros acc Hacc Hz; [exact Hacc|].
  simpl. apply IH.
  - subst acc. destruct (is_zero_inv v (Hz v (or_introl eq_refl))) as [-> | ->];
      vm_compute; reflexivity.
  - intros x Hx. apply Hz. now right.
Qed.

Lemma columnValues_zeros (k : string) (routes : list (Route CriterionValue)) :
  zeroColumn k routes = true ->
  forall v, In v (columnValues k routes) -> is_zero v = true.
Proof.
  intros Hz v Hv. unfold columnValues in Hv. apply in_map_iff in Hv.
  destruct Hv as [r [Hv Hr]]. unfold find_cv in Hv.
  destruct (find _ (criterionValues r)) as [cv|] eqn:F.
  - apply find_some in F. destruct F as [Hin Hk]. subst v.
    unfold zeroColumn in Hz. rewrite forallb_forall in Hz.
    specialize (Hz r Hr). rewrite forallb_forall in Hz. specialize (Hz cv Hin).
    rewrite Hk in Hz. exact Hz.
  - subst v. reflexivity.
Qed.

(** Looking a key up in a table built by mapping over the keys. *)
Lemma lookup_map_keys {A : Type} (f : string -> A) (k : string) (keys : list string) (v : A) :
  lookup k (map (fun k' => (k', f k')) keys) = Some v -> v = f k.
Proof.
  induction keys as [|k' rest IH]; [discriminate|].
  simpl. destruct (k' =? k)%string eqn:E.
  - apply String.eqb_eq in E. subst k'. intros [= <-]. reflexivity.
  - exact IH.
Qed.

Lemma normalizationFactor_zero (k : string) (routes : list (Route CriterionValue)) (f : float) :
  zeroColumn k routes = true ->
  lookup k (normalizationFactors routes) = Some f -> f = 0.
Proof.
  intros Hz Hl. unfold normalizationFactors in Hl.
  apply (lookup_map_keys
           (fun key => Math_sqrt (sumOfSquares (columnValues key routes)))) in Hl.
  subst f. rewrite sumOfSquares_zeros by (apply columnValues_zeros; exact Hz).
  vm_compute. reflexivity.
Qed.


(** The seed catalog with one more criterion whose value is 0 on every route. *)
Definition snowCatalog : list (Route CriterionValue) :=
  map (fun r =>
         with_values r
           (criterionValues r ++
              [ {| criterionId := "crit_snow";
                   criterion := Seed.criterionOf "Snow Cover" "Experience Quality" true 0.0;
                   valueDecimal := 0 |} ])%list)
      Seed.catalog.


(** ** calculateTripCost *)

Lemma lookup_In {A : Type} (k : string) (o : list (string * A)) (v : A) :
  lookup k o = Some v -> In (k, v) o.
Proof.
  induction o as [|[k' v'] o IH]; [discriminate|].
  simpl. destruct (k' =? k)%string eqn:E.
  - apply String.eqb_eq in E. intros [= ->]. left. now subst.
  - intros H. right. now apply IH.
Qed.


(** C8.  For a group of one on a one-day trip at budget level, with neither
    guide nor equipment, whatever the locations and the difficulty: guide,
    equipment and accommodation are 0, and the total is the rounded sum of
    transportation, permits, meals and the 10% buffer on these three alone.
    The sums are those of the amounts before rounding, as the code rounds
    each field on its own. *)
Theorem C8_solo_day_trip_cost (M : MathLib) (userLoc mountainLoc difficulty : string) :
  let input :=
    {| Cost.userLocation := userLoc; Cost.mountainLocation := mountainLoc;
       Cost.routeDifficulty := difficulty; Cost.duration := 1; Cost.groupSize := 1;
       Cost.needsGuide := false; Cost.needsEquipment := false;
       Cost.budgetLevel := Cost.budget |} in
  let r := Cost.calculateTripCost M input in
  let transportation := Cost.calculateTransportationCost M userLoc mountainLoc 1 in
  let permits := Cost.calculatePermitCost mountainLoc difficulty 1 in
  let meals := Cost.calculateMealCost 1 1 Cost.budget in
  let miscellaneous := (transportation + permits + meals) * 0.1 in
  Cost.guide r = 0 /\ Cost.equipment r = 0 /\ Cost.accommodation r = 0 /\
  Cost.transportation r = Math_round transportation /\
  Cost.permits r = Math_round permits /\
  Cost.meals r = Math_round meals /\
  Cost.miscellaneous r = Math_round miscellaneous /\
  Cost.total r = Math_round (transportation + permits + meals + miscellaneous).
Proof.
  cbv zeta. unfold Cost.calculateTripCost.
  cbn [Cost.guide Cost.equipment Cost.accommodation Cost.transportation Cost.permits
       Cost.meals Cost.miscellaneous Cost.total Cost.userLocation Cost.mountainLocation
       Cost.routeDifficulty Cost.duration Cost.groupSize Cost.needsGuide
       Cost.needsEquipment Cost.budgetLevel].
  change (Cost.calculateGuideCost difficulty 1 1 false) with 0.
  change (Cost.calculateEquipmentCost false 1 1 difficulty) with 0.
  replace (Cost.calculateAccommodationCost 1 1 Cost.budget) with 0
    by (vm_compute; reflexivity).
  replace (Cost.calculateMealCost 1 1 Cost.budget) with 50000 by (vm_compute; reflexivity).
  replace (Math_round 0) with 0 by (vm_compute; reflexivity).
  generalize (Cost.calculateTransportationCost M userLoc mountainLoc 1) as T.
  generalize (Cost.calculatePermitCost mountainLoc difficulty 1) as P.
  intros P T. repeat (split; [reflexivity|]).
  assert (E1 : T + P + 0 + 0 + 50000 = T + P + 50000).
  { destruct (add_zero_r (T + P)) as [E | E].
    - now rewrite !E.
    - rewrite E. vm_compute. reflexivity. }
  rewrite E1. destruct (add_zero_r (T + P + 50000)) as [E | E].
  - rewrite E. split; reflexivity.
  - exfalso. apply add_neg_zero in E. destruct E as [_ E].
    apply (f_equal Prim2SF) in E. vm_compute in E. discriminate.
Qed.

(** The values a table of rates can answer. *)
Lemma number_or_values (k : string) (table : list (string * float)) (d : float) :
  number_or table k d = d \/ number_or table k d = nan \/
  In (number_or table k d) (map (fun kv => or_num (snd kv) d) table).
Proof.
  unfold number_or. destruct (lookup k table) as [v|] eqn:L.
  - right. right. apply lookup_In in L.
    apply (in_map (fun kv => or_num (snd kv) d)) in L. exact L.
  - destruct (includes k objectPrototypeKeys); [right|]; now left.
Qed.

(** When the user's location is not in the table the distance is the fallback
    of 300 km, every amount is a whole number (or every sum is NaN, for a
    mountain or a difficulty named like an inherited property), and the
    returned fields do add up to the returned total. *)
Lemma fallback_fields_add_up (M : MathLib) (userLoc mountainLoc difficulty : string) :
  coordinatesOf (toLowerCase userLoc) = None ->
  let r := Cost.calculateTripCost M
             {| Cost.userLocation := userLoc; Cost.mountainLocation := mountainLoc;
                Cost.routeDifficulty := difficulty; Cost.duration := 1;
                Cost.groupSize := 1; Cost.needsGuide := false;
                Cost.needsEquipment := false; Cost.budgetLevel := Cost.budget |} in
  Cost.total r =
  Cost.transportation r + Cost.permits r + Cost.meals r + Cost.miscellaneous r.
Proof.
  intros Hu. cbv zeta. unfold Cost.calculateTripCost.
  cbn [Cost.transportation Cost.permits Cost.meals Cost.miscellaneous Cost.total
       Cost.userLocation Cost.mountainLocation Cost.routeDifficulty Cost.duration
       Cost.groupSize Cost.needsGuide Cost.needsEquipment Cost.budgetLevel].
  unfold Cost.calculateTransportationCost, calculateTransportDistance. rewrite Hu.
  unfold Cost.calculatePermitCost.
  pose proof (number_or_values mountainLoc Cost.permitRates
                (or_undef (lookup "default" Cost.permitRates) nan)) as Hp.
  pose proof (number_or_values difficulty Cost.difficultyMultipliers 1.0) as Hd.
  revert Hp Hd.
  generalize (number_or Cost.permitRates mountainLoc
                (or_undef (lookup "default" Cost.permitRates) nan)) as basePermit.
  generalize (number_or Cost.difficultyMultipliers difficulty 1.0)
    as difficultyMultiplier.
  intros difficultyMultiplier basePermit Hp Hd.
  assert (Hp' : In basePermit [120000; nan; 150000; 200000; 100000]).
  { destruct Hp as [-> | [-> | Hp]]; [now left|right; now left|].
    simpl in Hp. repeat (destruct Hp as [<- | Hp]; [vm_compute; tauto|]). contradiction. }
  assert (Hd' : In difficultyMultiplier [1.0; nan; 1.2; 1.5; 2.0]).
  { destruct Hd as [-> | [-> | Hd]]; [now left|right; now left|].
    simpl in Hd. repeat (destruct Hd as [<- | Hd]; [vm_compute; tauto|]). contradiction. }
  clear Hp Hd. simpl in Hp', Hd'.
  repeat (destruct Hp' as [<- | Hp']; [|]); try contradiction;
    repeat (destruct Hd' as [<- | Hd']; [vm_compute; reflexivity|]); contradiction.
Qed.

(** The trip of the claim for a hiker from Surabaya to Mount Rinjani (Lombok)
    on a Hard route. *)
Definition surabayaToLombok : Cost.CostCalculationInput :=
  {| Cost.userLocation := "surabaya"; Cost.mountainLocation := "lombok";
     Cost.routeDifficulty := "Hard"; Cost.duration := 1; Cost.groupSize := 1;
     Cost.needsGuide := false; Cost.needsEquipment := false;
     Cost.budgetLevel := Cost.budget |}.

(** C8, as stated on the returned fields, fails: each field is rounded on its
    own.  From Surabaya to Lombok (403.79 km) the transportation is
    134597.57 and the buffer 40959.76, both rounded up, while the total
    450557.33 is rounded down: the returned fields add up to 450558 and the
    returned total is 450557. *)
Lemma C8_returned_fields_do_not_add_up :
  let r := Cost.calculateTripCost approxMath surabayaToLombok in
  Cost.guide r = 0 /\ Cost.equipment r = 0 /\ Cost.accommodation r = 0 /\
  Cost.transportation r + Cost.permits r + Cost.meals r + Cost.miscellaneous r = 450558 /\
  Cost.total r = 450557 /\
  (Cost.total r =?
   Cost.transportation r + Cost.permits r + Cost.meals r + Cost.miscellaneous r) = false.
Proof. vm_compute. repeat split; reflexivity. Qed.

(** ** calculateTransportDistance *)

(** The cosine of every latitude of the table is within [-1, 1]. *)
Definition cosineInRange (M : MathLib) : bool :=
  forallb (fun e => abs (Math_cos M (toRadians (latitude (snd e)))) <=? 1)
          LOCATION_COORDINATES.

(** Lower-case strings: [toLowerCase] changes nothing twice. *)
Lemma lower_ascii_idem (c : ascii) : lower_ascii (lower_ascii c) = lower_ascii c.
Proof. destruct c as [[] [] [] [] [] [] [] []]; reflexivity. Qed.

Lemma toLowerCase_idem (s : string) : toLowerCase (toLowerCase s) = toLowerCase s.
Proof.
  induction s as [|c s IH]; [reflexivity|].
  cbn [toLowerCase]. now rewrite lower_ascii_idem, IH.
Qed.

(** Of the names that an object inherits, two are written in lower case. *)
Lemma inherited_lower_case (k : string) :
  includes (toLowerCase k) objectPrototypeKeys = true <->
  toLowerCase k = "constructor" \/ toLowerCase k = "__proto__".
Proof.
  split.
  - intros H. unfold includes in H. apply existsb_exists in H.
    destruct H as [key [Hin E]]. apply String.eqb_eq in E.
    pose proof (toLowerCase_idem k) as I. rewrite E in I. rewrite E.
    simpl in Hin.
    repeat (destruct Hin as [<- | Hin];
            [first [left; reflexivity | right; reflexivity
                   | exfalso; vm_compute in I; discriminate]|]).
    contradiction.
  - intros [-> | ->]; reflexivity.
Qed.

Lemma mul_nan_r (a : float) : a * nan = nan.
Proof.
  apply Prim2SF_inj. rewrite mul_spec. change (Prim2SF nan) with S754_nan.
  destruct (Prim2SF a) as [[]|[]| |[] m e]; reflexivity.
Qed.

Section Distance.
Variable M : MathLib.

(** What ECMAScript fixes for the three functions: [Math.sin(+0)] is [+0];
    [Math.atan2(+0, x)] is [+0] for [x > 0]; [Math.sin(NaN)] and
    [Math.atan2(NaN, NaN)] are NaN.  The cosine is only assumed to stay
    within [-1, 1] at the latitudes of the table. *)
Hypothesis sin_zero : Math_sin M 0 = 0.
Hypothesis atan2_zero : Math_atan2 M 0 1 = 0.
Hypothesis cos_range : cosineInRange M = true.
Hypothesis sin_nan : Math_sin M nan = nan.
Hypothesis atan2_nan : Math_atan2 M nan nan = nan.

Lemma haversine_same_point (lat lon : float) :
  lat - lat = 0 -> lon - lon = 0 ->
  (abs (Math_cos M (toRadians lat)) <=? 1) = true ->
  haversineDistance M {| latitude := lat; longitude := lon |}
                      {| latitude := lat; longitude := lon |} = 0.
Proof.
  intros Hlat Hlon Hcos. unfold haversineDistance. cbn [latitude longitude].
  rewrite Hlat, Hlon.
  change (toRadians 0 / 2) with 0. rewrite sin_zero.
  pose proof (mul_unit_finite _ _ Hcos Hcos) as Hfin.
  destruct (mul_zero_r _ Hfin) as [E | E]; rewrite E;
    change (6371 * (2 * Math_atan2 M 0 1) = 0); rewrite atan2_zero; reflexivity.
Qed.

Lemma haversine_table_entry (e : string * Coordinates) :
  In e LOCATION_COORDINATES -> haversineDistance M (snd e) (snd e) = 0.
Proof.
  intros He.
  assert (Hcos : (abs (Math_cos M (toRadians (latitude (snd e)))) <=? 1) = true).
  { unfold cosineInRange in cos_range. rewrite forallb_forall in cos_range.
    now apply cos_range. }
  destruct e as [k [lat lon]]. cbn [snd latitude] in *.
  apply haversine_same_point; [| |exact Hcos];
    unfold LOCATION_COORDINATES in He; simpl in He;
    repeat (destruct He as [He | He]; [injection He as <- <- <-; reflexivity|]);
    contradiction.
Qed.

(** The distance between two values that have no [latitude] and no
    [longitude]. *)
Lemma haversine_undefined :
  haversineDistance M {| latitude := nan; longitude := nan |}
                      {| latitude := nan; longitude := nan |} = nan.
Proof.
  unfold haversineDistance. cbn [latitude longitude].
  change (toRadians (nan - nan) / 2) with nan. rewrite sin_nan.
  rewrite !mul_nan_r. change (nan + nan) with nan.
  change (Math_sqrt nan) with nan. change (Math_sqrt (1 - nan)) with nan.
  rewrite atan2_nan. reflexivity.
Qed.


End Distance.



(** ** Routes that are identical on every criterion *)

(** Every key of a route is in the set collected by [allCriteria]. *)
Lemma add_key_In (s : list string) (k k' : string) :
  In k' s \/ k' = k -> In k' (add_key s k).
Proof.
  unfold add_key. destruct (includes k s) eqn:E.
  - intros [H | ->]; [exact H|].
    unfold includes in E. apply existsb_exists in E. destruct E as [x [Hx Ex]].
    apply String.eqb_eq in Ex. now subst x.
  - intros [H | ->]; apply in_or_app; [now left | right; now left].
Qed.

Lemma fold_add_key_In {V : Type} (key : V -> string) (l : list V) (s : list string)
    (k : string) :
  In k s \/ In k (map key l) -> In k (fold_left (fun s cv => add_key s (key cv)) l s).
Proof.
  revert s. induction l as [|cv l IH]; intros s H; simpl in *.
  - destruct H as [H | []]. exact H.
  - apply IH. destruct H as [H | [H | H]].
    + left. apply add_key_In. now left.
    + left. apply add_key_In. right. now symmetry.
    + now right.
Qed.

Lemma allCriteria_keeps {V : Type} (key : V -> string) (routes : list (Route V))
    (s : list string) (k : string) :
  In k s ->
  In k (fold_left (fun s r => fold_left (fun s cv => add_key s (key cv))
                                        (criterionValues r) s)
                  routes s).
Proof.
  revert s. induction routes as [|r routes IH]; intros s H; simpl; [exact H|].
  apply IH. apply fold_add_key_In. now left.
Qed.

Lemma allCriteria_In {V : Type} (key : V -> string) (routes : list (Route V))
    (r : Route V) (cv : V) :
  In r routes -> In cv (criterionValues r) -> In (key cv) (allCriteria key routes).
Proof.
  intros Hr Hcv. unfold allCriteria. generalize (@nil string) as s.
  induction routes as [|r0 routes IH]; intros s; [contradiction|].
  simpl. destruct Hr as [-> | Hr].
  - apply allCriteria_keeps. apply fold_add_key_In. right. now apply in_map.
  - now apply IH.
Qed.

Lemma lookup_map_keys_In {A : Type} (f : string -> A) (k : string) (keys : list string) :
  In k keys -> lookup k (map (fun k' => (k', f k')) keys) = Some (f k).
Proof.
  induction keys as [|k' rest IH]; [contradiction|].
  simpl. destruct (k' =? k)%string eqn:E.
  - apply String.eqb_eq in E. now subst k'.
  - intros [H | H]; [|now apply IH].
    subst k'. now rewrite String.eqb_refl in E.
Qed.

Lemma lookup_map_keys_None {A : Type} (f : string -> A) (k : string) (keys : list string) :
  ~ In k keys -> lookup k (map (fun k' => (k', f k')) keys) = None.
Proof.
  induction keys as [|k' rest IH]; intros H; [reflexivity|].
  simpl. destruct (k' =? k)%string eqn:E.
  - apply String.eqb_eq in E. exfalso. apply H. now left.
  - apply IH. intros Hin. apply H. now right.
Qed.

(** What is read under a key from an object that got one property per
    assignable key. *)
Lemma get_assigned (f : string -> float) (keys : list string) (k : string) :
  In k keys ->
  get (map (fun k' => (k', f k')) (filter assignable keys)) k =
  if assignable k then f k else nan.
Proof.
  intros H. unfold get. destruct (assignable k) eqn:A.
  - rewrite (lookup_map_keys_In f k); [reflexivity|]. apply filter_In. now split.
  - rewrite lookup_map_keys_None; [reflexivity|].
    intros Hin. apply filter_In in Hin. destruct Hin as [_ Hin]. congruence.
Qed.

(** With distinct keys, looking a value up by its key finds that value. *)
Lemma find_by_key {V : Type} (key : V -> string) (l : list V) (cv : V) :
  NoDup (map key l) -> In cv l ->
  find (fun c => String.eqb (key c) (key cv)) l = Some cv.
Proof.
  induction l as [|c l IH]; intros Hd Hin; [contradiction|].
  simpl in *. apply NoDup_cons_iff in Hd. destruct Hd as [Hc Hd].
  destruct Hin as [-> | Hin].
  - now rewrite String.eqb_refl.
  - destruct (String.eqb (key c) (key cv)) eqn:E; [|now apply IH].
    apply String.eqb_eq in E. exfalso. apply Hc. rewrite E. now apply in_map.
Qed.

(** [Math.max] and [Math.min] of one number repeated. *)
Lemma ltb_irrefl (x : float) : (x <? x) = false.
Proof.
  rewrite ltb_spec. unfold SFltb, SFcompare.
  destruct (Prim2SF x) as [[]|[]| |[] m e]; try reflexivity;
    rewrite Z.compare_refl, Pos.compare_cont_refl; reflexivity.
Qed.

Lemma max_step_same (x : float) : is_nan x = false -> max_step x x = x.
Proof.
  intros N. unfold max_step. rewrite N, ltb_irrefl. cbn [orb].
  destruct (is_zero x && is_zero x && get_sign x && negb (get_sign x)); reflexivity.
Qed.

Lemma min_step_same (x : float) : is_nan x = false -> min_step x x = x.
Proof.
  intros N. unfold min_step. rewrite N, ltb_irrefl. cbn [orb].
  destruct (is_zero x && is_zero x && get_sign x && negb (get_sign x)); reflexivity.
Qed.

Lemma Math_max_same (x : float) (l : list float) :
  is_nan x = false -> l <> [] -> Forall (eq x) l -> Math_max l = x.
Proof.
  intros N Hne Hall. destruct l as [|y l]; [congruence|].
  apply Forall_cons_iff in Hall. destruct Hall as [<- Hall].
  unfold Math_max. cbn [fold_left].
  change (max_step neg_infinity x) with (Math_max [x]). rewrite (Math_max_single x N).
  induction l as [|z l IH]; [reflexivity|].
  apply Forall_cons_iff in Hall. destruct Hall as [<- Hall].
  cbn [fold_left]. rewrite (max_step_same x N). now apply IH.
Qed.

Lemma Math_min_same (x : float) (l : list float) :
  is_nan x = false -> l <> [] -> Forall (eq x) l -> Math_min l = x.
Proof.
  intros N Hne Hall. destruct l as [|y l]; [congruence|].
  apply Forall_cons_iff in Hall. destruct Hall as [<- Hall].
  unfold Math_min. cbn [fold_left].
  change (min_step infinity x) with (Math_min [x]). rewrite (Math_min_single x N).
  induction l as [|z l IH]; [reflexivity|].
  apply Forall_cons_iff in Hall. destruct Hall as [<- Hall].
  cbn [fold_left]. rewrite (min_step_same x N). now apply IH.
Qed.

Lemma sub_nan_zeroOrNaN (w : float) : zeroOrNaN (w - nan).
Proof.
  unfold zeroOrNaN. rewrite sub_spec. change (Prim2SF nan) with S754_nan.
  destruct (Prim2SF w) as [[]|[]| |[] m e]; exact I.
Qed.

(** Both ideals of a column in which every route has the value of [cv]. *)
Lemma identical_ideals (r : Route WeightedValue) (routes : list (Route WeightedValue))
    (cv : WeightedValue) :
  NoDup (map wv_key (criterionValues r)) -> routes <> [] ->
  Forall (fun r' => criterionValues r' = criterionValues r) routes ->
  In cv (criterionValues r) ->
  idealsOfColumn (wv_key cv) routes =
  (or_num (weightedValue cv) 0, or_num (weightedValue cv) 0).
Proof.
  intros Hd Hne Hsame Hcv. rewrite idealsOfColumn_max_min.
  assert (Hn : is_nan (or_num (weightedValue cv) 0) = false)
    by (apply or_num_not_nan; reflexivity).
  assert (Hall : Forall (eq (or_num (weightedValue cv) 0))
                        (map fst (map (idealEntry (wv_key cv)) routes))).
  { rewrite map_map. apply Forall_map. apply Forall_impl with (2 := Hsame).
    intros r' E. unfold idealEntry, find_cv.
    now rewrite E, (find_by_key wv_key _ cv Hd Hcv). }
  assert (Hl : map fst (map (idealEntry (wv_key cv)) routes) <> [])
    by (destruct routes; [congruence|discriminate]).
  now rewrite (Math_max_same _ _ Hn Hl Hall), (Math_min_same _ _ Hn Hl Hall).
Qed.

(** C2 (the code departs from the claim).  For routes that are identical on
    every criterion (one route alone is such a list), with every criterion
    recorded once, [calculateDistances] with the ideals of
    [findIdealSolutions] gives every route the score NaN: both ideals
    coincide with the route's values, both distances are zero (or NaN), and
    the quotient is not guarded. *)
Theorem C2_identical_routes_score_is_nan (r : Route WeightedValue)
    (routes : list (Route WeightedValue)) :
  NoDup (map wv_key (criterionValues r)) -> routes <> [] ->
  Forall (fun r' => criterionValues r' = criterionValues r) routes ->
  let ideals := findIdealSolutions routes in
  let scored := calculateDistances routes (positiveIdeal ideals) (negativeIdeal ideals) in
  List.length scored = List.length routes /\
  Forall (fun s => is_nan (topsisScore s) = true /\
                   (0 <=? topsisScore s) = false /\ (topsisScore s <=? 1) = false)
         scored.
Proof.
  intros Hd Hne Hsame. cbv zeta. split; [apply length_map|].
  set (pos := positiveIdeal (findIdealSolutions routes)).
  set (neg := negativeIdeal (findIdealSolutions routes)).
  assert (Hstep : forall cv, In cv (criterionValues r) ->
            zeroOrNaN (weightedValue cv - get pos (wv_key cv)) /\
            zeroOrNaN (weightedValue cv - get neg (wv_key cv))).
  { intros cv Hcv.
    assert (Hk : In (wv_key cv) (allCriteria wv_key routes)).
    { destruct routes as [|r0 rest]; [congruence|].
      apply Forall_cons_iff in Hsame. destruct Hsame as [E _].
      apply (allCriteria_In wv_key _ r0 cv); [now left|now rewrite E]. }
    subst pos neg. unfold findIdealSolutions. cbn [positiveIdeal negativeIdeal].
    rewrite (get_assigned (fun k => fst (idealsOfColumn k routes)) _ _ Hk).
    rewrite (get_assigned (fun k => snd (idealsOfColumn k routes)) _ _ Hk).
    rewrite (identical_ideals r routes cv Hd Hne Hsame Hcv). cbn [fst snd].
    destruct (assignable (wv_key cv)); split;
      first [apply sub_or_zero | apply sub_nan_zeroOrNaN]. }
  assert (Hacc : forall l acc, incl l (criterionValues r) ->
            zeroOrNaN (fst acc) -> zeroOrNaN (snd acc) ->
            zeroOrNaN (fst (fold_left (distanceStep pos neg) l acc)) /\
            zeroOrNaN (snd (fold_left (distanceStep pos neg) l acc))).
  { induction l as [|cv l IH]; intros acc Hl H1 H2; [now split|].
    cbn [fold_left]. apply IH.
    - intros x Hx. apply Hl. now right.
    - unfold distanceStep. cbn [fst]. apply add_zeroOrNaN; [exact H1|].
      apply square_zeroOrNaN. apply Hstep, Hl. now left.
    - unfold distanceStep. cbn [snd]. apply add_zeroOrNaN; [exact H2|].
      apply square_zeroOrNaN. apply Hstep, Hl. now left. }
  unfold calculateDistances. apply Forall_map.
  apply Forall_impl with (2 := Hsame). intros r' E.
  assert (Hn : is_nan (topsisScore (scoreRoute pos neg r')) = true).
  { unfold scoreRoute. cbn [topsisScore]. rewrite E.
    destruct (Hacc (criterionValues r) (0, 0) (incl_refl _) I I) as [H1 H2].
    apply score_nan; now apply sqrt_zeroOrNaN. }
  split; [exact Hn|]. apply is_nan_spec in Hn.
  rewrite !leb_spec, Hn. split; [reflexivity|].
  unfold SFleb, SFcompare. reflexivity.
Qed.

(** Two routes with the same weighted cost. *)
Definition twins : list (Route WeightedValue) :=
  [ cheapRoute; with_values Seed.semeruSummit (criterionValues cheapRoute) ].

Lemma C2_identical_routes_score_is_nan_witness :
  let ideals := findIdealSolutions twins in
  let scored := calculateDistances twins (positiveIdeal ideals) (negativeIdeal ideals) in
  map (fun s => (distanceToPositive s, distanceToNegative s, topsisScore s)) scored
    = [ (0, 0, nan); (0, 0, nan) ] /\
  Forall (fun s => is_nan (topsisScore s) = true /\
                   (0 <=? topsisScore s) = false /\ (topsisScore s <=? 1) = false)
         scored.
Proof.
  cbv zeta. split; [vm_compute; reflexivity|].
  apply (C2_identical_routes_score_is_nan cheapRoute twins).
  - cbn. repeat constructor. intros [].
  - discriminate.
  - repeat constructor.
Defined.

(** ** Every score is NaN or lies between 0 and 1 *)

(** X23.  Every score that [calculateDistances] computes is NaN or lies
    between 0 and 1, whatever the weighted matrix and the ideals are: the
    quotient [distanceToNegative / (distanceToPositive + distanceToNegative)]
    of two square roots does not leave that range, the roundings of the sum
    and of the quotient included. *)
Theorem scores_are_nan_or_within_0_and_1 (routes : list (Route WeightedValue))
    (positiveIdeal negativeIdeal : list (string * float)) :
  Forall (fun s => is_nan s = true \/ ((0 <=? s) = true /\ (s <=? 1) = true))
         (map topsisScore (calculateDistances routes positiveIdeal negativeIdeal)).
Proof.
  unfold calculateDistances. rewrite map_map. apply Forall_map, Forall_forall.
  intros route _. cbn [topsisScore scoreRoute].
  apply score_between; apply sqrt_notNegative.
Qed.

(* ================================================================== *)
(** ** Raising one raw value *)
(* ================================================================== *)

(** [{ ...cv, valueDecimal: v }] for a criterion value recorded under the key
    [k]; any other criterion value is left as it is. *)
Definition setValue (k : string) (v : float) (cv : CriterionValue) : CriterionValue :=
  if String.eqb (cv_key cv) k then
    {| criterionId := criterionId cv; criterion := criterion cv; valueDecimal := v |}
  else cv.

(** The catalog with one raw value replaced: the value that the route [id]
    has under the criterion key [k]. *)
Definition withValue (id k : string) (v : float) (routes : list (Route CriterionValue))
  : list (Route CriterionValue) :=
  map (fun r =>
         if String.eqb (route_id r) id
         then with_values r (map (setValue k v) (criterionValues r))
         else r)
      routes.

(** Steps 4 and 5 of [runTopsisAnalysis]: [weightedRoutes]. *)
Definition weightedRoutes (routes : list (Route CriterionValue))
    (factorWeights : list FactorWeight) (userWeights : Weights)
  : list (Route WeightedValue) :=
  applyWeights (normalizeMatrix routes) factorWeights userWeights.

(** A weighted matrix without the column of the key [k]. *)
Definition otherColumn (k : string) (cv : WeightedValue) : bool :=
  negb (String.eqb (wv_key cv) k).

Definition otherColumns (k : string) (routes : list (Route WeightedValue))
  : list (Route WeightedValue) :=
  map (fun r => with_values r (filter (otherColumn k) (criterionValues r))) routes.

(** The keys of a matrix, route by route. *)
Definition keysOf {V : Type} (key : V -> string) (routes : list (Route V))
  : list (list string) :=
  map (fun r => map key (criterionValues r)) routes.

Lemma allCriteria_keysOf {V : Type} (key : V -> string) (routes : list (Route V)) :
  allCriteria key routes =
  fold_left (fun s ks => fold_left add_key ks s) (keysOf key routes) [].
Proof.
  unfold allCriteria, keysOf. generalize (@nil string) as s.
  induction routes as [|r routes IH]; intros s; [reflexivity|].
  cbn [fold_left map]. rewrite IH. f_equal.
  generalize s. clear. induction (criterionValues r) as [|cv l IH]; intros s; [reflexivity|].
  cbn [fold_left map]. apply IH.
Qed.

Lemma cv_key_setValue (k : string) (v : float) (cv : CriterionValue) :
  cv_key (setValue k v cv) = cv_key cv.
Proof. unfold setValue. destruct (String.eqb (cv_key cv) k); reflexivity. Qed.

Lemma keysOf_withValue (id k : string) (v : float) (routes : list (Route CriterionValue)) :
  keysOf cv_key (withValue id k v routes) = keysOf cv_key routes.
Proof.
  unfold keysOf, withValue. rewrite map_map. apply map_ext. intros r.
  destruct (String.eqb (route_id r) id); [|reflexivity].
  cbn [with_values criterionValues]. rewrite map_map. apply map_ext.
  intros cv. apply cv_key_setValue.
Qed.

(** Under another key the route has the criterion value it had. *)
Lemma find_setValue (k k' : string) (v : float) (l : list CriterionValue) :
  k' <> k ->
  find (fun cv => String.eqb (cv_key cv) k') (map (setValue k v) l) =
  find (fun cv => String.eqb (cv_key cv) k') l.
Proof.
  intros N. induction l as [|cv l IH]; [reflexivity|].
  cbn [map find]. rewrite cv_key_setValue.
  destruct (String.eqb (cv_key cv) k') eqn:E; [|exact IH].
  apply String.eqb_eq in E. unfold setValue.
  destruct (String.eqb (cv_key cv) k) eqn:E'; [|reflexivity].
  apply String.eqb_eq in E'. congruence.
Qed.

Lemma columnValues_withValue (id k k' : string) (v : float)
    (routes : list (Route CriterionValue)) :
  k' <> k -> columnValues k' (withValue id k v routes) = columnValues k' routes.
Proof.
  intros N. unfold columnValues, withValue. rewrite map_map. apply map_ext. intros r.
  unfold find_cv. destruct (String.eqb (route_id r) id); [|reflexivity].
  cbn [with_values criterionValues]. now rewrite find_setValue.
Qed.

(** Two objects with the same keys agree under a key on which the values
    computed for them agree. *)
Lemma lookup_map_keys_ext {A : Type} (f g : string -> A) (k : string) (keys : list string) :
  f k = g k ->
  lookup k (map (fun k' => (k', f k')) keys) = lookup k (map (fun k' => (k', g k')) keys).
Proof.
  intros E. induction keys as [|k' keys IH]; [reflexivity|].
  cbn [map lookup]. destruct (String.eqb k' k) eqn:Ek; [|exact IH].
  apply String.eqb_eq in Ek. subst k'. now rewrite E.
Qed.

Lemma normalizationFactors_withValue (id k k' : string) (v : float)
    (routes : list (Route CriterionValue)) :
  k' <> k ->
  lookup k' (normalizationFactors (withValue id k v routes)) =
  lookup k' (normalizationFactors routes).
Proof.
  intros N. unfold normalizationFactors.
  rewrite !allCriteria_keysOf, keysOf_withValue.
  apply (lookup_map_keys_ext
           (fun c => Math_sqrt (sumOfSquares (columnValues c (withValue id k v routes))))
           (fun c => Math_sqrt (sumOfSquares (columnValues c routes)))).
  now rewrite columnValues_withValue.
Qed.

Lemma otherColumn_applyWeight (fw : list FactorWeight) (uw : Weights)
    (factors : list (string * float)) (k : string) (cv : CriterionValue) :
  otherColumn k (applyWeight fw uw (normalizeValue factors cv))
  = negb (String.eqb (cv_key cv) k).
Proof. reflexivity. Qed.

(** The other columns of one route, before and after. *)
Lemma otherColumns_of_route (fw : list FactorWeight) (uw : Weights)
    (factors factors' : list (string * float)) (k : string) (v : float)
    (l : list CriterionValue) :
  (forall k', k' <> k -> lookup k' factors' = lookup k' factors) ->
  filter (otherColumn k)
         (map (applyWeight fw uw) (map (normalizeValue factors') (map (setValue k v) l))) =
  filter (otherColumn k) (map (applyWeight fw uw) (map (normalizeValue factors) l)) /\
  filter (otherColumn k) (map (applyWeight fw uw) (map (normalizeValue factors') l)) =
  filter (otherColumn k) (map (applyWeight fw uw) (map (normalizeValue factors) l)).
Proof.
  intros Hf. induction l as [|cv l [IH1 IH2]]; [split; reflexivity|].
  cbn [map filter]. rewrite !otherColumn_applyWeight, cv_key_setValue.
  destruct (String.eqb (cv_key cv) k) eqn:E; cbn [negb]; [now split|].
  assert (N : cv_key cv <> k) by (intros H; rewrite H, String.eqb_refl in E; discriminate).
  assert (Es : setValue k v cv = cv) by (unfold setValue; now rewrite E).
  assert (En : normalizeValue factors' cv = normalizeValue factors cv)
    by (unfold normalizeValue; now rewrite (Hf _ N)).
  rewrite Es, En, IH1, IH2. now split.
Qed.

Lemma otherColumns_withValue (id k : string) (v : float)
    (routes : list (Route CriterionValue)) (fw : list FactorWeight) (uw : Weights) :
  otherColumns k (weightedRoutes (withValue id k v routes) fw uw) =
  otherColumns k (weightedRoutes routes fw uw).
Proof.
  unfold otherColumns, weightedRoutes, applyWeights, normalizeMatrix. cbv zeta.
  pose proof (fun k' N => normalizationFactors_withValue id k k' v routes N) as Hf.
  unfold withValue at 2. rewrite !map_map. apply map_ext. intros r.
  destruct (otherColumns_of_route fw uw _ _ k v (criterionValues r) Hf) as [E1 E2].
  destruct (String.eqb (route_id r) id); cbn [with_values criterionValues route_id
    route_name mountain difficulty distance duration]; [now rewrite E1 | now rewrite E2].
Qed.

Lemma keysOf_weightedRoutes (routes : list (Route CriterionValue))
    (fw : list FactorWeight) (uw : Weights) :
  keysOf wv_key (weightedRoutes routes fw uw) = keysOf cv_key routes.
Proof.
  unfold keysOf, weightedRoutes, applyWeights, normalizeMatrix. cbv zeta.
  rewrite !map_map. apply map_ext. intros r. cbn [with_values criterionValues].
  rewrite !map_map. reflexivity.
Qed.

(** A column is read from the matrix without another column as from the
    whole matrix. *)
Lemma find_otherColumn (k k' : string) (l : list WeightedValue) :
  k' <> k ->
  find (fun cv => String.eqb (wv_key cv) k') (filter (otherColumn k) l) =
  find (fun cv => String.eqb (wv_key cv) k') l.
Proof.
  intros N. induction l as [|cv l IH]; [reflexivity|].
  cbn [filter find]. unfold otherColumn at 1.
  destruct (String.eqb (wv_key cv) k) eqn:E; cbn [negb].
  - apply String.eqb_eq in E.
    destruct (String.eqb (wv_key cv) k') eqn:E'; [|exact IH].
    apply String.eqb_eq in E'. congruence.
  - cbn [find]. now rewrite IH.
Qed.

Lemma idealsOfColumn_otherColumns (k k' : string) (routes : list (Route WeightedValue)) :
  k' <> k -> idealsOfColumn k' (otherColumns k routes) = idealsOfColumn k' routes.
Proof.
  intros N. unfold idealsOfColumn, otherColumns. cbv zeta. rewrite map_map.
  assert (E : map (fun r => idealEntry k' (with_values r (filter (otherColumn k)
                                                    (criterionValues r)))) routes
              = map (idealEntry k') routes).
  { apply map_ext. intros r. unfold idealEntry, find_cv. cbn [with_values criterionValues].
    now rewrite find_otherColumn. }
  now rewrite E.
Qed.


(** Three routes with four criteria: Difficulty Level, Estimated Cost,
    Accessibility and Scenic Value.  The first route has the Accessibility
    [a]. *)
Definition fourValues (d cost access scenic : float) : list CriterionValue :=
  [ {| criterionId := "crit_difficulty"; criterion := Seed.difficultyLevel;
       valueDecimal := d |};
    {| criterionId := "crit_cost"; criterion := Seed.estimatedCost; valueDecimal := cost |};
    {| criterionId := "crit_accessibility"; criterion := Seed.accessibility;
       valueDecimal := access |};
    {| criterionId := "crit_scenic"; criterion := Seed.scenicValue;
       valueDecimal := scenic |} ].

Definition threeRoutes : list (Route CriterionValue) :=
  [ with_values Seed.rinjaniSummit (fourValues 3 2 4 4);
    with_values Seed.semeruSummit (fourValues 5 1 5 1);
    with_values Seed.merapiSummit (fourValues 3 4 1 3) ].

(** Three routes with three criteria: Difficulty Level, Estimated Cost and
    Scenic Value. *)
Definition threeValues (d cost scenic : float) : list CriterionValue :=
  [ {| criterionId := "crit_difficulty"; criterion := Seed.difficultyLevel;
       valueDecimal := d |};
    {| criterionId := "crit_cost"; criterion := Seed.estimatedCost; valueDecimal := cost |};
    {| criterionId := "crit_scenic"; criterion := Seed.scenicValue;
       valueDecimal := scenic |} ].

Definition scenicRoutes : list (Route CriterionValue) :=
  [ with_values Seed.rinjaniSummit (threeValues 5 4 4);
    with_values Seed.semeruSummit (threeValues 2 5 1);
    with_values Seed.merapiSummit (threeValues 1 1 1) ].

(** The scores and the ranks of a catalog for the seed factor weights and the
    user weights of the seed preferences. *)
Definition seedScores (routes : list (Route CriterionValue)) : list ScoredRoute :=
  scoredRoutes routes Seed.factorWeights (calculateUserWeights Seed.preferences).

Definition idScoreRank (r : RankedRoute) : string * float * nat :=
  (route_id (sr_route (rr_route r)), topsisScore (rr_route r), rank r).




(* ================================================================== *)
(** * Further properties: the rest of the service and its callers *)
(* ================================================================== *)

(** ** Explanations, report and persistence *)

Module ReportFacts.
Import Report.

(** A [NumberFormat] that prints whole numbers as JavaScript does; the
    examples below use it on whole numbers only. *)
Definition wholeNumber (x : float) : option Z :=
  match Prim2SF x with
  | S754_zero _ => Some 0%Z
  | S754_finite s m e =>
      if (0 <=? e)%Z then Some (signed s m * 2 ^ e)%Z
      else if (Zpos m mod 2 ^ (- e) =? 0)%Z then Some (signed s m / 2 ^ (- e))%Z
      else None
  | _ => None
  end.

Fixpoint groupThousands (fuel : nat) (n : N) : string :=
  match fuel with
  | O => NilZero.string_of_uint (N.to_uint n)
  | S fuel' =>
      if (n <? 1000)%N then NilZero.string_of_uint (N.to_uint n)
      else
        let r := (n mod 1000)%N in
        let pad := if (r <? 10)%N then "00" else if (r <? 100)%N then "0" else "" in
        groupThousands fuel' (n / 1000)%N ++ "." ++ pad ++ NilZero.string_of_uint (N.to_uint r)
  end.

Definition sampleFormat : NumberFormat :=
  {| Number_toString := fun x =>
       match wholeNumber x with
       | Some z => NilZero.string_of_int (Z.to_int z)
       | None => "NaN"
       end;
     toLocaleString_id := fun x =>
       match wholeNumber x with
       | Some z => (if (z <? 0)%Z then "-" else "") ++ groupThousands 20 (Z.abs_N z)
       | None => "NaN"
       end |}.

(** *** generateExplanations *)

Lemma In_firstn {A : Type} (n : nat) (l : list A) (x : A) : In x (firstn n l) -> In x l.
Proof.
  intros H. rewrite <- (firstn_skipn n l). apply in_or_app. now left.
Qed.

Section Explanations.
Variable F : NumberFormat.

(** X1.  Whatever the route and the preferences, [generateExplanations]
    returns at least one and at most four sentences, and the first one is
    always the sentence about the experience level: the final [slice(0, 4)]
    never drops it. *)
Theorem explanations_one_to_four (route : Route WeightedValue) (p : UserPreferences) :
  let e := generateExplanations F route p in
  (1 <= List.length e <= 4)%nat /\
  hd_error e = Some (experienceSentence route p).
Proof.
  cbv zeta. unfold generateExplanations, pushedExplanations.
  split; [|reflexivity].
  rewrite length_firstn. cbn [List.length app]. lia.
Qed.

(** The first letter of a sentence. *)
Definition initial (s : string) : option ascii := String.get 0 s.

(** The sentences pushed between the first and the last one. *)
Definition middleSentences (route : Route WeightedValue) (p : UserPreferences) : list string :=
  (fitnessSentence F route p ++ scenicSentence route p ++ challengeSentence route p
     ++ solitudeSentence route p ++ timeSentence route p)%list.

Lemma experienceSentence_initial (route : Route WeightedValue) (p : UserPreferences) :
  initial (experienceSentence route p) = Some "P"%char \/
  initial (experienceSentence route p) = Some "C"%char.
Proof.
  unfold experienceSentence.
  destruct (abs _ <=? 1); [left; reflexivity|].
  destruct (_ <? _); right; reflexivity.
Qed.

(** No sentence before the budget sentence starts with W. *)
Lemma earlier_initials (route : Route WeightedValue) (p : UserPreferences) (s : string) :
  In s (experienceSentence route p :: middleSentences route p) ->
  initial s <> Some "W"%char.
Proof.
  intros [<- | H].
  { destruct (experienceSentence_initial route p) as [E|E]; rewrite E; discriminate. }
  unfold middleSentences in H.
  repeat (apply in_app_or in H; destruct H as [H|H]).
  - unfold fitnessSentence in H. destruct (abs _ <=? 2); [|contradiction].
    destruct H as [<- | []]. discriminate.
  - unfold scenicSentence in H.
    destruct (includes _ _); [|contradiction].
    destruct (findByName _ _); [|contradiction].
    destruct (4 <=? _); [|contradiction]. destruct H as [<- | []]. discriminate.
  - unfold challengeSentence in H.
    destruct (_ && _); [|contradiction]. destruct H as [<- | []]. discriminate.
  - unfold solitudeSentence in H.
    destruct (includes _ _); [|contradiction].
    destruct (findByName _ _); [|contradiction].
    destruct (_ <=? 2); [|contradiction]. destruct H as [<- | []]. discriminate.
  - unfold timeSentence in H.
    destruct (abs _ <=? 1); [|contradiction]. destruct H as [<- | []]. discriminate.
Qed.

Lemma budgetSentence_initial (route : Route WeightedValue) (p : UserPreferences) (s : string) :
  budgetSentence F route p = [s] -> initial s = Some "W"%char.
Proof.
  unfold budgetSentence. destruct (find _ _); [|discriminate].
  destruct (_ <=? _); [|discriminate]. intros [= <-]. reflexivity.
Qed.

Lemma pushedExplanations_split (route : Route WeightedValue) (p : UserPreferences) :
  pushedExplanations F route p =
  ((experienceSentence route p :: middleSentences route p) ++ budgetSentence F route p)%list.
Proof.
  unfold pushedExplanations, middleSentences. cbn [app]. now rewrite <- !app_assoc.
Qed.

(** X2.  When the cost of a route is within the user's budget, the budget
    sentence [s] is part of the explanations exactly when at most two of the
    five rules between the experience sentence and the budget rule (fitness,
    scenic views, physical challenge, solitude, time) have fired; with three
    or more of them the budget sentence is cut off by [slice(0, 4)]. *)
Theorem budget_sentence_shown_iff (route : Route WeightedValue) (p : UserPreferences)
    (s : string) :
  budgetSentence F route p = [s] ->
  (In s (generateExplanations F route p) <->
   (List.length (middleSentences route p) <= 2)%nat).
Proof.
  intros Hb.
  assert (Hearlier : ~ In s (experienceSentence route p :: middleSentences route p)).
  { intros Hin. apply (earlier_initials route p s Hin).
    now apply budgetSentence_initial with (route := route) (p := p). }
  unfold generateExplanations. rewrite pushedExplanations_split, Hb.
  set (earlier := experienceSentence route p :: middleSentences route p) in *.
  assert (L : List.length earlier = S (List.length (middleSentences route p))) by reflexivity.
  rewrite firstn_app. split.
  - intros Hin.
    destruct (Nat.le_gt_cases (List.length (middleSentences route p)) 2) as [Hle|Hgt];
      [exact Hle|exfalso].
    replace (4 - List.length earlier)%nat with 0%nat in Hin by lia.
    rewrite firstn_O, app_nil_r in Hin.
    apply Hearlier. now apply In_firstn in Hin.
  - intros Hle. apply in_or_app. right.
    destruct (4 - List.length earlier)%nat eqn:D; [lia|]. now left.
Qed.

End Explanations.

(** The seed route Rinjani Summit with a trip cost of 880000 recorded under
    [calculated_cost], normalized and weighted by steps 4 and 5. *)
Definition rinjaniWithCost : Route CriterionValue :=
  with_values Seed.rinjaniSummit
    (criterionValues Seed.rinjaniSummit ++
       [ {| criterionId := "calculated_cost";
            criterion := Seed.criterionOf "Total Trip Cost" "Logistics & Cost" false 0.6;
            valueDecimal := 880000 |} ])%list.

Definition rinjaniWeighted : Route WeightedValue :=
  nth 0 (applyWeights (normalizeMatrix [rinjaniWithCost]) Seed.factorWeights
                      (calculateUserWeights Seed.preferences))
        (with_values Seed.rinjaniSummit []).

Lemma budget_sentence_shown_iff_witness :
  In "Within your budget range (estimated Rp 880.000)"
     (generateExplanations sampleFormat rinjaniWeighted
                           Seed.preferences) <->
  (List.length (middleSentences sampleFormat rinjaniWeighted
                                Seed.preferences) <= 2)%nat.
Proof.
  apply (budget_sentence_shown_iff sampleFormat). vm_compute. reflexivity.
Defined.

(** *** The report of runTopsisAnalysis *)

Section Report.
Variable F : NumberFormat.
Variable M : MathLib.
Variable engine : list ScoredRoute -> list ScoredRoute.

(** X3.  As written, [runTopsisAnalysis] gives no report for a catalog that
    holds at least one route: whatever the routes, the factor weights, the
    preferences, the [Math] functions and the order that [sort] leaves, the
    call ends with the ReferenceError of [Decimal], thrown in step 2 before
    any score is computed. *)
Theorem report_needs_an_empty_catalog (route : Route CriterionValue)
    (rest : list (Route CriterionValue)) (fw : list FactorWeight) (p : UserPreferences)
    (now : string) :
  runTopsisAnalysis M engine (route :: rest) fw p = Throws (ReferenceError "Decimal") /\
  topsisResult F M engine (route :: rest) fw p now = Throws (ReferenceError "Decimal").
Proof. split; reflexivity. Qed.

(** X6.  For an empty catalog, whatever the factor weights and the
    preferences, the report has no routes, [totalRoutes] is 0,
    [topRecommendation] is "No routes found", and [averageScore] is NaN (0
    divided by 0). *)
Theorem empty_catalog_report (fw : list FactorWeight) (p : UserPreferences) (now : string) :
  exists r,
    topsisResult F M engine [] fw p now = Returns r /\
    routes r = [] /\
    totalRoutes (summary r) = 0%nat /\
    is_nan (averageScore (summary r)) = true /\
    topRecommendation (summary r) = "No routes found".
Proof. eexists. split; [reflexivity|]. repeat split. Qed.

(** X5.  If the score of some ranked route is NaN, then the
    [summary.averageScore] of the object built from the ranked routes is
    NaN: the sum of the scores, its division by the number of routes and the
    rounding to three decimals all keep NaN. *)
Theorem average_score_is_nan_with_a_nan_score (rankedRoutes : list RankedRoute)
    (p : UserPreferences) (now : string) :
  existsb (fun r => is_nan (topsisScore (rr_route r))) rankedRoutes = true ->
  is_nan (averageScore (summary (reportOf F rankedRoutes p now))) = true.
Proof.
  intros H. cbn [summary reportOf averageScore summaryOf].
  apply div_nan, Math_round_nan, mul_nan. unfold meanScore. apply div_nan.
  apply sum_nan. right.
  apply existsb_exists in H. destruct H as [r [Hr Hn]].
  apply existsb_exists. exists (routeEvaluation F p r). split; [|exact Hn].
  apply in_map. exact Hr.
Qed.

End Report.

(** The three routes of which the second has a NaN score, ranked in the
    order in which they stand. *)
Lemma average_score_is_nan_with_a_nan_score_witness :
  let ideals := findIdealSolutions gapMatrix in
  let scored := calculateDistances gapMatrix (positiveIdeal ideals) (negativeIdeal ideals) in
  let rankedRoutes := rankRoutes (fun l => l) scored in
  map (fun r => topsisScore (rr_route r)) rankedRoutes = [0.5; nan; 1] /\
  is_nan (averageScore
            (summary (reportOf sampleFormat rankedRoutes Seed.preferences
                               "2025-01-01T00:00:00.000Z"))) = true.
Proof.
  cbv zeta. split; [vm_compute; reflexivity|].
  apply (average_score_is_nan_with_a_nan_score sampleFormat).
  vm_compute. reflexivity.
Defined.

(** *** saveTopsisResults *)

Section Save.
Variable newId : Db -> string.

(** X7.  [saveTopsisResults] first adds the recommendation row, which holds
    the whole report under the id the database gives it.  For a report with
    at least one route it then throws the ReferenceError of [Decimal] while
    it builds the first item: no item is stored, no id is returned, and the
    row stays behind.  Only for a report without routes does it return the
    id (and stores no item). *)
Theorem save_stores_no_item (db : Db) (intakeId : string) (userId : option string)
    (r : TopsisResult) :
  let row := {| rec_id := newId db; rec_intakeId := intakeId; rec_userId := userId;
                topsisScoreJson := r |} in
  let db1 := {| recommendation := (recommendation db ++ [row])%list;
                recommendationItem := recommendationItem db |} in
  saveTopsisResults newId db intakeId userId r =
  match routes r with
  | [] => (Returns (newId db), db1)
  | _ :: _ => (Throws (ReferenceError "Decimal"), db1)
  end.
Proof.
  cbv zeta. unfold saveTopsisResults, createRecommendation.
  destruct (routes r) as [|first rest]; cbn.
  - unfold createManyItems. cbn. now rewrite app_nil_r.
  - reflexivity.
Qed.

End Save.

End ReportFacts.

(** ** calculateUserWeights: the leading factor *)

(** X9.  Whatever the budget range and the interests, for a beginner the
    weight of Logistics & Cost is strictly the largest of the three factor
    weights that [calculateUserWeights] returns, and for an expert no weight
    is larger than that of Physical Demand. *)
Theorem experience_level_decides_the_leading_factor (p : UserPreferences) :
  let w := calculateUserWeights p in
  (experience_level p = "beginner" ->
   (get w PhysicalDemand <? get w LogisticsCost) = true /\
   (get w ExperienceQuality <? get w LogisticsCost) = true) /\
  (experience_level p = "expert" ->
   (get w LogisticsCost <=? get w PhysicalDemand) = true /\
   (get w ExperienceQuality <=? get w PhysicalDemand) = true).
Proof.
  cbv zeta. unfold calculateUserWeights, adjustedWeights. rewrite adjustments_cases.
  unfold experienceOf.
  generalize (lowBudget p) (includes "physical_challenge" (interests p))
             (includes "scenic_views" (interests p)).
  intros low challenge scenic. split; intros E; rewrite E; cbn [String.eqb];
    destruct low, challenge, scenic; vm_compute; split; reflexivity.
Qed.

Lemma experience_level_decides_the_leading_factor_witness :
  (get (calculateUserWeights scenicBeginner) PhysicalDemand
   <? get (calculateUserWeights scenicBeginner) LogisticsCost) = true /\
  (get (calculateUserWeights scenicBeginner) ExperienceQuality
   <? get (calculateUserWeights scenicBeginner) LogisticsCost) = true.
Proof.
  exact (proj1 (experience_level_decides_the_leading_factor scenicBeginner) eq_refl).
Defined.

(** ** Locations outside the table *)

(** [LOCATION_COORDINATES[s.toLowerCase()]] is [undefined]: the key is
    neither in the table nor inherited. *)
Definition unknownLocation (s : string) : bool :=
  match lookup (toLowerCase s) LOCATION_COORDINATES with
  | Some _ => false
  | None => negb (includes (toLowerCase s) objectPrototypeKeys)
  end.

Lemma unknownLocation_undefined (s : string) :
  unknownLocation s = true <-> coordinatesOf (toLowerCase s) = None.
Proof.
  unfold unknownLocation, coordinatesOf.
  destruct (lookup (toLowerCase s) LOCATION_COORDINATES); [split; discriminate|].
  destruct (includes (toLowerCase s) objectPrototypeKeys); split;
    first [discriminate | reflexivity].
Qed.

Lemma default_distance (M : MathLib) (userLoc mountainLoc : string) :
  unknownLocation userLoc = true \/ unknownLocation mountainLoc = true ->
  calculateTransportDistance M userLoc mountainLoc = 300.
Proof.
  rewrite !unknownLocation_undefined. unfold calculateTransportDistance. cbv zeta.
  intros [H | H]; rewrite H; [reflexivity|].
  now destruct (coordinatesOf (toLowerCase userLoc)).
Qed.

(** X10.  If a location, in lower case, is neither a key of
    [LOCATION_COORDINATES] nor one of the two names "constructor" and
    "__proto__" under which the table inherits a value from
    [Object.prototype], [calculateTransportDistance] returns the default of
    300 km whenever that location is one of its two arguments, whatever the
    other one is. *)
Theorem unknown_location_gives_the_default_distance (M : MathLib) (a b : string) :
  lookup (toLowerCase a) LOCATION_COORDINATES = None ->
  toLowerCase a <> "constructor" -> toLowerCase a <> "__proto__" ->
  calculateTransportDistance M a b = 300 /\ calculateTransportDistance M b a = 300.
Proof.
  intros Hn H1 H2.
  assert (U : unknownLocation a = true).
  { unfold unknownLocation. rewrite Hn.
    destruct (includes (toLowerCase a) objectPrototypeKeys) eqn:Hi; [|reflexivity].
    apply inherited_lower_case in Hi. tauto. }
  split; apply default_distance; [now left | now right].
Qed.

(** The seed mountain Semeru is located in "East Java", which is no key of the
    table. *)
Lemma unknown_location_gives_the_default_distance_witness :
  calculateTransportDistance approxMath "East Java" "constructor" = 300 /\
  calculateTransportDistance approxMath "constructor" "East Java" = 300.
Proof.
  apply (unknown_location_gives_the_default_distance approxMath "East Java" "constructor");
    [reflexivity | discriminate | discriminate].
Defined.

(** ** haversineDistance is symmetric *)

(** [Math.sin] is an odd function. *)
Definition oddSine (M : MathLib) : Prop := forall x, Math_sin M (- x) = - Math_sin M x.

Lemma toRadians_opp (d : float) : toRadians (- d) = - toRadians d.
Proof. apply mul_opp_l. Qed.

Section Symmetry.
Variable M : MathLib.
Hypothesis sin_odd : oddSine M.

(** The half-angle sine of a difference does not change, up to sign, when
    the operands are exchanged; its products below do not change at all. *)
Lemma half_sine_square (a b : float) :
  Math_sin M (toRadians (b - a) / 2) * Math_sin M (toRadians (b - a) / 2) =
  Math_sin M (toRadians (a - b) / 2) * Math_sin M (toRadians (a - b) / 2).
Proof.
  destruct (sub_antisym a b) as [E | [E1 E2]].
  - rewrite E, toRadians_opp, div_opp_l, sin_odd. apply mul_opp_opp.
  - now rewrite E1, E2.
Qed.

Lemma half_sine_product (c : float) (a b : float) :
  c * Math_sin M (toRadians (b - a) / 2) * Math_sin M (toRadians (b - a) / 2) =
  c * Math_sin M (toRadians (a - b) / 2) * Math_sin M (toRadians (a - b) / 2).
Proof.
  destruct (sub_antisym a b) as [E | [E1 E2]].
  - rewrite E, toRadians_opp, div_opp_l, sin_odd. rewrite (mul_opp_r c). apply mul_opp_opp.
  - now rewrite E1, E2.
Qed.

Lemma haversineDistance_sym (coord1 coord2 : Coordinates) :
  haversineDistance M coord1 coord2 = haversineDistance M coord2 coord1.
Proof.
  unfold haversineDistance. cbv zeta.
  rewrite (half_sine_square (latitude coord1) (latitude coord2)).
  rewrite (half_sine_product _ (longitude coord1) (longitude coord2)).
  rewrite (mul_comm (Math_cos M (toRadians (latitude coord1)))). reflexivity.
Qed.

(** X11.  The transport distance does not depend on the direction: if
    [Math.sin] is an odd function, [calculateTransportDistance(a, b)] and
    [calculateTransportDistance(b, a)] are the same number, bit for bit, for
    all location names (the haversine distance of two table entries, or the
    default 300). *)
Theorem transport_distance_is_symmetric (a b : string) :
  calculateTransportDistance M a b = calculateTransportDistance M b a.
Proof.
  unfold calculateTransportDistance.
  destruct (coordinatesOf (toLowerCase a)) as [ca|];
    destruct (coordinatesOf (toLowerCase b)) as [cb|]; try reflexivity.
  apply haversineDistance_sym.
Qed.

End Symmetry.

Lemma taylorSin_odd : oddSine approxMath.
Proof.
  intros x. cbn [Math_sin approxMath]. unfold taylorSin. cbv zeta.
  rewrite mul_opp_opp. apply mul_opp_l.
Qed.

Lemma transport_distance_is_symmetric_witness :
  calculateTransportDistance approxMath "Jakarta" "lombok"
  = calculateTransportDistance approxMath "lombok" "Jakarta".
Proof. exact (transport_distance_is_symmetric approxMath taylorSin_odd "Jakarta" "lombok"). Defined.

(** ** Costs for the group sizes that the API admits *)

(** A property of the whole numbers from 1 to 20, checked one by one. *)
Lemma group_sizes (P : Z -> Prop) :
  Forall P (map Z.of_nat (seq 1 20)) -> forall n, (1 <= n <= 20)%Z -> P n.
Proof.
  intros H n Hn. rewrite Forall_forall in H. apply H.
  apply in_map_iff. exists (Z.to_nat n). split; [lia|]. apply in_seq. lia.
Qed.

(** The daily rate of a guide: [guideDailyRates[routeDifficulty] || 300000]. *)
Lemma guide_daily_rate (difficulty : string) :
  number_or Cost.guideDailyRates difficulty 300000 =
  match lookup difficulty Cost.guideDailyRates with
  | Some rate => rate
  | None => if includes difficulty objectPrototypeKeys then nan else 300000
  end.
Proof.
  unfold number_or. destruct (lookup difficulty Cost.guideDailyRates) as [v|] eqn:L;
    [|reflexivity].
  apply lookup_In in L. simpl in L.
  repeat (destruct L as [L | L]; [injection L as <- <-; reflexivity|]).
  contradiction.
Qed.

(** X12.  With a guide, for every group size n from 1 to 20 (the sizes the
    API admits), the guide cost is the daily rate times the days times the
    number of guides, which is n/4 rounded up: one guide serves up to four
    hikers.  The daily rate is the entry of the difficulty in
    [guideDailyRates]; for a difficulty outside the table it is 300000,
    except for the names that the table inherits from [Object.prototype]
    (such as "constructor"), for which the rate and the cost are NaN. *)
Theorem one_guide_for_every_four_hikers (difficulty : string) (days : float) (n : Z) :
  (1 <= n <= 20)%Z ->
  Cost.calculateGuideCost difficulty days (float_of_Z n) true =
  match lookup difficulty Cost.guideDailyRates with
  | Some rate => rate
  | None => if includes difficulty objectPrototypeKeys then nan else 300000
  end * days * float_of_Z ((n + 3) / 4).
Proof.
  intros Hn. unfold Cost.calculateGuideCost. cbn [negb]. cbv zeta.
  rewrite guide_daily_rate. f_equal.
  revert n Hn. apply group_sizes.
  repeat (constructor; [vm_compute; reflexivity|]). constructor.
Qed.

Lemma one_guide_for_every_four_hikers_witness :
  Cost.calculateGuideCost "Hard" 2 (float_of_Z 5) true = 400000 * 2 * float_of_Z 2 /\
  Cost.calculateGuideCost "Extreme" 2 (float_of_Z 5) true = 300000 * 2 * float_of_Z 2 /\
  Cost.calculateGuideCost "constructor" 2 (float_of_Z 5) true = nan * 2 * float_of_Z 2.
Proof.
  split; [|split].
  - apply (one_guide_for_every_four_hikers "Hard" 2 5). lia.
  - apply (one_guide_for_every_four_hikers "Extreme" 2 5). lia.
  - apply (one_guide_for_every_four_hikers "constructor" 2 5). lia.
Defined.

Section Transport.
Variable M : MathLib.

(** X13.  When the user's or the mountain's location, in lower case, is
    neither a key of the location table nor a name that the table inherits
    from [Object.prototype] ("constructor", "__proto__"), the distance is
    the default of 300 km and the transportation cost of a group of n, for n
    from 1 to 20, is 100000 per person up to the cap of 900000 that the car
    rental sets for groups of more than four: min(100000 n, 900000).  The
    public transport fare (200000 per person) is never the cheaper one. *)
Theorem transport_cost_between_unknown_places (userLoc mountainLoc : string) (n : Z) :
  (1 <= n <= 20)%Z ->
  unknownLocation userLoc = true \/ unknownLocation mountainLoc = true ->
  Cost.calculateTransportationCost M userLoc mountainLoc (float_of_Z n) =
  float_of_Z (Z.min (100000 * n) 900000).
Proof.
  intros Hn H. unfold Cost.calculateTransportationCost.
  rewrite (default_distance M userLoc mountainLoc H). revert n Hn. apply group_sizes.
  repeat (constructor; [vm_compute; reflexivity|]). constructor.
Qed.

End Transport.

Lemma transport_cost_between_unknown_places_witness :
  Cost.calculateTransportationCost approxMath "other" "lombok" (float_of_Z 12) =
  float_of_Z 900000.
Proof.
  apply (transport_cost_between_unknown_places approxMath "other" "lombok" 12); [lia|].
  left. reflexivity.
Defined.

(** ** The rate limiter *)

Module RateLimitFacts.
Import JS RateLimit.
Local Open Scope string_scope.
Local Open Scope Z_scope.

Lemma get_set_same (m : Clients) (k : string) (v : ClientRecord) :
  Map_get (Map_set m k v) k = Some v.
Proof.
  unfold Map_get. induction m as [|[k' v'] m IH]; simpl.
  - now rewrite String.eqb_refl.
  - destruct (String.eqb k' k) eqn:E; simpl; rewrite E; [reflexivity|exact IH].
Qed.

Lemma get_set_other (m : Clients) (k k' : string) (v : ClientRecord) :
  k <> k' -> Map_get (Map_set m k v) k' = Map_get m k'.
Proof.
  intros N. unfold Map_get. induction m as [|[k0 v0] m IH]; simpl.
  - destruct (String.eqb k k') eqn:E; [apply String.eqb_eq in E; contradiction|reflexivity].
  - destruct (String.eqb k0 k) eqn:E; simpl.
    + apply String.eqb_eq in E. subst k0.
      destruct (String.eqb k k') eqn:E'; [apply String.eqb_eq in E'; contradiction|reflexivity].
    + destruct (String.eqb k0 k'); [reflexivity|exact IH].
Qed.

(** The record of a client after its request. *)
Lemma isRateLimited_record (cfg : RateLimitConfig) (m : Clients) (now : Z) (c : string) :
  exists r, Map_get (snd (isRateLimited cfg m now c)) c = Some r.
Proof.
  unfold isRateLimited. destruct (Map_get m c) as [r|].
  - destruct (resetTime r <? now); eexists; apply get_set_same.
  - eexists; apply get_set_same.
Qed.

(** A request of one client leaves the records of the others alone. *)
Lemma isRateLimited_other (cfg : RateLimitConfig) (m : Clients) (now : Z) (c c' : string) :
  c <> c' -> Map_get (snd (isRateLimited cfg m now c)) c' = Map_get m c'.
Proof.
  intros N. unfold isRateLimited. destruct (Map_get m c) as [r|].
  - destruct (resetTime r <? now); cbn [snd]; now apply get_set_other.
  - cbn [snd]. now apply get_set_other.
Qed.

(** A sequence of requests, each with the clock reading taken when it is
    handled and the id of its client: the answers of [isRateLimited], in
    order, and the map afterwards. *)
Fixpoint replay (cfg : RateLimitConfig) (m : Clients) (requests : list (Z * string))
  : list bool * Clients :=
  match requests with
  | [] => ([], m)
  | (now, c) :: rest =>
      let '(limited, m') := isRateLimited cfg m now c in
      let '(answers, m'') := replay cfg m' rest in
      (limited :: answers, m'')
  end.

(** The answers given to client [c]. *)
Fixpoint answersTo (c : string) (requests : list (Z * string)) (answers : list bool)
  : list bool :=
  match requests, answers with
  | (_, c') :: rest, a :: answers' =>
      if String.eqb c' c then a :: answersTo c rest answers' else answersTo c rest answers'
  | _, _ => []
  end.

(** The answer to the [k]-th request of a window. *)
Definition refused (cfg : RateLimitConfig) (k : Z) : bool :=
  (1 <? k) && (maxRequests cfg <? k).

Lemma replay_in_window (cfg : RateLimitConfig) (c : string) (reset : Z)
    (requests : list (Z * string)) :
  forall (m : Clients) (k : Z),
    Map_get m c = Some {| count := k; resetTime := reset |} ->
    1 <= k ->
    Forall (fun r => snd r = c -> fst r <= reset) requests ->
    answersTo c requests (fst (replay cfg m requests)) =
    map (fun i => refused cfg (k + Z.of_nat i))
        (seq 1 (List.length (filter (fun r => String.eqb (snd r) c) requests))).
Proof.
  induction requests as [|[now c'] rest IH]; intros m k Hm Hk Hw; [reflexivity|].
  cbn [replay].
  destruct (isRateLimited cfg m now c') as [limited m'] eqn:E.
  destruct (replay cfg m' rest) as [answers m''] eqn:R.
  cbn [fst answersTo filter snd].
  apply Forall_cons_iff in Hw. destruct Hw as [Hnow Hw].
  destruct (String.eqb c' c) eqn:Ec.
  - apply String.eqb_eq in Ec. subst c'. cbn [fst snd] in Hnow. specialize (Hnow eq_refl).
    unfold isRateLimited in E. rewrite Hm in E. cbn [resetTime count] in E.
    destruct (reset <? now) eqn:L; [apply Z.ltb_lt in L; lia|].
    injection E as <- <-.
    cbn [List.length seq map]. f_equal.
    + unfold refused. replace (k + Z.of_nat 1) with (k + 1) by lia.
      replace (1 <? k + 1) with true by (symmetry; apply Z.ltb_lt; lia). reflexivity.
    + replace answers with (fst (replay cfg (Map_set m c {| count := k + 1; resetTime := reset |}) rest))
        by now rewrite R.
      rewrite (IH _ (k + 1)); [|apply get_set_same|lia|exact Hw].
      rewrite <- (seq_shift _ 1), map_map. apply map_ext. intros i. f_equal. lia.
  - assert (N : c' <> c) by (intros ->; now rewrite String.eqb_refl in Ec).
    replace answers with (fst (replay cfg m' rest)) by now rewrite R.
    apply (IH m' k); [|exact Hk|exact Hw].
    replace m' with (snd (isRateLimited cfg m now c')) by now rewrite E.
    rewrite isRateLimited_other by exact N. exact Hm.
Qed.

(** X14.  A client that has no open window at time [t0] and makes a request
    then, followed by further requests within [windowMs] (interleaved in any
    way with requests of other clients), gets these answers from
    [isRateLimited]: its k-th request is refused exactly when k exceeds both
    1 and [maxRequests].  So a window admits [maxRequests] requests, and the
    first request of a window is admitted even when [maxRequests] is 0. *)
Theorem a_window_admits_maxRequests (cfg : RateLimitConfig) (m : Clients) (c : string)
    (t0 : Z) (requests : list (Z * string)) :
  match Map_get m c with
  | Some r => resetTime r < t0
  | None => True
  end ->
  Forall (fun r => snd r = c -> fst r <= t0 + windowMs cfg) requests ->
  let all := (t0, c) :: requests in
  answersTo c all (fst (replay cfg m all)) =
  map (fun k => refused cfg (Z.of_nat k))
      (seq 1 (List.length (filter (fun r => String.eqb (snd r) c) all))).
Proof.
  intros Hm Hw. cbv zeta. cbn [replay].
  destruct (isRateLimited cfg m t0 c) as [limited m'] eqn:E.
  destruct (replay cfg m' requests) as [answers m''] eqn:R.
  cbn [fst answersTo filter snd]. rewrite String.eqb_refl.
  cbn [List.length seq map].
  assert (E' : limited = false /\
               m' = Map_set m c {| count := 1; resetTime := t0 + windowMs cfg |}).
  { unfold isRateLimited in E. destruct (Map_get m c) as [r|].
    - replace (resetTime r <? t0) with true in E by (symmetry; apply Z.ltb_lt; exact Hm).
      injection E as <- <-. now split.
    - injection E as <- <-. now split. }
  destruct E' as [-> ->]. f_equal.
  replace answers with
    (fst (replay cfg (Map_set m c {| count := 1; resetTime := t0 + windowMs cfg |}) requests))
    by now rewrite R.
  rewrite (replay_in_window cfg c (t0 + windowMs cfg) requests _ 1);
    [|apply get_set_same|lia|exact Hw].
  rewrite <- (seq_shift _ 1), map_map. apply map_ext. intros i. f_equal. lia.
Qed.


(** *** cleanup *)

(** The map holds one entry per client id. *)
Definition wellFormed (m : Clients) : Prop := NoDup (map fst m).

Lemma get_None (m : Clients) (k : string) : ~ In k (map fst m) -> Map_get m k = None.
Proof.
  unfold Map_get. induction m as [|[k' v'] m IH]; intros H; [reflexivity|].
  simpl in *. destruct (String.eqb k' k) eqn:E.
  - apply String.eqb_eq in E. exfalso. apply H. now left.
  - apply IH. intros Hin. apply H. now right.
Qed.

Lemma delete_keys (m : Clients) (k k' : string) :
  In k' (map fst (Map_delete m k)) -> In k' (map fst m).
Proof.
  induction m as [|[k0 v0] m IH]; [intros []|].
  simpl. destruct (String.eqb k0 k); simpl; [now right|].
  intros [H|H]; [now left|right; now apply IH].
Qed.

Lemma delete_wellFormed (m : Clients) (k : string) :
  wellFormed m -> wellFormed (Map_delete m k).
Proof.
  unfold wellFormed. induction m as [|[k0 v0] m IH]; intros H; [constructor|].
  simpl in *. apply NoDup_cons_iff in H. destruct H as [H1 H2].
  destruct (String.eqb k0 k); [exact H2|].
  simpl. constructor; [|now apply IH].
  intros Hin. apply H1. now apply delete_keys in Hin.
Qed.

Lemma get_delete_same (m : Clients) (k : string) :
  wellFormed m -> Map_get (Map_delete m k) k = None.
Proof.
  unfold wellFormed, Map_get. induction m as [|[k0 v0] m IH]; intros H; [reflexivity|].
  simpl in *. apply NoDup_cons_iff in H. destruct H as [H1 H2].
  destruct (String.eqb k0 k) eqn:E.
  - apply String.eqb_eq in E. subst k0. now apply get_None.
  - simpl. rewrite E. now apply IH.
Qed.

Lemma get_delete_other (m : Clients) (k k' : string) :
  k <> k' -> Map_get (Map_delete m k) k' = Map_get m k'.
Proof.
  intros N. unfold Map_get. induction m as [|[k0 v0] m IH]; [reflexivity|].
  simpl. destruct (String.eqb k0 k) eqn:E.
  - apply String.eqb_eq in E. subst k0.
    destruct (String.eqb k k') eqn:E'; [apply String.eqb_eq in E'; contradiction|reflexivity].
  - simpl. destruct (String.eqb k0 k'); [reflexivity|exact IH].
Qed.

Definition expiredAt (now : Z) (r : ClientRecord) : bool := resetTime r <? now.

(** The loop of [cleanup], started on any map. *)
Lemma cleanup_loop (now : Z) (c : string) (entries : Clients) :
  forall m : Clients,
    wellFormed m ->
    Map_get
      (fold_left (fun m entry =>
                    if resetTime (snd entry) <? now then Map_delete m (fst entry) else m)
                 entries m) c
    = if existsb (fun e => String.eqb (fst e) c && expiredAt now (snd e)) entries
      then None else Map_get m c.
Proof.
  induction entries as [|[k r] rest IH]; intros m W; [reflexivity|].
  cbn [fold_left existsb fst snd]. unfold expiredAt at 1.
  destruct (resetTime r <? now) eqn:X.
  - rewrite IH by now apply delete_wellFormed.
    destruct (String.eqb k c) eqn:E; cbn [andb orb].
    + apply String.eqb_eq in E. subst k. rewrite get_delete_same by exact W.
      now destruct (existsb _ rest).
    + rewrite get_delete_other; [reflexivity|].
      intros ->. now rewrite String.eqb_refl in E.
  - rewrite IH by exact W. rewrite andb_false_r. reflexivity.
Qed.

Lemma get_In (m : Clients) (k : string) (r : ClientRecord) :
  wellFormed m -> In (k, r) m -> Map_get m k = Some r.
Proof.
  unfold wellFormed, Map_get. induction m as [|[k0 v0] m IH]; intros W Hin; [contradiction|].
  simpl in *. apply NoDup_cons_iff in W. destruct W as [W1 W2].
  destruct Hin as [[= -> ->] | Hin].
  - now rewrite String.eqb_refl.
  - destruct (String.eqb k0 k) eqn:E; [|now apply IH].
    apply String.eqb_eq in E. subst k0. exfalso. apply W1.
    change k with (fst (k, r)). now apply in_map.
Qed.

(** After [cleanup] a client has its record if the window of that record is
    still open, and none otherwise. *)
Lemma get_cleanup (m : Clients) (now : Z) (c : string) :
  wellFormed m ->
  Map_get (cleanup m now) c =
  match Map_get m c with
  | Some r => if expiredAt now r then None else Some r
  | None => None
  end.
Proof.
  intros W. unfold cleanup. rewrite cleanup_loop by exact W.
  destruct (existsb _ m) eqn:X.
  - apply existsb_exists in X. destruct X as [[k r] [Hin H]]. cbn [fst snd] in H.
    apply andb_prop in H. destruct H as [E X]. apply String.eqb_eq in E. subst k.
    rewrite (get_In m c r W Hin). now rewrite X.
  - destruct (Map_get m c) as [r|] eqn:G; [|reflexivity].
    destruct (expiredAt now r) eqn:X'; [|reflexivity].
    exfalso. apply lookup_In in G.
    assert (T : existsb (fun e => String.eqb (fst e) c && expiredAt now (snd e)) m = true).
    { apply existsb_exists. exists (c, r). split; [exact G|].
      cbn [fst snd]. now rewrite String.eqb_refl, X'. }
    congruence.
Qed.

(** X15.  [cleanup] is not observable: after a cleanup at time [t], every
    later call ([t <= now]) of [isRateLimited] gives the same answer and
    leaves the same record for the client as without the cleanup, and
    [getStatus] reports the same status. *)
Theorem cleanup_changes_no_answer (cfg : RateLimitConfig) (m : Clients) (t now : Z)
    (c : string) :
  wellFormed m -> t <= now ->
  fst (isRateLimited cfg (cleanup m t) now c) = fst (isRateLimited cfg m now c) /\
  Map_get (snd (isRateLimited cfg (cleanup m t) now c)) c =
    Map_get (snd (isRateLimited cfg m now c)) c /\
  getStatus cfg (cleanup m t) now c = getStatus cfg m now c.
Proof.
  intros W Ht. unfold isRateLimited, getStatus. rewrite (get_cleanup m t c W).
  destruct (Map_get m c) as [r|] eqn:G.
  - unfold expiredAt. destruct (resetTime r <? t) eqn:X.
    + apply Z.ltb_lt in X.
      replace (resetTime r <? now) with true by (symmetry; apply Z.ltb_lt; lia).
      cbn [fst snd]. rewrite !get_set_same. auto.
    + destruct (resetTime r <? now); cbn [fst snd]; rewrite !get_set_same; auto.
  - cbn [fst snd]. rewrite !get_set_same. auto.
Qed.


(** *** The middleware *)

(** The record a request leaves behind: its window is open, and the answer is
    read off its count. *)
Lemma isRateLimited_after (cfg : RateLimitConfig) (m : Clients) (now : Z) (c : string) :
  1 <= maxRequests cfg -> 0 <= windowMs cfg ->
  exists r,
    Map_get (snd (isRateLimited cfg m now c)) c = Some r /\
    now <= resetTime r /\
    fst (isRateLimited cfg m now c) = (maxRequests cfg <? count r).
Proof.
  intros Hmax Hwin. unfold isRateLimited.
  assert (Fresh : forall m0,
            exists r,
              Map_get (Map_set m0 c {| count := 1; resetTime := now + windowMs cfg |}) c
                = Some r /\
              now <= resetTime r /\ false = (maxRequests cfg <? count r)).
  { intros m0. eexists. split; [apply get_set_same|]. cbn [resetTime count].
    split; [lia|]. symmetry. apply Z.ltb_ge. lia. }
  destruct (Map_get m c) as [r0|] eqn:G; [|apply Fresh].
  destruct (resetTime r0 <? now) eqn:X; [apply Fresh|].
  apply Z.ltb_ge in X. cbn [fst snd].
  eexists. split; [apply get_set_same|]. cbn [resetTime count]. split; [exact X|reflexivity].
Qed.

(** X16.  The middleware, when the clock does not advance during the call,
    with a limit of at least 1 and a window that is not negative: after the
    call the client has a record whose window is open.  A refused request
    gets status 429 with remaining "0" and a retry delay that is not negative
    and is the time to the end of the window, in seconds, rounded up; an
    admitted request gets the headers with the remaining count
    [maxRequests - count], which is not negative. *)
Theorem middleware_under_a_frozen_clock (cfg : RateLimitConfig) (m : Clients) (now : Z)
    (request : Request) :
  1 <= maxRequests cfg -> 0 <= windowMs cfg ->
  let out := rateLimitMiddleware cfg m now now now request in
  exists r,
    Map_get (snd out) (getClientId request) = Some r /\ now <= resetTime r /\
    match fst out with
    | Refused response =>
        maxRequests cfg < count r /\
        0 <= retryAfter response /\
        response =
          {| status := 429;
             error := getErrorMessage cfg;
             retryAfter := ceilSeconds (resetTime r - now);
             headers :=
               [ ("Content-Type", "application/json");
                 ("X-RateLimit-Limit", toString (maxRequests cfg));
                 ("X-RateLimit-Remaining", "0");
                 ("X-RateLimit-Reset", toString (resetTime r));
                 ("Retry-After", toString (ceilSeconds (resetTime r - now))) ] |}
    | Passed headers =>
        count r <= maxRequests cfg /\
        headers =
          [ ("X-RateLimit-Limit", toString (maxRequests cfg));
            ("X-RateLimit-Remaining", toString (maxRequests cfg - count r));
            ("X-RateLimit-Reset", toString (resetTime r)) ]
    end.
Proof.
  intros Hmax Hwin. cbv zeta. unfold rateLimitMiddleware.
  destruct (isRateLimited_after cfg m now (getClientId request) Hmax Hwin)
    as [r [Hr [Hnow Hl]]].
  destruct (isRateLimited cfg m now (getClientId request)) as [limited m'].
  cbn [fst snd] in Hr, Hl.
  exists r.
  assert (S : getStatus cfg m' now (getClientId request) =
              {| remaining := Z.max 0 (maxRequests cfg - count r);
                 status_resetTime := resetTime r;
                 total := maxRequests cfg |}).
  { unfold getStatus. rewrite Hr.
    replace (resetTime r <? now) with false by (symmetry; apply Z.ltb_ge; lia).
    reflexivity. }
  rewrite S. cbn [total remaining status_resetTime].
  destruct limited; cbn [fst snd].
  - symmetry in Hl. apply Z.ltb_lt in Hl. rewrite Z.max_l by lia.
    repeat split; try assumption.
    cbn [retryAfter]. unfold ceilSeconds.
    assert (H : (- (resetTime r - now)) / 1000 <= 0) by (apply Z.div_le_upper_bound; lia).
    lia.
  - symmetry in Hl. apply Z.ltb_ge in Hl. rewrite Z.max_r by lia.
    repeat split; assumption.
Qed.

(** *** Client ids taken from a request header *)

(** The requests of a sequence, each with the clock reading at which it is
    handled, under the client ids that [getClientId] gives them. *)
Definition identified (requests : list (Z * Request)) : list (Z * string) :=
  map (fun r => (fst r, getClientId (snd r))) requests.

Lemma replay_fresh (cfg : RateLimitConfig) (requests : list (Z * string)) :
  forall m : Clients,
    NoDup (map snd requests) ->
    Forall (fun r => Map_get m (snd r) = None) requests ->
    Forall (fun limited => limited = false) (fst (replay cfg m requests)).
Proof.
  induction requests as [|[now c] rest IH]; intros m Hd Hf; [constructor|].
  cbn [replay map snd] in *.
  apply NoDup_cons_iff in Hd. destruct Hd as [Hc Hd].
  apply Forall_cons_iff in Hf. destruct Hf as [Hg Hf]. cbn [snd] in Hg.
  destruct (isRateLimited cfg m now c) as [limited m'] eqn:E.
  destruct (replay cfg m' rest) as [answers m''] eqn:R. cbn [fst].
  unfold isRateLimited in E. rewrite Hg in E. injection E as <- <-.
  constructor; [reflexivity|].
  replace answers with
    (fst (replay cfg (Map_set m c {| count := 1; resetTime := now + windowMs cfg |}) rest))
    by now rewrite R.
  apply IH; [exact Hd|].
  rewrite Forall_forall in *. intros r Hr.
  rewrite get_set_other; [now apply Hf|].
  intros ->. apply Hc. now apply in_map.
Qed.

(** X17.  The client id is taken from the request's own [x-forwarded-for]
    header whenever that header is present and not empty: requests whose
    headers start with pairwise different addresses that the limiter has not
    seen are all admitted, however many they are and whatever their other
    headers say. *)
Theorem a_new_forwarded_address_is_never_limited (cfg : RateLimitConfig) (m : Clients)
    (requests : list (Z * Request)) :
  Forall (fun r => exists f, headers_get (snd r) "x-forwarded-for" = Some f /\ f <> "")
         requests ->
  let address r :=
    match headers_get (snd r) "x-forwarded-for" with
    | Some f => trim (split_comma_first f)
    | None => ""
    end in
  NoDup (map address requests) ->
  Forall (fun r => Map_get m (address r) = None) requests ->
  Forall (fun limited => limited = false) (fst (replay cfg m (identified requests))).
Proof.
  intros Hf address Hd Hn.
  assert (E : forall r, In r requests -> getClientId (snd r) = address r).
  { intros r Hr. rewrite Forall_forall in Hf. destruct (Hf r Hr) as [f [Hg Hne]].
    unfold getClientId, address. rewrite Hg. cbn [present].
    destruct (String.eqb f "") eqn:X; [apply String.eqb_eq in X; contradiction|reflexivity]. }
  apply replay_fresh.
  - unfold identified. rewrite map_map. cbn [snd].
    rewrite (map_ext_in _ address); [exact Hd|exact E].
  - unfold identified. rewrite Forall_map. cbn [snd].
    rewrite Forall_forall in *. intros r Hr. rewrite E by exact Hr. now apply Hn.
Qed.


(** *** Examples *)

(** Seven requests of one client within a window of the login limiter, and
    one of another client in between. *)
Lemma a_window_admits_maxRequests_witness :
  let requests :=
    [ (1000, "10.0.0.1"); (2000, "10.0.0.1"); (2500, "10.0.0.2"); (3000, "10.0.0.1");
      (4000, "10.0.0.1"); (5000, "10.0.0.1"); (900000, "10.0.0.1") ] in
  let all := (0, "10.0.0.1") :: requests in
  answersTo "10.0.0.1" all (fst (replay authRateLimit [] all)) =
  [false; false; false; false; false; true; true].
Proof.
  cbv zeta.
  rewrite (a_window_admits_maxRequests authRateLimit [] "10.0.0.1" 0).
  - reflexivity.
  - exact I.
  - repeat (constructor; [intros _; cbn; lia|]). constructor.
Defined.

Definition twoClients : Clients :=
  [ ("10.0.0.1", {| count := 3; resetTime := 100 |});
    ("10.0.0.2", {| count := 1; resetTime := 900 |}) ].

Lemma cleanup_changes_no_answer_witness :
  wellFormed twoClients /\
  cleanup twoClients 500 = [ ("10.0.0.2", {| count := 1; resetTime := 900 |}) ] /\
  getStatus authRateLimit (cleanup twoClients 500) 600 "10.0.0.1" =
  getStatus authRateLimit twoClients 600 "10.0.0.1".
Proof.
  assert (W : wellFormed twoClients).
  { unfold wellFormed. cbn. repeat constructor; cbn; intuition discriminate. }
  split; [exact W|]. split; [reflexivity|].
  apply (cleanup_changes_no_answer authRateLimit twoClients 500 600 "10.0.0.1" W). lia.
Defined.

(** A request that names its address in [x-real-ip] only. *)
Definition fromRealIp (address : string) : Request :=
  {| headers_get := fun name => if (name =? "x-real-ip")%string then Some address else None |}.

Lemma middleware_under_a_frozen_clock_witness :
  let m := [ ("10.0.0.1", {| count := 5; resetTime := 4500 |}) ] in
  let out := rateLimitMiddleware authRateLimit m 1000 1000 1000 (fromRealIp " 10.0.0.1 ") in
  (exists response, fst out = Refused response /\ retryAfter response = 4) /\
  exists r,
    Map_get (snd out) (getClientId (fromRealIp " 10.0.0.1 ")) = Some r /\
    1000 <= resetTime r /\
    match fst out with
    | Refused response =>
        maxRequests authRateLimit < count r /\
        0 <= retryAfter response /\
        response =
          {| status := 429;
             error := getErrorMessage authRateLimit;
             retryAfter := ceilSeconds (resetTime r - 1000);
             headers :=
               [ ("Content-Type", "application/json");
                 ("X-RateLimit-Limit", toString (maxRequests authRateLimit));
                 ("X-RateLimit-Remaining", "0");
                 ("X-RateLimit-Reset", toString (resetTime r));
                 ("Retry-After", toString (ceilSeconds (resetTime r - 1000))) ] |}
    | Passed headers =>
        count r <= maxRequests authRateLimit /\
        headers =
          [ ("X-RateLimit-Limit", toString (maxRequests authRateLimit));
            ("X-RateLimit-Remaining", toString (maxRequests authRateLimit - count r));
            ("X-RateLimit-Reset", toString (resetTime r)) ]
    end.
Proof.
  cbv zeta. split.
  - eexists. split; reflexivity.
  - apply (middleware_under_a_frozen_clock authRateLimit
             [ ("10.0.0.1", {| count := 5; resetTime := 4500 |}) ] 1000
             (fromRealIp " 10.0.0.1 ")); cbn; lia.
Defined.

(** A request that names the addresses of its [x-forwarded-for] header. *)
Definition forwardedFor (addresses : string) : Request :=
  {| headers_get :=
       fun name => if (name =? "x-forwarded-for")%string then Some addresses else None |}.

Lemma a_new_forwarded_address_is_never_limited_witness :
  let requests :=
    [ (0, forwardedFor "203.0.113.1, 10.0.0.1"); (1, forwardedFor "203.0.113.2, 10.0.0.1");
      (2, forwardedFor " 203.0.113.3") ] in
  map snd (identified requests) = ["203.0.113.1"; "203.0.113.2"; "203.0.113.3"] /\
  Forall (fun limited => limited = false)
         (fst (replay {| windowMs := 60000; maxRequests := 1; message := None |} []
                      (identified requests))).
Proof.
  cbv zeta. split; [reflexivity|].
  apply (a_new_forwarded_address_is_never_limited
           {| windowMs := 60000; maxRequests := 1; message := None |} []).
  - repeat (constructor; [eexists; split; [reflexivity|discriminate]|]). constructor.
  - cbn. repeat constructor; cbn; intuition discriminate.
  - repeat (constructor; [reflexivity|]). constructor.
Defined.

End RateLimitFacts.

(** ** The gear advisor *)

Module GearFacts.
Import Gear.
Local Open Scope string_scope.
Local Open Scope float_scope.

(** *** The duplicate filter *)

Lemma findIndex_ext {A : Type} (f g : A -> bool) (l : list A) :
  (forall x, f x = g x) -> findIndex f l = findIndex g l.
Proof.
  intros E. induction l as [|x l IH]; simpl; [reflexivity|].
  rewrite E, IH. reflexivity.
Qed.

(** The entries of an array paired with their indices. *)
Lemma indexed_functional {A : Type} (l : list A) (start : nat) (i : nat) (x y : A) :
  In (i, x) (combine (seq start (List.length l)) l) ->
  In (i, y) (combine (seq start (List.length l)) l) -> x = y.
Proof.
  revert start. induction l as [|a l IH]; intros start Hx Hy; [contradiction|].
  simpl in Hx, Hy.
  assert (B : forall z, In (i, z) (combine (seq (S start) (List.length l)) l) ->
                        (S start <= i)%nat).
  { intros z Hz. apply in_combine_l in Hz. apply in_seq in Hz. lia. }
  destruct Hx as [Ex | Hx]; destruct Hy as [Ey | Hy].
  - congruence.
  - apply B in Hy. injection Ex as Ei _. lia.
  - apply B in Hx. injection Ey as Ei _. lia.
  - now apply (IH (S start)).
Qed.

Lemma indexed_NoDup {A : Type} (l : list A) (start : nat) :
  NoDup (combine (seq start (List.length l)) l).
Proof.
  revert start. induction l as [|a l IH]; intros start; simpl; constructor.
  - intros Hin. apply in_combine_l in Hin. apply in_seq in Hin. lia.
  - apply IH.
Qed.

Lemma NoDup_map_on {A B : Type} (f : A -> B) (l : list A) :
  NoDup l -> (forall x y, In x l -> In y l -> f x = f y -> x = y) -> NoDup (map f l).
Proof.
  induction 1 as [|a l Ha Hl IH]; intros Hinj; simpl; constructor.
  - intros Hin. apply in_map_iff in Hin. destruct Hin as [b [Eb Hb]].
    assert (b = a) by (apply Hinj; [now right|now left|exact Eb]). now subst b.
  - apply IH. intros x y Hx Hy. apply Hinj; now right.
Qed.

(** No id occurs twice in the filtered array. *)
Lemma uniqueById_NoDup (allGear : list GearItem) : NoDup (map id (uniqueById allGear)).
Proof.
  unfold uniqueById. rewrite map_map.
  set (keep := fun entry : nat * GearItem =>
                 match findIndex (fun i => (id i =? id (snd entry))%string) allGear with
                 | Some index => Nat.eqb (fst entry) index
                 | None => false
                 end).
  apply NoDup_map_on.
  - apply NoDup_filter, indexed_NoDup.
  - intros [i x] [j y] Hx Hy E. cbn [snd] in E.
    apply filter_In in Hx. destruct Hx as [Hx Kx].
    apply filter_In in Hy. destruct Hy as [Hy Ky].
    unfold keep in Kx, Ky. cbn [fst snd] in Kx, Ky.
    rewrite (findIndex_ext _ (fun i0 => (id i0 =? id y)%string)) in Kx
      by (intros z; now rewrite E).
    destruct (findIndex _ allGear) as [k|]; [|discriminate].
    apply Nat.eqb_eq in Kx. apply Nat.eqb_eq in Ky. subst i j.
    f_equal. exact (indexed_functional allGear 0 k x y Hx Hy).
Qed.

Lemma uniqueById_incl (allGear : list GearItem) : incl (uniqueById allGear) allGear.
Proof.
  intros x Hx. unfold uniqueById in Hx. apply in_map_iff in Hx.
  destruct Hx as [[i y] [E Hin]]. cbn [snd] in E. subst y.
  apply filter_In in Hin. destruct Hin as [Hin _]. now apply in_combine_r in Hin.
Qed.

Lemma findIndex_found {A : Type} (f : A -> bool) (l : list A) (x : A) :
  In x l -> f x = true ->
  exists k y, findIndex f l = Some k /\ nth_error l k = Some y /\ f y = true.
Proof.
  induction l as [|a l IH]; intros Hin Hx; [contradiction|].
  simpl. destruct (f a) eqn:Fa.
  - exists 0%nat, a. auto.
  - destruct Hin as [-> | Hin]; [congruence|].
    destruct (IH Hin Hx) as [k [y [E [N Fy]]]]. rewrite E.
    exists (S k), y. auto.
Qed.

Lemma indexed_nth {A : Type} (l : list A) (start k : nat) (y : A) :
  nth_error l k = Some y -> In ((start + k)%nat, y) (combine (seq start (List.length l)) l).
Proof.
  revert start k. induction l as [|a l IH]; intros start [|k] H; try discriminate.
  - injection H as ->. left. f_equal. lia.
  - right. replace (start + S k)%nat with (S start + k)%nat by lia. now apply IH.
Qed.

(** Every id of the array is still there after the filter. *)
Lemma uniqueById_ids (allGear : list GearItem) :
  incl (map id allGear) (map id (uniqueById allGear)).
Proof.
  intros i Hi. apply in_map_iff in Hi. destruct Hi as [x [<- Hx]].
  destruct (findIndex_found (fun i => (id i =? id x)%string) allGear x Hx
                            (String.eqb_refl _)) as [k [y [E [N Fy]]]].
  apply String.eqb_eq in Fy. rewrite <- Fy. apply in_map.
  unfold uniqueById. apply in_map_iff. exists (k, y). split; [reflexivity|].
  apply filter_In. split; [exact (indexed_nth allGear 0 k y N)|].
  cbn [fst snd].
  rewrite (findIndex_ext _ (fun i => (id i =? id x)%string)) by (intros z; now rewrite Fy).
  rewrite E. apply Nat.eqb_refl.
Qed.

(** *** Priorities *)

Lemma hasPriority_cases (x : GearItem) :
  (hasPriority essential x = true /\ hasPriority recommended x = false
   /\ hasPriority optional x = false) \/
  (hasPriority essential x = false /\ hasPriority recommended x = true
   /\ hasPriority optional x = false) \/
  (hasPriority essential x = false /\ hasPriority recommended x = false
   /\ hasPriority optional x = true).
Proof. unfold hasPriority. destruct (priority x); auto. Qed.

Lemma priority_lengths (l : list GearItem) :
  (List.length (filter (hasPriority essential) l)
   + List.length (filter (hasPriority recommended) l)
   + List.length (filter (hasPriority optional) l) = List.length l)%nat.
Proof.
  induction l as [|x l IH]; [reflexivity|].
  cbn [filter]. destruct (hasPriority_cases x) as [[-> [-> ->]] | [[-> [-> ->]] | [-> [-> ->]]]];
    cbn [List.length]; lia.
Qed.

Lemma hasPriority_spec (p : Priority) (x : GearItem) :
  hasPriority p x = true <-> priority x = p.
Proof. unfold hasPriority. destruct (priority x), p; split; congruence. Qed.

Section WithFormat.
Variable toString : float -> string.

(** The ids of everything a recommendation holds. *)
Definition recommendedIds (r : Recommendation) : list string :=
  map id (essentialGear r ++ recommendedGear r ++ optionalGear r)%list.

Lemma filter_priority_perm (l : list GearItem) :
  Permutation (filter (hasPriority essential) l ++ filter (hasPriority recommended) l
                 ++ filter (hasPriority optional) l)%list l.
Proof.
  induction l as [|x l IH]; [constructor|].
  cbn [filter]. destruct (hasPriority_cases x) as [[-> [-> ->]] | [[-> [-> ->]] | [-> [-> ->]]]];
    cbn [app].
  - now constructor.
  - rewrite <- Permutation_middle. now constructor.
  - rewrite app_assoc, <- Permutation_middle, <- app_assoc. now constructor.
Qed.

(** X18.  For every input, [recommendGear] splits the gear by priority:
    [totalItems] is the sum of the lengths of the three lists, each list holds
    items of its own priority only, no id occurs twice in the result, every
    item of the result comes from the rule tables selected by the input, and
    every id selected by the input is in the result. *)
Theorem gear_is_split_by_priority (input : GearRecommendationInput) :
  let r := recommendGear toString input in
  totalItems r =
    (List.length (essentialGear r) + List.length (recommendedGear r)
     + List.length (optionalGear r))%nat /\
  Forall (fun x => priority x = essential) (essentialGear r) /\
  Forall (fun x => priority x = recommended) (recommendedGear r) /\
  Forall (fun x => priority x = optional) (optionalGear r) /\
  NoDup (recommendedIds r) /\
  incl (essentialGear r ++ recommendedGear r ++ optionalGear r) (allGearOf toString input) /\
  incl (map id (allGearOf toString input)) (recommendedIds r).
Proof.
  cbv zeta. unfold recommendGear, recommendedIds.
  cbn [totalItems essentialGear recommendedGear optionalGear].
  set (u := uniqueById (allGearOf toString input)).
  repeat split.
  - symmetry. apply priority_lengths.
  - apply Forall_forall. intros x Hx. apply filter_In in Hx. now apply hasPriority_spec.
  - apply Forall_forall. intros x Hx. apply filter_In in Hx. now apply hasPriority_spec.
  - apply Forall_forall. intros x Hx. apply filter_In in Hx. now apply hasPriority_spec.
  - apply (Permutation_NoDup (l := map id u)); [|apply uniqueById_NoDup].
    apply Permutation_map. symmetry. apply filter_priority_perm.
  - intros x Hx. apply uniqueById_incl.
    apply (Permutation_in x (filter_priority_perm u)). exact Hx.
  - intros i Hi. apply uniqueById_ids in Hi. fold u in Hi.
    apply (Permutation_in i (Permutation_map id (Permutation_sym (filter_priority_perm u)))).
    exact Hi.
Qed.

(** With distinct ids the filter keeps the whole array. *)
Lemma findIndex_first (l : list GearItem) :
  NoDup (map id l) ->
  forall (k : nat) (x : GearItem),
    nth_error l k = Some x -> findIndex (fun i => (id i =? id x)%string) l = Some k.
Proof.
  induction l as [|a l IH]; intros Hd k x Hn; [destruct k; discriminate|].
  cbn [map] in Hd. apply NoDup_cons_iff in Hd. destruct Hd as [Ha Hd].
  destruct k as [|k]; cbn [nth_error] in Hn; cbn [findIndex].
  - injection Hn as ->. now rewrite String.eqb_refl.
  - destruct (id a =? id x)%string eqn:E.
    + apply String.eqb_eq in E. exfalso. apply Ha. rewrite E.
      apply in_map. now apply nth_error_In in Hn.
    + now rewrite (IH Hd k x Hn).
Qed.

Lemma indexed_inv {A : Type} (l : list A) (start i : nat) (x : A) :
  In (i, x) (combine (seq start (List.length l)) l) ->
  exists k, i = (start + k)%nat /\ nth_error l k = Some x.
Proof.
  revert start. induction l as [|a l IH]; intros start H; [contradiction|].
  destruct H as [E | H].
  - injection E as <- <-. exists 0%nat. split; [lia|reflexivity].
  - destruct (IH (S start) H) as [k [-> N]]. exists (S k). split; [lia|exact N].
Qed.

Lemma map_snd_indexed {A : Type} (l : list A) (start : nat) :
  map snd (combine (seq start (List.length l)) l) = l.
Proof.
  revert start. induction l as [|a l IH]; intros start; [reflexivity|].
  simpl. now rewrite IH.
Qed.

Lemma uniqueById_distinct (allGear : list GearItem) :
  NoDup (map id allGear) -> uniqueById allGear = allGear.
Proof.
  intros Hd. unfold uniqueById.
  rewrite forallb_filter_id; [apply map_snd_indexed|].
  apply forallb_forall. intros [i x] Hin. cbn [fst snd].
  destruct (indexed_inv allGear 0 i x Hin) as [k [-> N]].
  rewrite (findIndex_first allGear Hd k x N). apply Nat.eqb_refl.
Qed.

(** *** The rule tables hold every id once *)

(** [l] is [m] with some entries left out. *)
Inductive subseq {A : Type} : list A -> list A -> Prop :=
| subseq_nil : subseq [] []
| subseq_keep (x : A) (l m : list A) : subseq l m -> subseq (x :: l) (x :: m)
| subseq_skip (x : A) (l m : list A) : subseq l m -> subseq l (x :: m).

Lemma subseq_refl {A : Type} (l : list A) : subseq l l.
Proof. induction l; constructor; assumption. Qed.

Lemma subseq_nil_l {A : Type} (m : list A) : subseq [] m.
Proof. induction m; constructor; assumption. Qed.

Lemma subseq_app {A : Type} (l1 m1 l2 m2 : list A) :
  subseq l1 m1 -> subseq l2 m2 -> subseq (l1 ++ l2) (m1 ++ m2).
Proof. induction 1; intros H2; simpl; [exact H2|constructor; auto..]. Qed.

Lemma subseq_In {A : Type} (l m : list A) (x : A) : subseq l m -> In x l -> In x m.
Proof.
  induction 1 as [|y l m H IH|y l m H IH]; intros Hin; [exact Hin| |right; auto].
  destruct Hin as [-> | Hin]; [now left|right; auto].
Qed.

Lemma subseq_NoDup {A : Type} (l m : list A) : subseq l m -> NoDup m -> NoDup l.
Proof.
  induction 1 as [|y l m H IH|y l m H IH]; intros Hd; [constructor| |].
  - apply NoDup_cons_iff in Hd. destruct Hd as [Hy Hd]. constructor; [|auto].
    intros Hin. apply Hy. exact (subseq_In l m y H Hin).
  - apply NoDup_cons_iff in Hd. tauto.
Qed.

Lemma subseq_if {A : Type} (c : bool) (m : list A) : subseq (if c then m else []) m.
Proof. destruct c; [apply subseq_refl|apply subseq_nil_l]. Qed.

Lemma map_if {A B : Type} (f : A -> B) (c : bool) (l : list A) :
  map f (if c then l else []) = if c then map f l else [].
Proof. now destruct c. Qed.

(** The ids of the tables, in the order of the module. *)
Definition allIds : list string :=
  [ "hiking_boots"; "daypack"; "water_bottles"; "first_aid"; "headlamp"; "sun_protection";
    "tent"; "sleeping_bag"; "sleeping_pad"; "cooking_gear"; "extra_clothing";
    "water_filter"; "camp_shoes";
    "trekking_poles"; "gps_device"; "helmet"; "rope"; "harness"; "technical_gear";
    "rain_jacket"; "rain_pants"; "pack_cover"; "insulation_layer"; "warm_hat"; "gloves";
    "layering_system";
    "emergency_whistle"; "emergency_blanket"; "duct_tape" ].

Lemma allGear_ids (input : GearRecommendationInput) :
  subseq (map id (allGearOf toString input)) allIds.
Proof.
  unfold allGearOf, getDurationBasedGear, getTechnicalGear, getWeatherGear, getBeginnerGear.
  rewrite !map_app, !map_if.
  change allIds with
    (map id BASE_ESSENTIAL_GEAR
       ++ (["tent"; "sleeping_bag"; "sleeping_pad"; "cooking_gear"; "extra_clothing"]
             ++ ["water_filter"; "camp_shoes"])
       ++ (["trekking_poles"; "gps_device"] ++ ["helmet"; "rope"; "harness"]
             ++ ["technical_gear"])
       ++ (["rain_jacket"; "rain_pants"; "pack_cover"]
             ++ ["insulation_layer"; "warm_hat"; "gloves"] ++ ["layering_system"])
       ++ ["emergency_whistle"; "emergency_blanket"; "duct_tape"])%list.
  repeat apply subseq_app; try apply subseq_refl; try apply (subseq_if _ _).
  destruct (hasExperience input); [apply subseq_nil_l|apply subseq_refl].
Qed.

Lemma allGear_distinct (input : GearRecommendationInput) :
  NoDup (map id (allGearOf toString input)).
Proof.
  apply (subseq_NoDup _ allIds (allGear_ids input)).
  unfold allIds. repeat (constructor; [cbn; intuition discriminate|]). constructor.
Qed.

(** X19.  For every input the six base items are the first six essential
    items; the duplicate filter removes nothing (the rule tables share no
    id), so [totalItems] is the number of selected items, between 6 and
    28. *)
Theorem base_gear_heads_every_recommendation (input : GearRecommendationInput) :
  let r := recommendGear toString input in
  firstn 6 (essentialGear r) = BASE_ESSENTIAL_GEAR /\
  totalItems r = List.length (allGearOf toString input) /\
  (6 <= totalItems r <= 28)%nat.
Proof.
  cbv zeta. unfold recommendGear. cbn [essentialGear totalItems].
  rewrite (uniqueById_distinct _ (allGear_distinct input)).
  split; [|split; [reflexivity|]].
  - unfold allGearOf. rewrite filter_app.
    change (filter (hasPriority essential) BASE_ESSENTIAL_GEAR) with BASE_ESSENTIAL_GEAR.
    rewrite firstn_app. change (6 - List.length BASE_ESSENTIAL_GEAR)%nat with 0%nat.
    rewrite firstn_O, app_nil_r. reflexivity.
  - unfold allGearOf. rewrite !length_app.
    assert (D : (List.length (getDurationBasedGear toString (days input)) <= 7)%nat).
    { unfold getDurationBasedGear.
      destruct (2 <=? days input), (3 <=? days input); cbn; lia. }
    assert (T : (List.length (getTechnicalGear (technicality input)) <= 6)%nat).
    { unfold getTechnicalGear.
      destruct (_ || _ || _), (_ || _), (technicality input =? "expert")%string; cbn; lia. }
    assert (W : (List.length (getWeatherGear (weather input) (season input)) <= 6)%nat).
    { unfold getWeatherGear.
      destruct (weather input =? "cold")%string eqn:E.
      - apply String.eqb_eq in E. rewrite E. cbn.
        destruct (season input =? "wet")%string; cbn; lia.
      - destruct (_ || _), (weather input =? "variable")%string; cbn; lia. }
    assert (B : (List.length (getBeginnerGear (hasExperience input)) <= 3)%nat).
    { unfold getBeginnerGear. destruct (hasExperience input); cbn; lia. }
    change (List.length BASE_ESSENTIAL_GEAR) with 6%nat. lia.
Qed.

(** The ids of a recommendation are the ids of the assembled array. *)
Lemma recommendedIds_iff (input : GearRecommendationInput) (i : string) :
  In i (recommendedIds (recommendGear toString input)) <->
  In i (map id (allGearOf toString input)).
Proof.
  unfold recommendedIds, recommendGear.
  cbn [essentialGear recommendedGear optionalGear].
  rewrite (uniqueById_distinct _ (allGear_distinct input)).
  split; intros H.
  - exact (Permutation_in i (Permutation_map id (filter_priority_perm _)) H).
  - exact (Permutation_in i (Permutation_map id (Permutation_sym (filter_priority_perm _))) H).
Qed.

(** The technical grades in increasing order; any other text counts as the
    lowest. *)
Definition grade (technicality : string) : nat :=
  if (technicality =? "expert")%string then 3
  else if (technicality =? "hard")%string then 2
  else if (technicality =? "moderate")%string then 1
  else 0.

Lemma duration_gear_grows (d1 d2 : float) :
  (d1 <=? d2) = true ->
  incl (map id (getDurationBasedGear toString d1)) (map id (getDurationBasedGear toString d2)).
Proof.
  intros H. unfold getDurationBasedGear.
  destruct (2 <=? d1) eqn:A1.
  - rewrite (leb_trans 2 d1 d2 A1 H).
    destruct (3 <=? d1) eqn:B1.
    + rewrite (leb_trans 3 d1 d2 B1 H). apply incl_refl.
    + rewrite app_nil_r. rewrite map_app. apply incl_appl, incl_refl.
  - destruct (3 <=? d1) eqn:B1.
    + rewrite (leb_trans 3 d1 d2 B1 H). cbn [app]. rewrite map_app. apply incl_appr, incl_refl.
    + intros x [].
Qed.

Lemma technical_gear_grows (t1 t2 : string) :
  (grade t1 <= grade t2)%nat ->
  incl (map id (getTechnicalGear t1)) (map id (getTechnicalGear t2)).
Proof.
  unfold grade, getTechnicalGear.
  destruct (t1 =? "expert")%string, (t1 =? "hard")%string, (t1 =? "moderate")%string,
    (t2 =? "expert")%string, (t2 =? "hard")%string, (t2 =? "moderate")%string;
    intros H; try lia; intros x Hx; simpl in Hx |- *; tauto.
Qed.

(** X20.  A longer or technically harder trip, everything else being equal,
    never loses an item: if [days] does not decrease and the technical grade
    does not go down (easy or unknown, moderate, hard, expert), every id
    recommended before is still recommended. *)
Theorem a_harder_or_longer_trip_keeps_every_item (a b : GearRecommendationInput) :
  (days a <=? days b) = true ->
  (grade (technicality a) <= grade (technicality b))%nat ->
  weather a = weather b -> season a = season b -> hasExperience a = hasExperience b ->
  incl (recommendedIds (recommendGear toString a))
       (recommendedIds (recommendGear toString b)).
Proof.
  intros Hd Hg Hw Hs He i Hi.
  apply recommendedIds_iff. apply recommendedIds_iff in Hi.
  unfold allGearOf in *. rewrite <- Hw, <- Hs, <- He.
  rewrite !map_app in *.
  repeat (apply in_app_or in Hi; destruct Hi as [Hi|Hi]).
  - apply in_or_app. now left.
  - apply in_or_app. right. apply in_or_app. left.
    now apply (duration_gear_grows _ _ Hd).
  - apply in_or_app. right. apply in_or_app. right. apply in_or_app. left.
    now apply (technical_gear_grows _ _ Hg).
  - apply in_or_app. right. apply in_or_app. right. apply in_or_app. right.
    apply in_or_app. now left.
  - apply in_or_app. right. apply in_or_app. right. apply in_or_app. right.
    apply in_or_app. now right.
Qed.

End WithFormat.

(** *** getGearSummary *)

Local Open Scope Z_scope.

(** The number of items of category [c]. *)
Definition countCategory (c : Category) (gear : list GearItem) : Z :=
  Z.of_nat (List.length (filter (fun x => sameCategory (category x) c) gear)).

Lemma sameCategory_spec (c d : Category) : sameCategory c d = true <-> c = d.
Proof. destruct c, d; cbn; split; congruence. Qed.

Lemma summary_get_set_same (s : list (Category * Z)) (c : Category) (n : Z) :
  summary_get (summary_set s c n) c = Some n.
Proof.
  induction s as [|[c' n'] s IH]; cbn.
  - now rewrite (proj2 (sameCategory_spec c c) eq_refl).
  - destruct (sameCategory c' c) eqn:E; cbn; rewrite E; [reflexivity|exact IH].
Qed.

Lemma summary_get_set_other (s : list (Category * Z)) (c d : Category) (n : Z) :
  c <> d -> summary_get (summary_set s c n) d = summary_get s d.
Proof.
  intros N.
  assert (F : sameCategory c d = false).
  { destruct (sameCategory c d) eqn:E; [apply sameCategory_spec in E; contradiction|reflexivity]. }
  induction s as [|[c' n'] s IH]; cbn.
  - now rewrite F.
  - destruct (sameCategory c' c) eqn:E; cbn.
    + apply sameCategory_spec in E. subst c'. now rewrite F.
    + destruct (sameCategory c' d); [reflexivity|exact IH].
Qed.

(** What a summary says of a category: its count, or nothing. *)
Definition says (s : list (Category * Z)) (c : Category) (n : Z) : Prop :=
  summary_get s c = if n =? 0 then None else Some n.

Lemma summary_loop (gear : list GearItem) :
  forall (s : list (Category * Z)) (counted : list GearItem),
    (forall c, says s c (countCategory c counted)) ->
    forall c,
      says (fold_left (fun summary item =>
                         summary_set summary (category item)
                                     (countOr0 summary (category item) + 1))
                      gear s)
           c (countCategory c (counted ++ gear)).
Proof.
  induction gear as [|x gear IH]; intros s counted H c.
  - rewrite app_nil_r. apply H.
  - cbn [fold_left].
    replace (counted ++ x :: gear)%list with ((counted ++ [x]) ++ gear)%list
      by now rewrite <- app_assoc.
    apply IH. clear c. intros c. unfold says in *.
    unfold countCategory in *. rewrite filter_app, length_app. cbn [filter].
    destruct (sameCategory (category x) c) eqn:E.
    + apply sameCategory_spec in E. subst c. rewrite summary_get_set_same.
      cbn [List.length]. unfold countOr0. rewrite H.
      set (n := List.length _).
      destruct (Z.of_nat n =? 0) eqn:Z0.
      * apply Z.eqb_eq in Z0. replace (Z.of_nat (n + 1)) with 1 by lia. reflexivity.
      * rewrite Z0. replace (Z.of_nat (n + 1) =? 0) with false by (symmetry; apply Z.eqb_neq; lia).
        f_equal. lia.
    + rewrite summary_get_set_other.
      * cbn [List.length]. rewrite Nat.add_0_r. apply H.
      * intros Eq. apply sameCategory_spec in Eq. congruence.
Qed.

(** X21.  [getGearSummary] counts the items per category: the summary holds
    for every category that occurs among the items the number of items of
    that category, and no property for a category that does not occur. *)
Theorem gear_summary_counts_every_category (gear : list GearItem) (c : Category) :
  summary_get (getGearSummary gear) c =
  if countCategory c gear =? 0 then None else Some (countCategory c gear).
Proof.
  unfold getGearSummary.
  apply (summary_loop gear [] [] (fun c => eq_refl) c).
Qed.


Lemma a_harder_or_longer_trip_keeps_every_item_witness :
  let dayHike :=
    {| days := 1; technicality := "easy"; weather := "wet"; season := "dry";
       groupSize := 2; hasExperience := false |} in
  let expedition :=
    {| days := 3; technicality := "expert"; weather := "wet"; season := "dry";
       groupSize := 2; hasExperience := false |} in
  let toString := Report.Number_toString ReportFacts.sampleFormat in
  incl (recommendedIds (recommendGear toString dayHike))
       (recommendedIds (recommendGear toString expedition)).
Proof.
  cbv zeta.
  apply (a_harder_or_longer_trip_keeps_every_item
           (Report.Number_toString ReportFacts.sampleFormat)
           {| days := 1; technicality := "easy"; weather := "wet"; season := "dry";
              groupSize := 2; hasExperience := false |}
           {| days := 3; technicality := "expert"; weather := "wet"; season := "dry";
              groupSize := 2; hasExperience := false |});
    try reflexivity.
  cbn. lia.
Defined.

End GearFacts.

(** ** safeJson *)

Module ValidationFacts.
Import Validation.
Local Open Scope Z_scope.

(** The number of levels below a value: 0 for a value that holds nothing. *)
Fixpoint height (v : Json) : Z :=
  match v with
  | JArray items => fold_right (fun item h => Z.max (1 + height item) h) 0 items
  | JObject properties =>
      fold_right (fun property h => Z.max (1 + height (snd property)) h) 0 properties
  | _ => 0
  end.

Lemma fold_max_nonneg {A : Type} (f : A -> Z) (l : list A) :
  0 <= fold_right (fun x h => Z.max (f x) h) 0 l.
Proof. induction l; cbn [fold_right]; lia. Qed.

Lemma height_nonneg (v : Json) : 0 <= height v.
Proof. destruct v; cbn [height]; try lia; apply fold_max_nonneg. Qed.

(** Induction on a JSON value, with the property available for every item
    of an array and every property value of an object. *)
Lemma Json_induction (P : Json -> Prop) :
  P JNull -> (forall b, P (JBoolean b)) -> (forall x, P (JNumber x)) ->
  (forall s, P (JString s)) ->
  (forall items, Forall P items -> P (JArray items)) ->
  (forall properties, Forall (fun p => P (snd p)) properties -> P (JObject properties)) ->
  forall v, P v.
Proof.
  intros HN HB HX HS HA HO. fix IH 1.
  intros [|b|x|s|items|props]; [exact HN|apply HB|apply HX|apply HS| |].
  - apply HA. induction items as [|x items IHl]; constructor; [apply IH|exact IHl].
  - apply HO. induction props as [|[k x] props IHl]; constructor; [apply IH|exact IHl].
Qed.

Ltac compare_cases :=
  repeat match goal with
         | |- context [(?a <? ?b)] => destruct (Z.ltb_spec a b)
         | |- context [(?a <=? ?b)] => destruct (Z.leb_spec a b)
         end;
  cbn [andb]; try reflexivity; try lia.

(** One level of [checkDepth]: the values held by [obj], each one level
    further down. *)
Lemma checkDepth_level {A : Type} (maxDepth : Z) (get : A -> Json) (l : list A) (depth : Z) :
  Forall (fun a => forall d, checkDepth maxDepth (get a) d
                             = (d + height (get a) <=? maxDepth)) l ->
  (if maxDepth <? depth then false
   else forallb (fun a => checkDepth maxDepth (get a) (depth + 1)) l)
  = (depth + fold_right (fun a h => Z.max (1 + height (get a)) h) 0 l <=? maxDepth).
Proof.
  induction 1 as [|a l Ha Hl IH].
  - cbn [forallb fold_right]. compare_cases.
  - cbn [forallb fold_right]. rewrite Ha.
    pose proof (fold_max_nonneg (fun a => 1 + height (get a)) l) as Hh.
    pose proof (height_nonneg (get a)) as Hg.
    set (h := fold_right _ 0 l) in *.
    destruct (Z.ltb_spec maxDepth depth) as [L|L].
    + compare_cases.
    + destruct (Z.leb_spec (depth + 1 + height (get a)) maxDepth) as [L1|L1]; cbn [andb].
      * rewrite IH. compare_cases.
      * compare_cases.
Qed.

Lemma checkDepth_height (maxDepth : Z) (v : Json) :
  forall depth, checkDepth maxDepth v depth = (depth + height v <=? maxDepth).
Proof.
  induction v as [|b|x|s|items IH|props IH] using Json_induction; intros depth.
  1-4: cbn [checkDepth height]; compare_cases.
  - cbn [checkDepth height]. exact (checkDepth_level maxDepth (fun v => v) items depth IH).
  - cbn [checkDepth height]. exact (checkDepth_level maxDepth snd props depth IH).
Qed.

(** X22.  The predicate of [safeJson(maxKeys, maxDepth)] accepts exactly the
    objects (no array, no primitive value) that have at most [maxKeys]
    properties and hold values at most [maxDepth] levels below the top,
    primitive values included; an empty array or object counts as a value
    that holds nothing. *)
Theorem safeJson_accepts_shallow_objects (maxKeys maxDepth : Z) (val : Json) :
  safeJson maxKeys maxDepth val = true <->
  exists properties,
    val = JObject properties /\
    Z.of_nat (List.length properties) <= maxKeys /\
    height val <= maxDepth.
Proof.
  unfold safeJson. destruct val as [| | | |items|props];
    try (split; [discriminate|intros [p [E _]]; discriminate]).
  rewrite checkDepth_height. split.
  - destruct (maxKeys <? _) eqn:E; [discriminate|]. apply Z.ltb_ge in E.
    intros H. apply Z.leb_le in H. exists props. repeat split; lia.
  - intros [p [[= <-] [Hk Hh]]].
    replace (maxKeys <? _) with false by (symmetry; apply Z.ltb_ge; lia).
    apply Z.leb_le. lia.
Qed.

End ValidationFacts.
